(** * Activity aggregation engine of git-contribution-stats

    A shallow embedding of [src/github-contribution-stats.ts], followed by
    the properties of its specification, stated and proved on the
    embedding.

    Conventions of the embedding.
    - Instants ([Date] values and the ISO timestamps of the API) are
      integers, milliseconds since the epoch; every timestamp that is
      present parses to a valid date.
    - JavaScript numbers that count things are integers ([Z]).
    - The objects of the API have the members the requests select; a
      member the source guards ([?.], [||], a truthiness test) may be
      absent, and is an [option].
    - A JavaScript object used as a dictionary is a [JsObject.t]: an
      association list in creation order.  Keys are own properties only:
      no author and no repository is named like a member of
      [Object.prototype].
    - [Set<string>] is a [gset string].
    - The network is an oracle ([Octokit]) that answers every request from
      the history of the interaction so far; the history is threaded
      through the collectors as a list of [Event]s, which also records the
      waits ([setTimeout]).
    - A function that mutates its argument returns the argument as it
      leaves it.
    - [console.log] output is not modelled. *)

From Stdlib Require Import ZArith String Ascii List Lia DecimalString.
From Stdlib Require Import Sorting.Sorted Sorting.Permutation.
From stdpp Require Import gmap strings list.
Import ListNotations.

Set Warnings "-clear-no-such-hyp".

Local Open Scope string_scope.
Local Open Scope list_scope.
Local Open Scope Z_scope.

(** String concatenation, as [+] and template literals build text. *)
Infix "+++" := String.append (right associativity, at level 60).

(** ** JavaScript values *)

Module Js.

(** An identifier as the API reports it: a node id (string) or a
    database id (number). *)
Inductive Id : Type :=
| IdStr (s : string)
| IdNum (n : Z).

(** Truthiness of a string: every string but the empty one. *)
Definition truthy_str (s : string) : bool := negb (String.eqb s "").

(** Truthiness of an identifier. *)
Definition truthy_id (i : Id) : bool :=
  match i with
  | IdStr s => truthy_str s
  | IdNum n => negb (n =? 0)
  end.

(** [o || d] for a possibly missing string [o] and a string [d]. *)
Definition or_str (o : option string) (d : string) : string :=
  match o with
  | Some s => if truthy_str s then s else d
  | None => d
  end.

(** [a || b] for possibly missing identifiers. *)
Definition or_id (a b : option Id) : option Id :=
  match a with
  | Some i => if truthy_id i then Some i else b
  | None => b
  end.

(** [a || null]. *)
Definition or_null (a : option Id) : option Id := or_id a None.

(** Truthiness of a possibly missing identifier. *)
Definition truthy_opt (a : option Id) : bool :=
  match a with
  | Some i => truthy_id i
  | None => false
  end.

(** Template-literal rendering of an integer. *)
Definition num_to_string (n : Z) : string :=
  NilZero.string_of_int (Z.to_int n).

(** Template-literal rendering of an identifier. *)
Definition id_to_string (i : Id) : string :=
  match i with
  | IdStr s => s
  | IdNum n => num_to_string n
  end.

(** [s.includes(sub)] *)
Fixpoint includes (sub s : string) : bool :=
  if String.prefix sub s then true
  else match s with
       | EmptyString => false
       | String _ s' => includes sub s'
       end.

(** [Array.prototype.sort(cmp)]: the sort is stable, and for a
    consistent comparator its result is the one of this insertion sort
    ([cmp a b <= 0] keeps [a] before [b]). *)
Section Sort.
Context {A : Type} (cmp : A -> A -> Z).

Fixpoint insert (x : A) (l : list A) : list A :=
  match l with
  | [] => [x]
  | y :: l' => if cmp x y <=? 0 then x :: y :: l' else y :: insert x l'
  end.

Fixpoint sort (l : list A) : list A :=
  match l with
  | [] => []
  | x :: l' => insert x (sort l')
  end.
End Sort.

(** [lines.join(sep)] *)
Fixpoint join (sep : string) (lines : list string) : string :=
  match lines with
  | [] => ""
  | [l] => l
  | l :: ls => l +++ sep +++ join sep ls
  end.

End Js.

(** ** Objects used as dictionaries *)

Module JsObject.

Definition t (V : Type) : Type := list (string * V).

Section Ops.
Context {V : Type}.

(** [{}] *)
Definition empty : t V := [].

(** [o[k]], [None] standing for [undefined]. *)
Fixpoint get (k : string) (o : t V) : option V :=
  match o with
  | [] => None
  | (k', v) :: o' => if String.eqb k k' then Some v else get k o'
  end.

(** [o[k] = v]: an existing property keeps its place, a new one is
    created last. *)
Fixpoint set (k : string) (v : V) (o : t V) : t V :=
  match o with
  | [] => [(k, v)]
  | (k', v') :: o' =>
      if String.eqb k k' then (k', v) :: o' else (k', v') :: set k v o'
  end.
End Ops.

(** The number a key stands for when it is an array index: the
    canonical decimal form of an integer below [2^32 - 1]. *)
Definition array_index (k : string) : option Z :=
  match NilZero.uint_of_string k with
  | Some u =>
      let n := Z.of_N (N.of_uint u) in
      if String.eqb (Js.num_to_string n) k && (n <? 4294967295)
      then Some n else None
  | None => None
  end.

Definition is_index {V : Type} (kv : string * V) : bool :=
  match array_index (fst kv) with Some _ => true | None => false end.

Definition index_cmp {V : Type} (a b : string * V) : Z :=
  match array_index (fst a), array_index (fst b) with
  | Some x, Some y => x - y
  | _, _ => 0
  end.

(** [Object.entries(o)]: array-index keys first, in ascending numeric
    order, then the other keys in creation order. *)
Definition entries {V : Type} (o : t V) : list (string * V) :=
  Js.sort index_cmp (List.filter is_index o)
    ++ List.filter (fun kv => negb (is_index kv)) o.

(** [Object.keys(o)] *)
Definition keys {V : Type} (o : t V) : list string := map fst (entries o).

(** [Object.values(o)], used to state the sum invariant. *)
Definition values {V : Type} (o : t V) : list V := map snd o.

End JsObject.

(** ** Data model *)

(** A repository as the installation listing returns it
    ([repo.owner.login], [repo.name], ...); a timestamp that is absent is
    [None]. *)
Module Repository.
Record t := {
  owner_login : string;
  name : string;
  full_name : string;
  pushed_at : option Z;
  updated_at : option Z
}.
End Repository.

(** A branch head of the branch query. *)
Module Branch.
Record t := { name : string }.
End Branch.

(** A commit of the history query; [author.user] is absent for a commit
    that is not linked to an account. *)
Module Commit.
Record User := {
  login : string;
  id : option string;
  databaseId : option Z
}.
Record Author := {
  user : option User;
  name : option string;
  email : option string
}.
Record t := {
  oid : string;
  author : Author;
  committedDate : Z
}.
End Commit.

(** A pull request as the search endpoint and the pulls endpoint return
    it.  [pull_request_url] is [pr.pull_request.url], absent when the item
    has no [pull_request] member. *)
Module PullRequest.
Record User := {
  login : string;
  id : option Z;
  node_id : option string
}.
Record t := {
  number : Z;
  user : option User;
  created_at : Z;
  closed_at : option Z;
  updated_at : Z;
  pull_request_url : option string
}.
End PullRequest.

(** The search response: [data.total_count] and [data.items]. *)
Record SearchData := {
  total_count : Z;
  items : list PullRequest.t
}.

(** The per-repository opened and closed counters of an author. *)
Record PrCounts := {
  opened : Z;
  closed : Z
}.

(** The accumulator of an author ([user_stats[author_login]]). *)
Record AuthorAccumulator := {
  user_id : option Js.Id;
  commits_by_repo : JsObject.t Z;
  pull_requests_by_repo : JsObject.t PrCounts;
  total_commits : Z;
  total_prs_opened : Z;
  total_prs_closed : Z
}.

(** The exported result types. *)
Module RepoContribution.
Record t := {
  repo_name : string;
  commits : Z;
  prs_opened : Z;
  prs_closed : Z
}.
End RepoContribution.

Module UserStat.
Record t := {
  name : string;
  user_id : option Js.Id;
  total_commits : Z;
  total_prs_opened : Z;
  total_prs_closed : Z;
  repo_contributions : list RepoContribution.t
}.
End UserStat.

Module InstallationStats.
Record t := {
  id : Z;
  account : string;
  account_type : string;
  period_days : Z;
  user_stats : list UserStat.t
}.
End InstallationStats.

Module InstallationError.
Record t := {
  id : Z;
  account : string;
  error : string
}.
End InstallationError.

(** [InstallationStats | InstallationError], told apart by
    ['error' in installation]. *)
Inductive InstallationResult : Type :=
| Stats (s : InstallationStats.t)
| Failure (e : InstallationError.t).

(** ** The network and the store *)

(** A rejected request. *)
Record JsError := {
  status : option Z;
  message : string
}.

Inductive Response (A : Type) : Type :=
| Resolved (a : A)
| Rejected (e : JsError).
Arguments Resolved {A} a.
Arguments Rejected {A} e.

(** What happened so far, oldest first: every request with its answer and
    every wait. *)
Inductive Event : Type :=
| EvBranches (owner repo : string) (r : Response (list Branch.t))
| EvHistory (owner repo branchName : string) (since : Z)
            (r : Response (list Commit.t))
| EvSearch (owner repo : string) (since : Z) (r : Response SearchData)
| EvPulls (owner repo : string) (page : Z) (r : Response (list PullRequest.t))
| EvSleep (ms : Z).

(** The installation-scoped client.  Each member answers one kind of
    request, given the history so far and the request's parameters. *)
Record Octokit := {
  branches_of : list Event -> string -> string -> Response (list Branch.t);
  history_of : list Event -> string -> string -> string -> Z ->
               Response (list Commit.t);
  search_of : list Event -> string -> string -> Z -> Response SearchData;
  pulls_of : list Event -> string -> string -> Z ->
             Response (list PullRequest.t)
}.

(** The objects the collectors mutate: the interaction history, the
    per-installation [user_stats] dictionary and the per-repository
    [processed_commits] set. *)
Record Heap := {
  events : list Event;
  user_stats : JsObject.t AuthorAccumulator;
  processed_commits : gset string
}.

(** How an [async] function ends: it returns, it throws, or its loop is
    still running when the fuel of the model is spent. *)
Inductive Completion (A : Type) : Type :=
| Returned (a : A)
| Thrown (e : JsError)
| Pending.
Arguments Returned {A} a.
Arguments Thrown {A} e.
Arguments Pending {A}.

(** A computation over the heap. *)
Definition M (A : Type) : Type := Heap -> Completion A * Heap.

Definition ret {A : Type} (a : A) : M A := fun h => (Returned a, h).

Definition throw {A : Type} (e : JsError) : M A := fun h => (Thrown e, h).

Definition pending {A : Type} : M A := fun h => (Pending, h).

Definition bind {A B : Type} (m : M A) (k : A -> M B) : M B :=
  fun h =>
    match m h with
    | (Returned a, h') => k a h'
    | (Thrown e, h') => (Thrown e, h')
    | (Pending, h') => (Pending, h')
    end.

(** [try { m } catch (e) { handler e }] *)
Definition try_catch {A : Type} (m : M A) (handler : JsError -> M A) : M A :=
  fun h =>
    match m h with
    | (Thrown e, h') => handler e h'
    | r => r
    end.

Notation "'let*' x ':=' m 'in' k" := (bind m (fun x => k))
  (at level 10, x name, m at level 100, k at level 200).
Notation "'do' m 'then' k" := (bind m (fun _ => k))
  (at level 10, m at level 100, k at level 200).

(** [for (const x of l) { await body x }] *)
Fixpoint for_each {X : Type} (body : X -> M unit) (l : list X) : M unit :=
  match l with
  | [] => ret tt
  | x :: l' => do body x then for_each body l'
  end.

Definition log_event (ev : Event) : M unit :=
  fun h => (Returned tt,
            {| events := events h ++ [ev];
               user_stats := user_stats h;
               processed_commits := processed_commits h |}).

(** [await new Promise(resolve => setTimeout(resolve, ms))] *)
Definition sleep (ms : Z) : M unit := log_event (EvSleep ms).

(** A request: the oracle answers from the history, the exchange is
    recorded, and a rejection is thrown. *)
Definition request {A : Type} (answer : list Event -> Response A)
  (record : Response A -> Event) : M A :=
  fun h =>
    let r := answer (events h) in
    let h' := {| events := events h ++ [record r];
                 user_stats := user_stats h;
                 processed_commits := processed_commits h |} in
    match r with
    | Resolved a => (Returned a, h')
    | Rejected e => (Thrown e, h')
    end.

(** A step that only updates [user_stats]. *)
Definition modify_user_stats
  (f : JsObject.t AuthorAccumulator -> JsObject.t AuthorAccumulator) : M unit :=
  fun h => (Returned tt,
            {| events := events h;
               user_stats := f (user_stats h);
               processed_commits := processed_commits h |}).

(** ** Repository filter *)

(** [new Date(t || 0)] for a timestamp that may be missing. *)
Definition date_or_epoch (t : option Z) : Z :=
  match t with
  | Some ms => ms
  | None => 0
  end.

Definition latest_activity (repo : Repository.t) : Z :=
  let last_pushed := date_or_epoch (Repository.pushed_at repo) in
  let last_updated := date_or_epoch (Repository.updated_at repo) in
  if last_updated <? last_pushed then last_pushed else last_updated.

Definition filterUpdatedRepositories (repos : list Repository.t)
  (cutoff_date : Z) : list Repository.t :=
  List.filter (fun repo => cutoff_date <=? latest_activity repo) repos.

(** ** Accumulator updates shared by the collectors *)

Definition new_accumulator (uid : option Js.Id) : AuthorAccumulator :=
  {| user_id := uid;
     commits_by_repo := JsObject.empty;
     pull_requests_by_repo := JsObject.empty;
     total_commits := 0;
     total_prs_opened := 0;
     total_prs_closed := 0 |}.

Definition with_user_id (uid : option Js.Id) (acc : AuthorAccumulator)
  : AuthorAccumulator :=
  {| user_id := uid;
     commits_by_repo := commits_by_repo acc;
     pull_requests_by_repo := pull_requests_by_repo acc;
     total_commits := total_commits acc;
     total_prs_opened := total_prs_opened acc;
     total_prs_closed := total_prs_closed acc |}.

(** The [if (!user_stats[author_login]) {...} else if (user_id &&
    !user_stats[author_login].user_id) {...}] statement, which the source
    has three times (in [processBranchCommits], in [processPullRequest]
    and in [fetchPRsWithPagination]). *)
Definition touch_author (author_login : string) (uid : option Js.Id)
  (stats : JsObject.t AuthorAccumulator) : JsObject.t AuthorAccumulator :=
  match JsObject.get author_login stats with
  | None => JsObject.set author_login (new_accumulator uid) stats
  | Some acc =>
      if Js.truthy_opt uid && negb (Js.truthy_opt (user_id acc))
      then JsObject.set author_login (with_user_id uid acc) stats
      else stats
  end.

(** A write through [user_stats[author_login]]; the accumulator exists
    wherever the source does this. *)
Definition update_author (author_login : string)
  (f : AuthorAccumulator -> AuthorAccumulator)
  (stats : JsObject.t AuthorAccumulator) : JsObject.t AuthorAccumulator :=
  match JsObject.get author_login stats with
  | Some acc => JsObject.set author_login (f acc) stats
  | None => stats
  end.

(** ** Commit collector *)

(** [if (!commits_by_repo[repo_name]) commits_by_repo[repo_name] = 0] *)
Definition init_commit_count (repo_name : string) (acc : AuthorAccumulator)
  : AuthorAccumulator :=
  let falsy := match JsObject.get repo_name (commits_by_repo acc) with
               | Some n => n =? 0
               | None => true
               end in
  if falsy
  then {| user_id := user_id acc;
          commits_by_repo := JsObject.set repo_name 0 (commits_by_repo acc);
          pull_requests_by_repo := pull_requests_by_repo acc;
          total_commits := total_commits acc;
          total_prs_opened := total_prs_opened acc;
          total_prs_closed := total_prs_closed acc |}
  else acc.

(** [commits_by_repo[repo_name]++; total_commits++] *)
Definition count_commit (repo_name : string) (acc : AuthorAccumulator)
  : AuthorAccumulator :=
  {| user_id := user_id acc;
     commits_by_repo :=
       match JsObject.get repo_name (commits_by_repo acc) with
       | Some n => JsObject.set repo_name (n + 1) (commits_by_repo acc)
       | None => commits_by_repo acc
       end;
     pull_requests_by_repo := pull_requests_by_repo acc;
     total_commits := total_commits acc + 1;
     total_prs_opened := total_prs_opened acc;
     total_prs_closed := total_prs_closed acc |}.

(** [commit.author.user?.login || commit.author.name ||
    commit.author.email || "Unknown"] *)
Definition commit_author_login (commit : Commit.t) : string :=
  let a := Commit.author commit in
  Js.or_str (option_map Commit.login (Commit.user a))
    (Js.or_str (Commit.name a) (Js.or_str (Commit.email a) "Unknown")).

(** [commit.author.user?.id || commit.author.user?.databaseId || null] *)
Definition commit_user_id (commit : Commit.t) : option Js.Id :=
  match Commit.user (Commit.author commit) with
  | Some u =>
      Js.or_null (Js.or_id (option_map Js.IdStr (Commit.id u))
                           (option_map Js.IdNum (Commit.databaseId u)))
  | None => None
  end.

(** What the loop body of [processBranchCommits] does to [user_stats] for a
    commit that was not seen before. *)
Definition count_new_commit (repo_name : string) (commit : Commit.t)
  (stats : JsObject.t AuthorAccumulator) : JsObject.t AuthorAccumulator :=
  let author_login := commit_author_login commit in
  let stats := touch_author author_login (commit_user_id commit) stats in
  let stats := update_author author_login (init_commit_count repo_name) stats in
  update_author author_login (count_commit repo_name) stats.

(** The loop body of [processBranchCommits]. *)
Definition processCommit (repo_name : string) (commit : Commit.t) : M unit :=
  fun h =>
    if bool_decide (Commit.oid commit ∈ processed_commits h)
    then (Returned tt, h)
    else (Returned tt,
          {| events := events h;
             user_stats := count_new_commit repo_name commit (user_stats h);
             processed_commits := processed_commits h ∪ {[Commit.oid commit]} |}).

Definition processBranchCommits (octokit : Octokit)
  (owner_login repo_name : string) (branch : Branch.t) (since : Z) : M unit :=
  let branchName := "refs/heads/" +++ Branch.name branch in
  let* branch_commits :=
    request (fun tr => history_of octokit tr owner_login repo_name branchName since)
            (EvHistory owner_login repo_name branchName since) in
  for_each (processCommit repo_name) branch_commits.

Definition getBranches (octokit : Octokit) (owner_login repo_name : string)
  : M (list Branch.t) :=
  request (fun tr => branches_of octokit tr owner_login repo_name)
          (EvBranches owner_login repo_name).

Definition processRepositoryBranches (octokit : Octokit) (repo : Repository.t)
  (since : Z) : M unit :=
  let owner_login := Repository.owner_login repo in
  let repo_name := Repository.name repo in
  let* branches := getBranches octokit owner_login repo_name in
  for_each (fun branch =>
              processBranchCommits octokit owner_login repo_name branch since)
           branches.

(** ** Pull request collector *)

(** [if (!pull_requests_by_repo[repo_name]) pull_requests_by_repo[repo_name]
    = { opened: 0, closed: 0 }] *)
Definition init_pr_counts (repo_name : string) (acc : AuthorAccumulator)
  : AuthorAccumulator :=
  match JsObject.get repo_name (pull_requests_by_repo acc) with
  | Some _ => acc
  | None =>
      {| user_id := user_id acc;
         commits_by_repo := commits_by_repo acc;
         pull_requests_by_repo :=
           JsObject.set repo_name {| opened := 0; closed := 0 |}
                        (pull_requests_by_repo acc);
         total_commits := total_commits acc;
         total_prs_opened := total_prs_opened acc;
         total_prs_closed := total_prs_closed acc |}
  end.

(** [pull_requests_by_repo[repo_name].opened++; total_prs_opened++] *)
Definition count_opened (repo_name : string) (acc : AuthorAccumulator)
  : AuthorAccumulator :=
  {| user_id := user_id acc;
     commits_by_repo := commits_by_repo acc;
     pull_requests_by_repo :=
       match JsObject.get repo_name (pull_requests_by_repo acc) with
       | Some c =>
           JsObject.set repo_name
                        {| opened := opened c + 1; closed := closed c |}
                        (pull_requests_by_repo acc)
       | None => pull_requests_by_repo acc
       end;
     total_commits := total_commits acc;
     total_prs_opened := total_prs_opened acc + 1;
     total_prs_closed := total_prs_closed acc |}.

(** [pull_requests_by_repo[repo_name].closed++; total_prs_closed++] *)
Definition count_closed (repo_name : string) (acc : AuthorAccumulator)
  : AuthorAccumulator :=
  {| user_id := user_id acc;
     commits_by_repo := commits_by_repo acc;
     pull_requests_by_repo :=
       match JsObject.get repo_name (pull_requests_by_repo acc) with
       | Some c =>
           JsObject.set repo_name
                        {| opened := opened c; closed := closed c + 1 |}
                        (pull_requests_by_repo acc)
       | None => pull_requests_by_repo acc
       end;
     total_commits := total_commits acc;
     total_prs_opened := total_prs_opened acc;
     total_prs_closed := total_prs_closed acc + 1 |}.

(** [pr.user ? pr.user.login : "Unknown"] *)
Definition pr_author_login (pr : PullRequest.t) : string :=
  match PullRequest.user pr with
  | Some u => PullRequest.login u
  | None => "Unknown"
  end.

(** [pr.user?.id || pr.user?.node_id || null] *)
Definition pr_user_id (pr : PullRequest.t) : option Js.Id :=
  match PullRequest.user pr with
  | Some u =>
      Js.or_null (Js.or_id (option_map Js.IdNum (PullRequest.id u))
                           (option_map Js.IdStr (PullRequest.node_id u)))
  | None => None
  end.

(** [processPullRequest], as a function of the [user_stats] it updates. *)
Definition processPullRequest (pr : PullRequest.t) (repo_name : string)
  (cutoff_date : Z) (stats : JsObject.t AuthorAccumulator)
  : JsObject.t AuthorAccumulator :=
  let author_login := pr_author_login pr in
  let user_id := pr_user_id pr in
  let stats := touch_author author_login user_id stats in
  let stats := update_author author_login (init_pr_counts repo_name) stats in
  let created_at := PullRequest.created_at pr in
  let stats :=
    if cutoff_date <=? created_at
    then update_author author_login (count_opened repo_name) stats
    else stats in
  match PullRequest.closed_at pr with
  | Some closed_at =>
      if cutoff_date <=? closed_at
      then update_author author_login (count_closed repo_name) stats
      else stats
  | None => stats
  end.

(** The body of the [for (const pr of filtered_prs)] loop of
    [fetchPRsWithPagination], which repeats the text of
    [processPullRequest] with [repo.name] for [repo_name]. *)
Definition processListedPullRequest (pr : PullRequest.t) (repo : Repository.t)
  (cutoff_date : Z) (stats : JsObject.t AuthorAccumulator)
  : JsObject.t AuthorAccumulator :=
  let author_login := pr_author_login pr in
  let user_id := pr_user_id pr in
  let stats := touch_author author_login user_id stats in
  let stats :=
    update_author author_login (init_pr_counts (Repository.name repo)) stats in
  let created_at := PullRequest.created_at pr in
  let stats :=
    if cutoff_date <=? created_at
    then update_author author_login (count_opened (Repository.name repo)) stats
    else stats in
  match PullRequest.closed_at pr with
  | Some closed_at =>
      if cutoff_date <=? closed_at
      then update_author author_login (count_closed (Repository.name repo)) stats
      else stats
  | None => stats
  end.

(** The pattern [/\/repos\/([^\/]+)\/([^\/]+)\/pulls\/\d+/] of
    [processPullRequestsFromSearch]. *)
Module PrRepoRegex.

Definition is_slash (c : ascii) : bool := Ascii.eqb c "/"%char.

Definition is_digit (c : ascii) : bool :=
  let n := nat_of_ascii c in (48 <=? n)%nat && (n <=? 57)%nat.

(** The literal [lit] at the start of [s]; what follows it. *)
Fixpoint literal (lit s : string) : option string :=
  match lit, s with
  | EmptyString, _ => Some s
  | String a lit', String b s' =>
      if Ascii.eqb a b then literal lit' s' else None
  | String _ _, EmptyString => None
  end.

(** [[^\/]+] where a [/] has to follow: the longest run without [/]. *)
Fixpoint segment (s : string) : string * string :=
  match s with
  | EmptyString => (EmptyString, EmptyString)
  | String c s' =>
      if is_slash c then (EmptyString, s)
      else let (seg, rest) := segment s' in (String c seg, rest)
  end.

(** A match that starts at the first character of [s]: the two groups. *)
Definition match_here (s : string) : option (string * string) :=
  match literal "/repos/" s with
  | None => None
  | Some s1 =>
      let (owner, s2) := segment s1 in
      if String.eqb owner "" then None
      else match literal "/" s2 with
           | None => None
           | Some s3 =>
               let (repo, s4) := segment s3 in
               if String.eqb repo "" then None
               else match literal "/pulls/" s4 with
                    | Some (String d _) =>
                        if is_digit d then Some (owner, repo) else None
                    | _ => None
                    end
           end
  end.

(** [url.match(pr_repo_regex)]: the leftmost match. *)
Fixpoint exec (url : string) : option (string * string) :=
  match match_here url with
  | Some groups => Some groups
  | None =>
      match url with
      | EmptyString => None
      | String _ url' => exec url'
      end
  end.

End PrRepoRegex.

(** The [TypeError] of reading a member of [undefined]. *)
Definition type_error : JsError :=
  {| status := None; message := "Cannot read properties of undefined" |}.

Definition processPullRequestsFromSearch (search_prs : list PullRequest.t)
  (repo : Repository.t) (cutoff_date : Z) : M unit :=
  let owner_login := Repository.owner_login repo in
  let repo_name := Repository.name repo in
  for_each
    (fun pr =>
       try_catch
         (match PullRequest.pull_request_url pr with
          | None => throw type_error
          | Some url =>
              match PrRepoRegex.exec url with
              | Some (owner, name) =>
                  if String.eqb owner owner_login && String.eqb name repo_name
                  then modify_user_stats
                         (processPullRequest pr repo_name cutoff_date)
                  else ret tt
              | None => ret tt
              end
          end)
         (fun pr_error => ret tt))
    search_prs.

(** The variables of the loop of [fetchPRsWithPagination]. *)
Record PageLoop := {
  page : Z;
  has_more_pages : bool;
  total_prs : Z
}.

(** [error.status === 403 && error.message.includes('rate limit')] *)
Definition is_rate_limit (error : JsError) : bool :=
  match status error with
  | Some s => (s =? 403) && Js.includes "rate limit" (message error)
  | None => false
  end.

(** The [try] block of the loop.  The request is its only statement that
    can throw, so the handler finds the variables as they were at the top
    of the iteration. *)
Definition fetch_page (octokit : Octokit) (repo : Repository.t)
  (cutoff_date : Z) (v : PageLoop) : M PageLoop :=
  do (if 1 <? page v then sleep 1000 else ret tt) then
  let* pull_requests :=
    request (fun tr => pulls_of octokit tr (Repository.owner_login repo)
                                (Repository.name repo) (page v))
            (EvPulls (Repository.owner_login repo) (Repository.name repo)
                     (page v)) in
  let has_more := Z.of_nat (length pull_requests) =? 100 in
  let page' := page v + 1 in
  let filtered_prs :=
    List.filter (fun pr => cutoff_date <=? PullRequest.updated_at pr)
                pull_requests in
  let total := total_prs v + Z.of_nat (length filtered_prs) in
  do for_each
       (fun pr =>
          try_catch
            (modify_user_stats (processListedPullRequest pr repo cutoff_date))
            (fun pr_error => ret tt))
       filtered_prs then
  ret {| page := page';
         has_more_pages :=
           if (Z.of_nat (length filtered_prs) =? 0) && (2 <? page')
           then false else has_more;
         total_prs := total |}.

(** One iteration of the [while (has_more_pages)] loop. *)
Definition pagination_iteration (octokit : Octokit) (repo : Repository.t)
  (cutoff_date : Z) (v : PageLoop) : M PageLoop :=
  try_catch
    (fetch_page octokit repo cutoff_date v)
    (fun error =>
       if is_rate_limit error
       then do sleep 60000 then
            ret {| page := page v - 1;
                   has_more_pages := has_more_pages v;
                   total_prs := total_prs v |}
       else ret {| page := page v;
                   has_more_pages := false;
                   total_prs := total_prs v |}).

(** The loop; [fuel] bounds the number of iterations the model follows. *)
Fixpoint pagination_loop (fuel : nat) (octokit : Octokit) (repo : Repository.t)
  (cutoff_date : Z) (v : PageLoop) : M Z :=
  if has_more_pages v
  then match fuel with
       | O => pending
       | S fuel' =>
           let* v' := pagination_iteration octokit repo cutoff_date v in
           pagination_loop fuel' octokit repo cutoff_date v'
       end
  else ret (total_prs v).

Definition fetchPRsWithPagination (fuel : nat) (octokit : Octokit)
  (repo : Repository.t) (cutoff_date : Z) : M Z :=
  pagination_loop fuel octokit repo cutoff_date
    {| page := 1; has_more_pages := true; total_prs := 0 |}.

Definition processRepositoryPullRequests (fuel : nat) (octokit : Octokit)
  (repo : Repository.t) (cutoff_date : Z) : M unit :=
  let owner_login := Repository.owner_login repo in
  let repo_name := Repository.name repo in
  try_catch
    (let* data :=
       request (fun tr => search_of octokit tr owner_login repo_name cutoff_date)
               (EvSearch owner_login repo_name cutoff_date) in
     do processPullRequestsFromSearch (items data) repo cutoff_date then
     if total_count data =? 0
     then do fetchPRsWithPagination fuel octokit repo cutoff_date then ret tt
     else ret tt)
    (fun search_error =>
       do fetchPRsWithPagination fuel octokit repo cutoff_date then ret tt).

(** ** The collection pass of an installation *)

(** [const processed_commits = new Set<string>()] *)
Definition new_processed_commits : M unit :=
  fun h => (Returned tt,
            {| events := events h;
               user_stats := user_stats h;
               processed_commits := ∅ |}).

Definition collectUserStats (fuel : nat) (octokit : Octokit)
  (updated_repos : list Repository.t) (cutoff_date : Z)
  : M (JsObject.t AuthorAccumulator) :=
  do modify_user_stats (fun _ => JsObject.empty) then
  do for_each
       (fun repo =>
          try_catch
            (do new_processed_commits then
             do processRepositoryBranches octokit repo cutoff_date then
             processRepositoryPullRequests fuel octokit repo cutoff_date)
            (fun repo_error => ret tt))
       updated_repos then
  fun h => (Returned (user_stats h), h).

(** ** Stats aggregator *)

Module Installation.
(** [installation.id], [installation.account.login] and
    [installation.account.type]. *)
Record t := {
  id : Z;
  account_login : string;
  account_type : string
}.
End Installation.

(** [new Set(keys)] in iteration order: each key where it first occurs. *)
Fixpoint set_of_keys (seen keys : list string) : list string :=
  match keys with
  | [] => []
  | k :: keys' =>
      if existsb (String.eqb k) seen then set_of_keys seen keys'
      else k :: set_of_keys (k :: seen) keys'
  end.

(** [commits_by_repo[repo_name] || 0] *)
Definition commits_or_zero (stats : AuthorAccumulator) (repo_name : string) : Z :=
  match JsObject.get repo_name (commits_by_repo stats) with
  | Some n => n
  | None => 0
  end.

(** [(pull_requests_by_repo[repo_name] &&
    pull_requests_by_repo[repo_name].opened) || 0], and the same for
    [closed]. *)
Definition pr_field_or_zero (field : PrCounts -> Z) (stats : AuthorAccumulator)
  (repo_name : string) : Z :=
  match JsObject.get repo_name (pull_requests_by_repo stats) with
  | Some c => field c
  | None => 0
  end.

Definition format_user (entry : string * AuthorAccumulator) : UserStat.t :=
  let (user_name, stats) := entry in
  let repo_set :=
    set_of_keys [] (JsObject.keys (commits_by_repo stats)
                      ++ JsObject.keys (pull_requests_by_repo stats)) in
  {| UserStat.name := user_name;
     UserStat.user_id := user_id stats;
     UserStat.total_commits := total_commits stats;
     UserStat.total_prs_opened := total_prs_opened stats;
     UserStat.total_prs_closed := total_prs_closed stats;
     UserStat.repo_contributions :=
       map (fun repo_name =>
              {| RepoContribution.repo_name := repo_name;
                 RepoContribution.commits := commits_or_zero stats repo_name;
                 RepoContribution.prs_opened :=
                   pr_field_or_zero opened stats repo_name;
                 RepoContribution.prs_closed :=
                   pr_field_or_zero closed stats repo_name |})
           repo_set |}.

Definition formatInstallationStats (installation : Installation.t)
  (days_to_look_back : Z) (stats : JsObject.t AuthorAccumulator)
  : InstallationStats.t :=
  {| InstallationStats.id := Installation.id installation;
     InstallationStats.account := Installation.account_login installation;
     InstallationStats.account_type := Installation.account_type installation;
     InstallationStats.period_days := days_to_look_back;
     InstallationStats.user_stats := map format_user (JsObject.entries stats) |}.

(** ** Report renderer *)

(** The line feed of ['\n']. *)
Definition nl : string := String (ascii_of_nat 10) EmptyString.

(** The pictograms that open a line, with the bytes the source file has. *)
Definition warning_mark : string := "âš ï¸".
Definition chart_mark : string := "ðŸ“Š".
Definition person_mark : string := "ðŸ‘¤".

Definition user_total (u : UserStat.t) : Z :=
  UserStat.total_commits u + UserStat.total_prs_opened u
  + UserStat.total_prs_closed u.

Definition repo_total (r : RepoContribution.t) : Z :=
  RepoContribution.commits r + RepoContribution.prs_opened r
  + RepoContribution.prs_closed r.

(** The comparators given to [sort]: [total_b - total_a]. *)
Definition user_cmp (a b : UserStat.t) : Z := user_total b - user_total a.
Definition repo_cmp (a b : RepoContribution.t) : Z := repo_total b - repo_total a.

Definition period_label (period_days : Z) : string :=
  if period_days =? 7 then "week"
  else if period_days =? 30 then "month"
  else Js.num_to_string period_days +++ " days".

Definition repo_line (repo : RepoContribution.t) : string :=
  "    - " +++ RepoContribution.repo_name repo +++ ": "
  +++ Js.num_to_string (RepoContribution.commits repo) +++ " commits, "
  +++ Js.num_to_string (RepoContribution.prs_opened repo) +++ " PRs opened, "
  +++ Js.num_to_string (RepoContribution.prs_closed repo) +++ " PRs closed".

(** The body of [for (const user of installation.user_stats)]: the lines
    it pushes, and the user object with its [repo_contributions] array as
    the in-place [sort] leaves it. *)
Definition report_user (user : UserStat.t) : list string * UserStat.t :=
  let user_id_info :=
    match UserStat.user_id user with
    | Some i => if Js.truthy_id i
                then " (ID: " +++ Js.id_to_string i +++ ")" else ""
    | None => ""
    end in
  let sorted := Js.sort repo_cmp (UserStat.repo_contributions user) in
  ([nl +++ person_mark +++ " " +++ UserStat.name user +++ user_id_info +++ ":";
    "  Total: " +++ Js.num_to_string (UserStat.total_commits user)
    +++ " commits, " +++ Js.num_to_string (UserStat.total_prs_opened user)
    +++ " PRs opened, " +++ Js.num_to_string (UserStat.total_prs_closed user)
    +++ " PRs closed";
    "  Contributions by repository:"]
   ++ map repo_line sorted,
   {| UserStat.name := UserStat.name user;
      UserStat.user_id := UserStat.user_id user;
      UserStat.total_commits := UserStat.total_commits user;
      UserStat.total_prs_opened := UserStat.total_prs_opened user;
      UserStat.total_prs_closed := UserStat.total_prs_closed user;
      UserStat.repo_contributions := sorted |}).

(** The body of [for (const installation of results)]: the lines it
    pushes, and the result object as the in-place sorts leave it. *)
Definition report_installation (installation : InstallationResult)
  : list string * InstallationResult :=
  match installation with
  | Failure e =>
      ([warning_mark +++ " Installation " +++ InstallationError.account e
        +++ ": " +++ InstallationError.error e],
       installation)
  | Stats s =>
      let header :=
        chart_mark +++ " Statistics for " +++ InstallationStats.account s
        +++ " (" +++ InstallationStats.account_type s +++ ") - Last "
        +++ period_label (InstallationStats.period_days s) +++ ":" in
      if 0 <? Z.of_nat (length (InstallationStats.user_stats s))
      then
        let sorted := Js.sort user_cmp (InstallationStats.user_stats s) in
        let rendered := map report_user sorted in
        ([header] ++ concat (map fst rendered) ++ [""],
         Stats {| InstallationStats.id := InstallationStats.id s;
                  InstallationStats.account := InstallationStats.account s;
                  InstallationStats.account_type :=
                    InstallationStats.account_type s;
                  InstallationStats.period_days :=
                    InstallationStats.period_days s;
                  InstallationStats.user_stats := map snd rendered |})
      else
        ([header; "  No contributions found in the period."; ""],
         installation)
  end.

(** The loop of [generateReport] over [results], from the lines and the
    result objects already visited. *)
Fixpoint report_loop (results : list InstallationResult)
  (report_lines : list string) (visited : list InstallationResult)
  : list string * list InstallationResult :=
  match results with
  | [] => (report_lines, visited)
  | installation :: results' =>
      let (lines, installation') := report_installation installation in
      report_loop results' (report_lines ++ lines) (visited ++ [installation'])
  end.

(** [generateReport]: the text it returns and the [results] array as it
    leaves it. *)
Definition generateReport (results : list InstallationResult)
  : string * list InstallationResult :=
  let (report_lines, results') := report_loop results [] [] in
  (Js.join nl report_lines, results').

(** ** Orchestrator *)

(** What [app.getInstallationOctokit] gives for an installation: the
    client of the collectors, and the answer of that client to the
    repository listing.  The requests of the orchestrator (the listing of
    the installations, the access to an installation, its repository
    listing) and the clock are answered from the history, and leave no
    entry in it: [Event] has the exchanges of the collectors. *)
Record InstallationAccess := {
  access_octokit : Octokit;
  repositories_of : list Event -> Response (list Repository.t)
}.

(** The [App] that [initializeGitHubApp] builds from the credentials. *)
Record App := {
  installations_of : list Event -> Response (list Installation.t);
  access_of : list Event -> Z -> Response InstallationAccess;
  clock : list Event -> Z
}.

(** A request of the orchestrator: answered from the history, thrown
    when rejected. *)
Definition ask {A : Type} (answer : list Event -> Response A) : M A :=
  fun h =>
    match answer (events h) with
    | Resolved a => (Returned a, h)
    | Rejected e => (Thrown e, h)
    end.

Definition getInstallations (app : App) : M (list Installation.t) :=
  ask (installations_of app).

Definition getInstallationOctokit (app : App) (id : Z) : M InstallationAccess :=
  ask (fun tr => access_of app tr id).

Definition getRepositories (access : InstallationAccess)
  : M (list Repository.t) :=
  ask (repositories_of access).

(** [new Date()] *)
Definition current_date (app : App) : M Z :=
  fun h => (Returned (clock app (events h)), h).

(** [cutoff_date.setDate(cutoff_date.getDate() - days_to_look_back)] on
    the current instant [now], for a whole number of days and a process
    that runs in UTC: a day is 86400000 ms. *)
Definition calculateCutoffDate (now days_to_look_back : Z) : Z :=
  now - days_to_look_back * 86400000.

(** The body of the loop of [processInstallations]: the result it pushes
    for an installation. *)
Definition process_installation (fuel : nat) (app : App)
  (days_to_look_back : Z) (installation : Installation.t)
  : M InstallationResult :=
  try_catch
    (let* access := getInstallationOctokit app (Installation.id installation) in
     let* repos := getRepositories access in
     let* now := current_date app in
     let cutoff_date := calculateCutoffDate now days_to_look_back in
     let updated_repos := filterUpdatedRepositories repos cutoff_date in
     let* stats := collectUserStats fuel (access_octokit access) updated_repos
                                    cutoff_date in
     ret (Stats (formatInstallationStats installation days_to_look_back stats)))
    (fun error =>
       ret (Failure
              {| InstallationError.id := Installation.id installation;
                 InstallationError.account :=
                   Installation.account_login installation;
                 InstallationError.error := message error |})).

(** The loop of [processInstallations], from the results pushed so far. *)
Fixpoint installations_loop (fuel : nat) (app : App) (days_to_look_back : Z)
  (installations : list Installation.t) (results : list InstallationResult)
  : M (list InstallationResult) :=
  match installations with
  | [] => ret results
  | installation :: installations' =>
      let* result := process_installation fuel app days_to_look_back
                                          installation in
      installations_loop fuel app days_to_look_back installations'
                         (results ++ [result])
  end.

Definition processInstallations (fuel : nat) (app : App)
  (installations : list Installation.t) (days_to_look_back : Z)
  : M (list InstallationResult) :=
  installations_loop fuel app days_to_look_back installations [].

Record GitHubActivityConfig := {
  app_id : Z;
  private_key : string;
  days_to_look_back : option Z
}.

Record GitHubActivityResult := {
  summary : string;
  detailed_results : list InstallationResult
}.

(** [generateGitHubReport]; [app] is the client built from [app_id] and
    [private_key]. *)
Definition generateGitHubReport (fuel : nat) (app : App)
  (config : GitHubActivityConfig) : M GitHubActivityResult :=
  let days := match days_to_look_back config with
              | Some days => days
              | None => 7
              end in
  try_catch
    (let* installations := getInstallations app in
     let* results := processInstallations fuel app installations days in
     let (report, results') := generateReport results in
     ret {| summary := report; detailed_results := results' |})
    (fun error => throw error).

(** ** Logger ([src/logger.ts]) *)

Module Logger.

Inductive LogLevel : Type :=
| LevelDebug
| LevelInfo
| LevelWarn
| LevelError.

Record LoggerConfig := {
  level : LogLevel;
  scope : list string;
  disabled : bool;
  interactive : bool;
  timers : bool
}.

(** [Partial<LoggerConfig>]: the members that are given. *)
Record PartialConfig := {
  given_level : option LogLevel;
  given_scope : option (list string);
  given_disabled : option bool;
  given_interactive : option bool;
  given_timers : option bool
}.

(** [logLevels] *)
Definition logLevels (l : LogLevel) : Z :=
  match l with
  | LevelDebug => 0
  | LevelInfo => 1
  | LevelWarn => 2
  | LevelError => 3
  end.

(** The methods of the [Signale] instance the logger forwards to. *)
Inductive Method : Type :=
| MDebug | MInfo | MWarn | MError | MSuccess | MPending | MComplete
| MStart | MPause | MNote | MTime | MTimeEnd | MGroup | MGroupEnd.

(** A call on the [Signale] instance: the method and its arguments, an
    argument that is [undefined] being [None]. *)
Record Call := {
  method : Method;
  arguments : list (option string)
}.

(** A logger: its configuration, the options its [Signale] instance was
    built with, and the calls made on that instance, oldest first. *)
Record t := {
  config : LoggerConfig;
  signale_scope : string;
  signale_disabled : bool;
  signale_interactive : bool;
  calls : list Call
}.

(** The initial value of the [config] member. *)
Definition default_config : LoggerConfig :=
  {| level := LevelInfo;
     scope := [];
     disabled := false;
     interactive := false;
     timers := true |}.

(** [{ ...base, ...given }] *)
Definition spread (base : LoggerConfig) (given : PartialConfig) : LoggerConfig :=
  {| level := match given_level given with Some x => x | None => level base end;
     scope := match given_scope given with Some x => x | None => scope base end;
     disabled := match given_disabled given with
                 | Some x => x | None => disabled base end;
     interactive := match given_interactive given with
                    | Some x => x | None => interactive base end;
     timers := match given_timers given with
               | Some x => x | None => timers base end |}.

(** [new Logger(config)]; without an argument, [given] has no member. *)
Definition new (given : PartialConfig) : t :=
  let config := spread default_config given in
  {| config := config;
     signale_scope := Js.join ", " (scope config);
     signale_disabled := disabled config;
     signale_interactive := interactive config;
     calls := [] |}.

(** [this.logger.<method>(...arguments)] *)
Definition forward (m : Method) (args : list (option string)) (logger : t) : t :=
  {| config := config logger;
     signale_scope := signale_scope logger;
     signale_disabled := signale_disabled logger;
     signale_interactive := signale_interactive logger;
     calls := calls logger ++ [{| method := m; arguments := args |}] |}.

(** The guard of the four methods that have a level. *)
Definition passes (l : LogLevel) (logger : t) : bool :=
  logLevels (level (config logger)) <=? logLevels l.

Definition debug (message : string) (args : list string) (logger : t) : t :=
  if passes LevelDebug logger
  then forward MDebug (map Some (message :: args)) logger else logger.

Definition info (message : string) (args : list string) (logger : t) : t :=
  if passes LevelInfo logger
  then forward MInfo (map Some (message :: args)) logger else logger.

Definition warn (message : string) (args : list string) (logger : t) : t :=
  if passes LevelWarn logger
  then forward MWarn (map Some (message :: args)) logger else logger.

Definition error (message : string) (args : list string) (logger : t) : t :=
  if passes LevelError logger
  then forward MError (map Some (message :: args)) logger else logger.

Definition success (message : string) (args : list string) (logger : t) : t :=
  forward MSuccess (map Some (message :: args)) logger.

Definition pending (message : string) (args : list string) (logger : t) : t :=
  forward MPending (map Some (message :: args)) logger.

Definition complete (message : string) (args : list string) (logger : t) : t :=
  forward MComplete (map Some (message :: args)) logger.

Definition start (message : string) (args : list string) (logger : t) : t :=
  forward MStart (map Some (message :: args)) logger.

Definition pause (message : string) (args : list string) (logger : t) : t :=
  forward MPause (map Some (message :: args)) logger.

Definition note (message : string) (args : list string) (logger : t) : t :=
  forward MNote (map Some (message :: args)) logger.

(** [this.logger.time(console.time(label))]: [console.time] returns
    [undefined]. *)
Definition time (label : string) (logger : t) : t :=
  if timers (config logger) then forward MTime [None] logger else logger.

Definition timeEnd (label : string) (logger : t) : t :=
  if timers (config logger) then forward MTimeEnd [Some label] logger else logger.

Definition group (label : string) (logger : t) : t :=
  forward MGroup [Some label] logger.

Definition groupEnd (logger : t) : t := forward MGroupEnd [] logger.

End Logger.

(** * Vocabulary of the properties *)

(** The comparator of both sorts of the report: [key b - key a]. *)
Definition by_key_desc {A : Type} (key : A -> Z) (a b : A) : Z := key b - key a.

(** [a] may stand before [b] in a descending order of [key]. *)
Definition not_below {A : Type} (key : A -> Z) (a b : A) : Prop := key b <= key a.

(** The sum of a list of numbers. *)
Definition sum_Z (l : list Z) : Z := fold_right Z.add 0 l.

(** The latest activity as the specification words it: the later of the
    push and the update, a missing one counting as the epoch. *)
Definition spec_latest_activity (repo : Repository.t) : Z :=
  Z.max (default 0 (Repository.pushed_at repo))
        (default 0 (Repository.updated_at repo)).

(** The accumulator of an author, a fresh one when the author was not
    seen yet. *)
Definition accumulator_of (stats : JsObject.t AuthorAccumulator) (author : string)
  : AuthorAccumulator :=
  match JsObject.get author stats with
  | Some acc => acc
  | None => new_accumulator None
  end.

(** The counters of an author, as the specification speaks of them. *)
Definition repo_commits stats (author repo : string) : Z :=
  commits_or_zero (accumulator_of stats author) repo.
Definition repo_prs_opened stats (author repo : string) : Z :=
  pr_field_or_zero opened (accumulator_of stats author) repo.
Definition repo_prs_closed stats (author repo : string) : Z :=
  pr_field_or_zero closed (accumulator_of stats author) repo.
Definition author_commits stats (author : string) : Z :=
  total_commits (accumulator_of stats author).
Definition author_prs_opened stats (author : string) : Z :=
  total_prs_opened (accumulator_of stats author).
Definition author_prs_closed stats (author : string) : Z :=
  total_prs_closed (accumulator_of stats author).

(** Two accumulators with the same counters (the user id may differ). *)
Definition same_counters (a b : AuthorAccumulator) : Prop :=
  commits_by_repo a = commits_by_repo b
  /\ pull_requests_by_repo a = pull_requests_by_repo b
  /\ total_commits a = total_commits b
  /\ total_prs_opened a = total_prs_opened b
  /\ total_prs_closed a = total_prs_closed b.

(** The sum invariant of one accumulator, and of a whole dictionary. *)
Definition sums_agree (acc : AuthorAccumulator) : Prop :=
  total_commits acc = sum_Z (map id (JsObject.values (commits_by_repo acc)))
  /\ total_prs_opened acc
     = sum_Z (map opened (JsObject.values (pull_requests_by_repo acc)))
  /\ total_prs_closed acc
     = sum_Z (map closed (JsObject.values (pull_requests_by_repo acc))).

Definition sum_invariant (stats : JsObject.t AuthorAccumulator) : Prop :=
  Forall (fun entry => sums_agree (snd entry)) stats.

(** The commit step on one accumulator. *)
Definition commit_update (repo_name : string) (acc : AuthorAccumulator)
  : AuthorAccumulator :=
  count_commit repo_name (init_commit_count repo_name acc).

(** What a pull request adds to the opened and to the closed counters,
    as the specification words it. *)
Definition opened_increment (pr : PullRequest.t) (cutoff_date : Z) : Z :=
  if decide (cutoff_date <= PullRequest.created_at pr) then 1 else 0.

Definition closed_increment (pr : PullRequest.t) (cutoff_date : Z) : Z :=
  match PullRequest.closed_at pr with
  | Some closed_at => if decide (cutoff_date <= closed_at) then 1 else 0
  | None => 0
  end.

(** The pull-request step on one accumulator. *)
Definition pr_update (pr : PullRequest.t) (repo_name : string) (cutoff_date : Z)
  (acc : AuthorAccumulator) : AuthorAccumulator :=
  let acc := init_pr_counts repo_name acc in
  let acc := if cutoff_date <=? PullRequest.created_at pr
             then count_opened repo_name acc else acc in
  match PullRequest.closed_at pr with
  | Some closed_at =>
      if cutoff_date <=? closed_at then count_closed repo_name acc else acc
  | None => acc
  end.

(** The state of the entry of [repo_name] in an accumulator: its two
    counters, the entries of the other repositories, the totals, and the
    commit side. *)
Record pr_state (repo_name : string) (o c : Z) (base acc : AuthorAccumulator)
  : Prop := {
  st_entry : JsObject.get repo_name (pull_requests_by_repo acc)
             = Some {| opened := pr_field_or_zero opened base repo_name + o;
                       closed := pr_field_or_zero closed base repo_name + c |};
  st_other : forall repo, repo <> repo_name ->
             JsObject.get repo (pull_requests_by_repo acc)
             = JsObject.get repo (pull_requests_by_repo base);
  st_opened : total_prs_opened acc = total_prs_opened base + o;
  st_closed : total_prs_closed acc = total_prs_closed base + c;
  st_commits : commits_by_repo acc = commits_by_repo base;
  st_total_commits : total_commits acc = total_commits base;
  st_sums : sums_agree base -> sums_agree acc
}.

(** The increment rule of the specification, between the accumulators
    before ([stats]) and after ([stats']) a pull request of [repo_name] is
    processed: the opened counter of its author for the repository and the
    author's opened total grow by 1 when the creation time is at or after
    the cutoff and stay otherwise, the closed ones grow by 1 when there is
    a closed time at or after the cutoff and stay otherwise, and the
    counters of every other author or repository stay. *)
Definition counted_by_rule (pr : PullRequest.t) (repo_name : string)
  (cutoff_date : Z) (stats stats' : JsObject.t AuthorAccumulator) : Prop :=
  let author := pr_author_login pr in
  let opens := if decide (cutoff_date <= PullRequest.created_at pr) then 1 else 0 in
  let closes := match PullRequest.closed_at pr with
                | Some closed_at => if decide (cutoff_date <= closed_at) then 1 else 0
                | None => 0
                end in
  repo_prs_opened stats' author repo_name
  = repo_prs_opened stats author repo_name + opens
  /\ author_prs_opened stats' author = author_prs_opened stats author + opens
  /\ repo_prs_closed stats' author repo_name
     = repo_prs_closed stats author repo_name + closes
  /\ author_prs_closed stats' author = author_prs_closed stats author + closes
  /\ (forall author' repo',
        author' <> author \/ repo' <> repo_name ->
        repo_prs_opened stats' author' repo' = repo_prs_opened stats author' repo'
        /\ repo_prs_closed stats' author' repo'
           = repo_prs_closed stats author' repo').

(** A computation keeps the sum invariant of [user_stats], however it
    ends. *)
Definition keeps_invariant {A : Type} (m : M A) : Prop :=
  forall h, sum_invariant (user_stats h) ->
            sum_invariant (user_stats (snd (m h))).

(** The commits of a list that carry their id for the first time: every
    later commit with the id of an earlier one is dropped. *)
Fixpoint first_by_oid (commits : list Commit.t) : list Commit.t :=
  match commits with
  | [] => []
  | c :: commits' =>
      c :: List.filter
             (fun c' => negb (String.eqb (Commit.oid c') (Commit.oid c)))
             (first_by_oid commits')
  end.

(** The commits that are counted when [commits] is walked with the set
    [seen] of ids already met. *)
Fixpoint unseen (seen : gset string) (commits : list Commit.t) : list Commit.t :=
  match commits with
  | [] => []
  | c :: commits' =>
      if bool_decide (Commit.oid c ∈ seen) then unseen seen commits'
      else c :: unseen (seen ∪ {[Commit.oid c]}) commits'
  end.

(** The commits the history requests of a stretch of events returned, in
    the order they came. *)
Definition history_commits (evs : list Event) : list Commit.t :=
  flat_map (fun ev => match ev with
                      | EvHistory _ _ _ _ (Resolved commits) => commits
                      | _ => []
                      end) evs.

(** How many commits of a list are attributed to [author]. *)
Definition authored_by (author : string) (commits : list Commit.t) : Z :=
  Z.of_nat (length (List.filter
                      (fun c => String.eqb (commit_author_login c) author)
                      commits)).

(** The ids of a list of commits, as a set. *)
Definition oid_set (commits : list Commit.t) : gset string :=
  list_to_set (map Commit.oid commits).

(** The pull requests of the pages a stretch of events fetched that were
    updated at or after the cutoff, in the order they came. *)
Definition listed_matches (cutoff_date : Z) (evs : list Event)
  : list PullRequest.t :=
  flat_map (fun ev =>
              match ev with
              | EvPulls _ _ _ (Resolved pull_requests) =>
                  List.filter
                    (fun pr => cutoff_date <=? PullRequest.updated_at pr)
                    pull_requests
              | _ => []
              end) evs.

(** Whether an event is a request to the pulls endpoint. *)
Definition is_pulls_request (ev : Event) : bool :=
  match ev with
  | EvPulls _ _ _ _ => true
  | _ => false
  end.

(** The interaction with the pulls endpoint, as a reader of the log sees
    it: a page fetched with a number of items, a page request that
    failed, a wait. *)
Inductive PageStep : Type :=
| Fetched (page : Z) (n_items : nat)
| Failed (page : Z)
| Waited (ms : Z).

Definition page_steps (evs : list Event) : list PageStep :=
  flat_map (fun ev =>
              match ev with
              | EvPulls _ _ page (Resolved pull_requests) =>
                  [Fetched page (length pull_requests)]
              | EvPulls _ _ page (Rejected _) => [Failed page]
              | EvSleep ms => [Waited ms]
              | _ => []
              end) evs.

(** The events an iteration of the pagination loop adds before its
    request: the wait between pages. *)
Definition page_delay (v : PageLoop) : list Event :=
  if 1 <? page v then [EvSleep 1000] else [].

(** Whether a search result is confirmed to belong to the repository: it
    has a pull request URL, the pattern matches it, and the owner and the
    name it carries are the repository's. *)
Definition confirmed_for (repo : Repository.t) (pr : PullRequest.t) : bool :=
  match PullRequest.pull_request_url pr with
  | Some url =>
      match PrRepoRegex.exec url with
      | Some (owner, name) =>
          String.eqb owner (Repository.owner_login repo)
          && String.eqb name (Repository.name repo)
      | None => false
      end
  | None => false
  end.

(** The accumulators after the primary path went through the search
    results [search_prs]. *)
Definition after_search (search_prs : list PullRequest.t) (repo : Repository.t)
  (cutoff_date : Z) (stats : JsObject.t AuthorAccumulator)
  : JsObject.t AuthorAccumulator :=
  fold_left (fun stats pr =>
               if confirmed_for repo pr
               then processPullRequest pr (Repository.name repo) cutoff_date stats
               else stats)
            search_prs stats.

(** The accumulators after each of the listed pull requests was counted
    once, in order. *)
Definition after_listed (pull_requests : list PullRequest.t)
  (repo : Repository.t) (cutoff_date : Z) (stats : JsObject.t AuthorAccumulator)
  : JsObject.t AuthorAccumulator :=
  fold_left (fun stats pr => processListedPullRequest pr repo cutoff_date stats)
            pull_requests stats.

(** The fallback condition of the specification: the search threw or
    reported a total count of zero. *)
Definition search_failed_or_empty (answer : Response SearchData) : Prop :=
  match answer with
  | Rejected _ => True
  | Resolved data => total_count data = 0
  end.

(** A user object with its [repo_contributions] array sorted. *)
Definition with_sorted_contributions (user : UserStat.t) : UserStat.t :=
  {| UserStat.name := UserStat.name user;
     UserStat.user_id := UserStat.user_id user;
     UserStat.total_commits := UserStat.total_commits user;
     UserStat.total_prs_opened := UserStat.total_prs_opened user;
     UserStat.total_prs_closed := UserStat.total_prs_closed user;
     UserStat.repo_contributions :=
       Js.sort repo_cmp (UserStat.repo_contributions user) |}.

(** A result object with its [user_stats] array sorted, and the
    [repo_contributions] array of each user sorted. *)
Definition sorted_in_place (installation : InstallationResult)
  : InstallationResult :=
  match installation with
  | Failure e => Failure e
  | Stats s =>
      Stats {| InstallationStats.id := InstallationStats.id s;
               InstallationStats.account := InstallationStats.account s;
               InstallationStats.account_type := InstallationStats.account_type s;
               InstallationStats.period_days := InstallationStats.period_days s;
               InstallationStats.user_stats :=
                 map with_sorted_contributions
                     (Js.sort user_cmp (InstallationStats.user_stats s)) |}
  end.

(** Two user objects that differ at most in the order of their
    [repo_contributions]. *)
Definition same_user (u u' : UserStat.t) : Prop :=
  UserStat.name u = UserStat.name u'
  /\ UserStat.user_id u = UserStat.user_id u'
  /\ UserStat.total_commits u = UserStat.total_commits u'
  /\ UserStat.total_prs_opened u = UserStat.total_prs_opened u'
  /\ UserStat.total_prs_closed u = UserStat.total_prs_closed u'
  /\ Permutation (UserStat.repo_contributions u) (UserStat.repo_contributions u').

(** Two result objects that differ at most in the order of their
    [user_stats] and of the [repo_contributions] of their users. *)
Definition same_installation (r r' : InstallationResult) : Prop :=
  match r, r' with
  | Failure e, Failure e' => e = e'
  | Stats s, Stats s' =>
      InstallationStats.id s = InstallationStats.id s'
      /\ InstallationStats.account s = InstallationStats.account s'
      /\ InstallationStats.account_type s = InstallationStats.account_type s'
      /\ InstallationStats.period_days s = InstallationStats.period_days s'
      /\ exists users,
           Permutation (InstallationStats.user_stats s) users
           /\ Forall2 same_user users (InstallationStats.user_stats s')
  | _, _ => False
  end.

(** A list is the stable descending sort of another by [key]: the same
    elements, in descending order of [key], those of equal [key] in the
    order they had. *)
Definition stable_descending {A : Type} (key : A -> Z) (input output : list A)
  : Prop :=
  Permutation input output
  /\ StronglySorted (not_below key) output
  /\ forall k, List.filter (fun a => key a =? k) output
               = List.filter (fun a => key a =? k) input.

(** The header line of a success result. *)
Definition header_line (s : InstallationStats.t) : string :=
  chart_mark +++ " Statistics for " +++ InstallationStats.account s
  +++ " (" +++ InstallationStats.account_type s +++ ") - Last "
  +++ period_label (InstallationStats.period_days s) +++ ":".

(** The order of the report of a success result with authors: after the
    header come the blocks of the authors in stable descending order of
    their totals, then an empty line; the block of an author is three
    lines followed by the lines of the author's repositories in stable
    descending order of their totals. *)
Definition ordered_report (s : InstallationStats.t) : Prop :=
  exists users,
    fst (report_installation (Stats s))
    = [header_line s] ++ flat_map (fun u => fst (report_user u)) users ++ [""]
    /\ stable_descending user_total (InstallationStats.user_stats s) users
    /\ forall user,
         exists heading repos,
           fst (report_user user) = heading ++ map repo_line repos
           /\ length heading = 3%nat
           /\ stable_descending repo_total (UserStat.repo_contributions user)
                                repos.

(** * Vocabulary of the further properties *)

(** A computation keeps a property [P] of [user_stats], however it
    ends. *)
Definition keeps {A : Type} (P : JsObject.t AuthorAccumulator -> Prop)
  (m : M A) : Prop :=
  forall h, P (user_stats h) -> P (user_stats (snd (m h))).

(** A computation never throws. *)
Definition never_throws {A : Type} (m : M A) : Prop :=
  forall h e, fst (m h) <> Thrown e.

(** A computation leaves the interaction history as it is. *)
Definition silent {A : Type} (m : M A) : Prop :=
  forall h, events (snd (m h)) = events h.

(** No key occurs twice in a dictionary. *)
Definition keys_unique {V : Type} (o : JsObject.t V) : Prop :=
  List.NoDup (map fst o).

(** No author occurs twice, and no repository occurs twice in a
    dictionary of an author. *)
Definition well_keyed (stats : JsObject.t AuthorAccumulator) : Prop :=
  keys_unique stats
  /\ Forall (fun entry =>
               keys_unique (commits_by_repo (snd entry))
               /\ keys_unique (pull_requests_by_repo (snd entry)))
            stats.

(** An accumulator [acc'] is a later state of [acc]: a user id that was
    set is still there, and no counter is lower. *)
Definition acc_grows (acc acc' : AuthorAccumulator) : Prop :=
  (Js.truthy_opt (user_id acc) = true -> user_id acc' = user_id acc)
  /\ total_commits acc <= total_commits acc'
  /\ total_prs_opened acc <= total_prs_opened acc'
  /\ total_prs_closed acc <= total_prs_closed acc'
  /\ (forall repo, commits_or_zero acc repo <= commits_or_zero acc' repo)
  /\ (forall repo, pr_field_or_zero opened acc repo
                   <= pr_field_or_zero opened acc' repo)
  /\ (forall repo, pr_field_or_zero closed acc repo
                   <= pr_field_or_zero closed acc' repo).

(** A dictionary [stats'] is a later state of [stats]: every author of
    [stats] is in [stats'], with a later state of the accumulator. *)
Definition grows (stats stats' : JsObject.t AuthorAccumulator) : Prop :=
  forall author acc,
    JsObject.get author stats = Some acc ->
    exists acc', JsObject.get author stats' = Some acc' /\ acc_grows acc acc'.

(** The user id an accumulator has after an item that carries the id
    [uid] was attributed to its author: the one it had when that was set,
    else the one of the item when there is one. *)
Definition first_id_wins (old uid : option Js.Id) : option Js.Id :=
  if Js.truthy_opt old then old
  else if Js.truthy_opt uid then uid else old.

(** The totals of a user of the result are the sums of the rows. *)
Definition rows_add_up (user : UserStat.t) : Prop :=
  UserStat.total_commits user
  = sum_Z (map RepoContribution.commits (UserStat.repo_contributions user))
  /\ UserStat.total_prs_opened user
     = sum_Z (map RepoContribution.prs_opened (UserStat.repo_contributions user))
  /\ UserStat.total_prs_closed user
     = sum_Z (map RepoContribution.prs_closed (UserStat.repo_contributions user)).

(** The value of a key in a dictionary of numbers, zero when the key is
    missing. *)
Definition lookup_or_zero {V : Type} (f : V -> Z) (o : JsObject.t V)
  (k : string) : Z :=
  match JsObject.get k o with
  | Some v => f v
  | None => 0
  end.

(** The row of a repository in the result of an author. *)
Definition row_of (acc : AuthorAccumulator) (repo_name : string)
  : RepoContribution.t :=
  {| RepoContribution.repo_name := repo_name;
     RepoContribution.commits := commits_or_zero acc repo_name;
     RepoContribution.prs_opened := pr_field_or_zero opened acc repo_name;
     RepoContribution.prs_closed := pr_field_or_zero closed acc repo_name |}.

(** The commit side of the counters is the same in two dictionaries. *)
Definition same_commit_counters (stats stats' : JsObject.t AuthorAccumulator)
  : Prop :=
  forall author repo,
    repo_commits stats' author repo = repo_commits stats author repo
    /\ author_commits stats' author = author_commits stats author.

(** The pull request side of the counters is the same in two
    dictionaries. *)
Definition same_pr_counters (stats stats' : JsObject.t AuthorAccumulator)
  : Prop :=
  forall author repo,
    repo_prs_opened stats' author repo = repo_prs_opened stats author repo
    /\ repo_prs_closed stats' author repo = repo_prs_closed stats author repo
    /\ author_prs_opened stats' author = author_prs_opened stats author
    /\ author_prs_closed stats' author = author_prs_closed stats author.

(** How many pull requests of a list are by [author] and were created at
    or after the cutoff, and how many are by [author] and were closed at
    or after it. *)
Definition opened_in_window (author : string) (cutoff_date : Z)
  (pull_requests : list PullRequest.t) : Z :=
  Z.of_nat (length (List.filter
                      (fun pr => String.eqb (pr_author_login pr) author
                                 && (cutoff_date <=? PullRequest.created_at pr))
                      pull_requests)).

Definition closed_in_window (author : string) (cutoff_date : Z)
  (pull_requests : list PullRequest.t) : Z :=
  Z.of_nat (length (List.filter
                      (fun pr => String.eqb (pr_author_login pr) author
                                 && match PullRequest.closed_at pr with
                                    | Some closed_at => cutoff_date <=? closed_at
                                    | None => false
                                    end)
                      pull_requests)).

(** The opened and closed counters of [author] for the repository
    [repo_name], and the author's opened and closed totals, grew from
    [stats] to [stats'] by the numbers of [pull_requests] by the author
    that were created, and that were closed, at or after the cutoff. *)
Definition grew_by_window (author repo_name : string) (cutoff_date : Z)
  (pull_requests : list PullRequest.t)
  (stats stats' : JsObject.t AuthorAccumulator) : Prop :=
  repo_prs_opened stats' author repo_name
  = repo_prs_opened stats author repo_name
    + opened_in_window author cutoff_date pull_requests
  /\ author_prs_opened stats' author
     = author_prs_opened stats author
       + opened_in_window author cutoff_date pull_requests
  /\ repo_prs_closed stats' author repo_name
     = repo_prs_closed stats author repo_name
       + closed_in_window author cutoff_date pull_requests
  /\ author_prs_closed stats' author
     = author_prs_closed stats author
       + closed_in_window author cutoff_date pull_requests.

(** The page numbers a stretch of events asked the pulls endpoint for, in
    order. *)
Definition requested_pages (evs : list Event) : list Z :=
  flat_map (fun ev => match ev with
                      | EvPulls _ _ page _ => [page]
                      | _ => []
                      end) evs.

(** Every request for a page of the pull requests of [repo] is rejected
    with a rate-limit error. *)
Definition always_rate_limited (octokit : Octokit) (repo : Repository.t)
  : Prop :=
  forall tr page,
    exists error,
      pulls_of octokit tr (Repository.owner_login repo) (Repository.name repo)
               page = Rejected error
      /\ is_rate_limit error = true.

(** After [fuel] iterations the paginated fallback has not returned; it
    has counted nothing, and it has asked for the pages 1, 0, -1, ... in
    turn. *)
Definition retries_forever (fuel : nat) (octokit : Octokit)
  (repo : Repository.t) (cutoff_date : Z) (h : Heap) : Prop :=
  let out := fetchPRsWithPagination fuel octokit repo cutoff_date h in
  fst out = Pending
  /\ user_stats (snd out) = user_stats h
  /\ exists new,
       events (snd out) = events h ++ new
       /\ requested_pages new = map (fun i => 1 - Z.of_nat i) (seq 0 fuel).

(** The iteration of the pagination loop that starts in the state [v] is
    the last one, in two cases: when its request is rejected with an
    error that is not a rate-limit error, the loop returns the count it
    had and leaves the accumulators as they were; when its request
    returns a page of fewer or more than 100 items, the loop returns the
    count with the matches of that page added. *)
Definition stops_now (fuel : nat) (octokit : Octokit) (repo : Repository.t)
  (cutoff_date : Z) (v : PageLoop) (h : Heap) : Prop :=
  let owner := Repository.owner_login repo in
  let name := Repository.name repo in
  let before := events h ++ page_delay v in
  let answer := pulls_of octokit before owner name (page v) in
  let asked := before ++ [EvPulls owner name (page v) answer] in
  let out := pagination_loop (S fuel) octokit repo cutoff_date v h in
  (forall error,
     answer = Rejected error -> is_rate_limit error = false ->
     out = (Returned (total_prs v),
            {| events := asked;
               user_stats := user_stats h;
               processed_commits := processed_commits h |}))
  /\ (forall pull_requests,
        answer = Resolved pull_requests ->
        length pull_requests <> 100%nat ->
        fst out
        = Returned (total_prs v
                    + Z.of_nat (length (listed_matches
                                          cutoff_date
                                          [EvPulls owner name (page v) answer])))
        /\ events (snd out) = asked).

(** The collection for one repository: the body of the loop of
    [collectUserStats]. *)
Definition collect_repository (fuel : nat) (octokit : Octokit)
  (cutoff_date : Z) (repo : Repository.t) : M unit :=
  try_catch
    (do new_processed_commits then
     do processRepositoryBranches octokit repo cutoff_date then
     processRepositoryPullRequests fuel octokit repo cutoff_date)
    (fun repo_error => ret tt).

(** The heap at the start of the collection for a repository: the seen
    set is new. *)
Definition with_new_seen_set (h : Heap) : Heap :=
  {| events := events h;
     user_stats := user_stats h;
     processed_commits := ∅ |}.

(** An event of the commit collector: a branch listing or a commit
    history. *)
Definition is_commit_request (ev : Event) : bool :=
  match ev with
  | EvBranches _ _ _ | EvHistory _ _ _ _ _ => true
  | _ => false
  end.

(** Whether a string has a [/]. *)
Fixpoint has_slash (s : string) : bool :=
  match s with
  | EmptyString => false
  | String c s' => PrRepoRegex.is_slash c || has_slash s'
  end.

(** Whether a string starts with a decimal digit. *)
Definition starts_with_digit (s : string) : bool :=
  match s with
  | EmptyString => false
  | String d _ => PrRepoRegex.is_digit d
  end.

(** A URL names the pull requests of [owner]/[repo]: it has
    [/repos/<owner>/<repo>/pulls/] followed by a digit, where the owner
    and the name are not empty and have no [/]. *)
Definition names_repository (url owner repo : string) : Prop :=
  exists before number,
    url = before +++ "/repos/" +++ owner +++ "/" +++ repo +++ "/pulls/"
          +++ number
    /\ starts_with_digit number = true
    /\ owner <> "" /\ repo <> ""
    /\ has_slash owner = false /\ has_slash repo = false.

(** The URL of a pull request in the API of the hosting service. *)
Definition api_pull_url (owner repo number : string) : string :=
  "https://api.github.com/repos/" +++ owner +++ "/" +++ repo +++ "/pulls/"
  +++ number.

(** A result record is in report order: the users in descending order of
    their totals, and the rows of every user in descending order of
    theirs. *)
Definition in_report_order (result : InstallationResult) : Prop :=
  match result with
  | Stats s =>
      StronglySorted (not_below user_total) (InstallationStats.user_stats s)
      /\ Forall (fun user =>
                   StronglySorted (not_below repo_total)
                                  (UserStat.repo_contributions user))
                (InstallationStats.user_stats s)
  | Failure _ => True
  end.

(** A result record is the record of an installation for a window of
    [days] days: it has the id and the account of the installation; a
    success record has the account type and the window too, and the
    totals of each of its users are the sums of the user's rows. *)
Definition result_for (days : Z) (installation : Installation.t)
  (result : InstallationResult) : Prop :=
  match result with
  | Stats s =>
      InstallationStats.id s = Installation.id installation
      /\ InstallationStats.account s = Installation.account_login installation
      /\ InstallationStats.account_type s
         = Installation.account_type installation
      /\ InstallationStats.period_days s = days
      /\ Forall rows_add_up (InstallationStats.user_stats s)
  | Failure f =>
      InstallationError.id f = Installation.id installation
      /\ InstallationError.account f = Installation.account_login installation
  end.

(** The error record of an installation. *)
Definition failure_of (installation : Installation.t) (error : JsError)
  : InstallationResult :=
  Failure {| InstallationError.id := Installation.id installation;
             InstallationError.account := Installation.account_login installation;
             InstallationError.error := message error |}.

(** A call of a method of a [Logger], with its arguments. *)
Inductive Invocation : Type :=
| CallDebug (message : string) (args : list string)
| CallInfo (message : string) (args : list string)
| CallWarn (message : string) (args : list string)
| CallError (message : string) (args : list string)
| CallSuccess (message : string) (args : list string)
| CallPending (message : string) (args : list string)
| CallComplete (message : string) (args : list string)
| CallStart (message : string) (args : list string)
| CallPause (message : string) (args : list string)
| CallNote (message : string) (args : list string)
| CallTime (label : string)
| CallTimeEnd (label : string)
| CallGroup (label : string)
| CallGroupEnd.

Definition invoke (call : Invocation) (logger : Logger.t) : Logger.t :=
  match call with
  | CallDebug message args => Logger.debug message args logger
  | CallInfo message args => Logger.info message args logger
  | CallWarn message args => Logger.warn message args logger
  | CallError message args => Logger.error message args logger
  | CallSuccess message args => Logger.success message args logger
  | CallPending message args => Logger.pending message args logger
  | CallComplete message args => Logger.complete message args logger
  | CallStart message args => Logger.start message args logger
  | CallPause message args => Logger.pause message args logger
  | CallNote message args => Logger.note message args logger
  | CallTime label => Logger.time label logger
  | CallTimeEnd label => Logger.timeEnd label logger
  | CallGroup label => Logger.group label logger
  | CallGroupEnd => Logger.groupEnd logger
  end.

(** A program that uses a logger: the calls it makes, in order. *)
Definition invoke_all (program : list Invocation) (logger : Logger.t)
  : Logger.t :=
  fold_left (fun l call => invoke call l) program logger.

(** Two loggers that differ in their level at most, the second being at
    least as strict as the first. *)
Definition stricter_than (strict loose : Logger.t) : Prop :=
  Logger.logLevels (Logger.level (Logger.config loose))
  <= Logger.logLevels (Logger.level (Logger.config strict))
  /\ Logger.timers (Logger.config strict) = Logger.timers (Logger.config loose).

(** A constructor argument without a level. *)
Definition no_level_given (given : Logger.PartialConfig) : Prop :=
  Logger.given_level given = None.

(** * Example inputs *)

(** A repository [o/r], pushed to inside the window of the examples,
    whose cutoff is the instant 100. *)
Definition repo_r : Repository.t :=
  {| Repository.owner_login := "o";
     Repository.name := "r";
     Repository.full_name := "o/r";
     Repository.pushed_at := Some 150;
     Repository.updated_at := None |}.

Definition alice : PullRequest.User :=
  {| PullRequest.login := "alice";
     PullRequest.id := Some 7;
     PullRequest.node_id := Some "U_7" |}.

(** A pull request of [o/r] by [alice], as the search endpoint lists it. *)
Definition pr_of (number created_at : Z) (closed_at : option Z) (updated_at : Z)
  : PullRequest.t :=
  {| PullRequest.number := number;
     PullRequest.user := Some alice;
     PullRequest.created_at := created_at;
     PullRequest.closed_at := closed_at;
     PullRequest.updated_at := updated_at;
     PullRequest.pull_request_url :=
       Some ("https://api.github.com/repos/o/r/pulls/" +++ Js.num_to_string number) |}.

(** Created before the cutoff, not closed, updated after it. *)
Definition stale_pr : PullRequest.t := pr_of 1 50 None 150.

(** Created before the cutoff and closed after it. *)
Definition closed_pr : PullRequest.t := pr_of 2 50 (Some 120) 120.

(** Created after the cutoff, still open. *)
Definition fresh_pr : PullRequest.t := pr_of 3 130 None 130.

(** Not touched since before the cutoff. *)
Definition old_pr : PullRequest.t := pr_of 4 10 (Some 20) 20.

Definition empty_heap : Heap :=
  {| events := []; user_stats := JsObject.empty; processed_commits := ∅ |}.

Definition rate_limit_error : JsError :=
  {| status := Some 403; message := "API rate limit exceeded" |}.

Definition server_error : JsError :=
  {| status := Some 500; message := "Internal Server Error" |}.

(** A commit by the account [bob]. *)
Definition bob_commit (oid : string) : Commit.t :=
  {| Commit.oid := oid;
     Commit.author :=
       {| Commit.user := Some {| Commit.login := "bob";
                                 Commit.id := Some "U_2";
                                 Commit.databaseId := Some 2 |};
          Commit.name := Some "Bob";
          Commit.email := Some "bob@example.org" |};
     Commit.committedDate := 140 |}.

(** A repository with the branches [main] and [dev]: commit [c1] is
    reachable from both, commit [c2] from [dev] only.  No pull request. *)
Definition two_branches : Octokit :=
  {| branches_of := fun _ _ _ =>
       Resolved [{| Branch.name := "main" |}; {| Branch.name := "dev" |}];
     history_of := fun _ _ _ branchName _ =>
       if String.eqb branchName "refs/heads/main"
       then Resolved [bob_commit "c1"]
       else Resolved [bob_commit "c2"; bob_commit "c1"];
     search_of := fun _ _ _ _ => Resolved {| total_count := 0; items := [] |};
     pulls_of := fun _ _ _ _ => Resolved [] |}.

Definition no_search_result : Response SearchData :=
  Resolved {| total_count := 0; items := [] |}.

(** A repository whose second page of pull requests, a full page, holds
    nothing updated in the window, while its first and its third page
    do. *)
Definition stale_second_page : Octokit :=
  {| branches_of := fun _ _ _ => Resolved [];
     history_of := fun _ _ _ _ _ => Resolved [];
     search_of := fun _ _ _ _ => no_search_result;
     pulls_of := fun _ _ _ page =>
       if page =? 2 then Resolved (repeat old_pr 100)
       else Resolved (repeat fresh_pr 100) |}.

(** A repository with 101 pull requests, 100 on the first page and one
    on the second, whose second request to the pulls endpoint hits the
    rate limit. *)
Definition rate_limited_once : Octokit :=
  {| branches_of := fun _ _ _ => Resolved [];
     history_of := fun _ _ _ _ _ => Resolved [];
     search_of := fun _ _ _ _ => no_search_result;
     pulls_of := fun tr _ _ page =>
       if (length (List.filter is_pulls_request tr) =? 1)%nat
       then Rejected rate_limit_error
       else if page =? 1 then Resolved (repeat fresh_pr 100)
       else if page =? 2 then Resolved [closed_pr]
       else Resolved [] |}.

(** A repository the search finds nothing for, with two pull requests on
    its only page. *)
Definition search_finds_nothing : Octokit :=
  {| branches_of := fun _ _ _ => Resolved [];
     history_of := fun _ _ _ _ _ => Resolved [];
     search_of := fun _ _ _ _ => no_search_result;
     pulls_of := fun _ _ _ page => Resolved [fresh_pr; old_pr] |}.

(** A repository the search finds one pull request for: [stale_pr]. *)
Definition search_finds_stale : Octokit :=
  {| branches_of := fun _ _ _ => Resolved [];
     history_of := fun _ _ _ _ _ => Resolved [];
     search_of := fun _ _ _ _ =>
       Resolved {| total_count := 1; items := [stale_pr] |};
     pulls_of := fun _ _ _ _ => Resolved [] |}.

(** The second iteration of a pagination loop. *)
Definition at_page_two : PageLoop :=
  {| page := 2; has_more_pages := true; total_prs := 100 |}.

Definition contribution (repo_name : string) (commits prs_opened prs_closed : Z)
  : RepoContribution.t :=
  {| RepoContribution.repo_name := repo_name;
     RepoContribution.commits := commits;
     RepoContribution.prs_opened := prs_opened;
     RepoContribution.prs_closed := prs_closed |}.

(** An author with a total of 5, the smaller repository listed first. *)
Definition author_of_five : UserStat.t :=
  {| UserStat.name := "carol";
     UserStat.user_id := None;
     UserStat.total_commits := 3;
     UserStat.total_prs_opened := 1;
     UserStat.total_prs_closed := 1;
     UserStat.repo_contributions :=
       [contribution "docs" 1 0 0; contribution "api" 2 1 1] |}.

(** An author with a total of 12. *)
Definition author_of_twelve : UserStat.t :=
  {| UserStat.name := "dave";
     UserStat.user_id := Some (Js.IdNum 42);
     UserStat.total_commits := 10;
     UserStat.total_prs_opened := 1;
     UserStat.total_prs_closed := 1;
     UserStat.repo_contributions := [contribution "api" 10 1 1] |}.

(** A success result that lists the author of 5 before the author of
    12, over a week. *)
Definition week_stats : InstallationStats.t :=
  {| InstallationStats.id := 1;
     InstallationStats.account := "acme";
     InstallationStats.account_type := "Organization";
     InstallationStats.period_days := 7;
     InstallationStats.user_stats := [author_of_five; author_of_twelve] |}.

(** The same result after [generateReport]. *)
Definition week_stats_after : InstallationStats.t :=
  {| InstallationStats.id := 1;
     InstallationStats.account := "acme";
     InstallationStats.account_type := "Organization";
     InstallationStats.period_days := 7;
     InstallationStats.user_stats :=
       [author_of_twelve;
        {| UserStat.name := "carol";
           UserStat.user_id := None;
           UserStat.total_commits := 3;
           UserStat.total_prs_opened := 1;
           UserStat.total_prs_closed := 1;
           UserStat.repo_contributions :=
             [contribution "api" 2 1 1; contribution "docs" 1 0 0] |}] |}.

Definition acme : Installation.t :=
  {| Installation.id := 1;
     Installation.account_login := "acme";
     Installation.account_type := "Organization" |}.

(** A repository whose pulls endpoint is rate limited for good. *)
Definition always_limited : Octokit :=
  {| branches_of := fun _ _ _ => Resolved [];
     history_of := fun _ _ _ _ _ => Resolved [];
     search_of := fun _ _ _ _ => no_search_result;
     pulls_of := fun _ _ _ _ => Rejected rate_limit_error |}.

(** A repository whose pulls endpoint fails. *)
Definition pulls_broken : Octokit :=
  {| branches_of := fun _ _ _ => Resolved [];
     history_of := fun _ _ _ _ _ => Resolved [];
     search_of := fun _ _ _ _ => no_search_result;
     pulls_of := fun _ _ _ _ => Rejected server_error |}.

(** The first iteration of a pagination loop. *)
Definition at_page_one : PageLoop :=
  {| page := 1; has_more_pages := true; total_prs := 0 |}.

(** An installation whose access is refused. *)
Definition globex : Installation.t :=
  {| Installation.id := 2;
     Installation.account_login := "globex";
     Installation.account_type := "User" |}.

(** An app with two installations: [acme], which has the repository
    [o/r] with the branches of [two_branches], and [globex], whose access
    is refused.  The clock stands seven days after the instant 100. *)
Definition two_installations : App :=
  {| installations_of := fun _ => Resolved [acme; globex];
     access_of := fun _ id =>
       if id =? 1
       then Resolved {| access_octokit := two_branches;
                        repositories_of := fun _ => Resolved [repo_r] |}
       else Rejected server_error;
     clock := fun _ => 604800100 |}.

(** An app whose listing of the installations fails. *)
Definition no_listing : App :=
  {| installations_of := fun _ => Rejected server_error;
     access_of := fun _ _ => Rejected server_error;
     clock := fun _ => 0 |}.

Definition week_config : GitHubActivityConfig :=
  {| app_id := 1; private_key := "key"; days_to_look_back := None |}.

(** [new Logger()] *)
Definition plain_logger : Logger.t :=
  Logger.new {| Logger.given_level := None;
                Logger.given_scope := None;
                Logger.given_disabled := None;
                Logger.given_interactive := None;
                Logger.given_timers := None |}.

(** [new Logger({ level: 'error', scope: ['stats', 'github'] })] *)
Definition quiet_logger : Logger.t :=
  Logger.new {| Logger.given_level := Some Logger.LevelError;
                Logger.given_scope := Some ["stats"; "github"];
                Logger.given_disabled := None;
                Logger.given_interactive := None;
                Logger.given_timers := None |}.

(** * Properties *)

(** ** Dictionaries *)

Section JsObjectFacts.
Context {V : Type}.
Implicit Types (o : JsObject.t V) (k : string) (v : V).

Lemma get_set_eq k v o : JsObject.get k (JsObject.set k v o) = Some v.
Proof.
  induction o as [|[k' v'] o IH]; simpl.
  - by rewrite String.eqb_refl.
  - destruct (String.eqb k k') eqn:E; simpl; rewrite E; [done | exact IH].
Qed.

Lemma get_set_ne k k' v o :
  k <> k' -> JsObject.get k' (JsObject.set k v o) = JsObject.get k' o.
Proof.
  intros Hne. induction o as [|[k0 v0] o IH]; simpl.
  - destruct (String.eqb_spec k' k); congruence.
  - destruct (String.eqb_spec k k0) as [->|Hk]; simpl.
    + destruct (String.eqb_spec k' k0); congruence.
    + destruct (String.eqb_spec k' k0); [done | exact IH].
Qed.

Lemma Forall_set (P : string * V -> Prop) k v o :
  Forall P o -> (forall k0, P (k0, v)) -> Forall P (JsObject.set k v o).
Proof.
  intros Ho Hv. induction Ho as [|[k' v'] o HP Ho IH]; simpl.
  - constructor; [apply Hv | constructor].
  - destruct (String.eqb k k'); constructor; auto.
Qed.

Lemma Forall_get (P : string * V -> Prop) k v o :
  Forall P o -> JsObject.get k o = Some v -> exists k0, P (k0, v).
Proof.
  induction 1 as [|[k' v'] o HP Ho IH]; simpl; [done|].
  destruct (String.eqb k k'); [|exact IH].
  intros [= <-]. by exists k'.
Qed.

End JsObjectFacts.

Lemma sum_set_present {V : Type} (f : V -> Z) k (v v0 : V) (o : JsObject.t V) :
  JsObject.get k o = Some v0 ->
  sum_Z (map f (JsObject.values (JsObject.set k v o)))
  = sum_Z (map f (JsObject.values o)) - f v0 + f v.
Proof.
  induction o as [|[k' v'] o IH]; simpl; [done|].
  destruct (String.eqb k k'); simpl.
  - intros [= ->]. lia.
  - intros H. rewrite (IH H). lia.
Qed.

Lemma sum_set_absent {V : Type} (f : V -> Z) k (v : V) (o : JsObject.t V) :
  JsObject.get k o = None ->
  sum_Z (map f (JsObject.values (JsObject.set k v o)))
  = sum_Z (map f (JsObject.values o)) + f v.
Proof.
  induction o as [|[k' v'] o IH]; simpl; [lia|].
  destruct (String.eqb k k'); simpl; [done|].
  intros H. rewrite (IH H). lia.
Qed.

(** ** The sort *)

Section SortByKey.
Context {A : Type} (key : A -> Z).

Lemma insert_Permutation x l :
  Permutation (x :: l) (Js.insert (by_key_desc key) x l).
Proof.
  induction l as [|y l IH]; simpl; [done|].
  destruct ((by_key_desc key) x y <=? 0); [done|].
  rewrite perm_swap. by constructor.
Qed.

Lemma sort_Permutation l : Permutation l (Js.sort (by_key_desc key) l).
Proof.
  induction l as [|x l IH]; simpl; [done|].
  rewrite <- insert_Permutation. by constructor.
Qed.

Lemma insert_Forall (P : A -> Prop) x l :
  P x -> Forall P l -> Forall P (Js.insert (by_key_desc key) x l).
Proof.
  intros Hx Hl. eapply Permutation_Forall; [apply insert_Permutation|].
  by constructor.
Qed.

Lemma insert_sorted x l :
  StronglySorted (not_below key) l ->
  StronglySorted (not_below key) (Js.insert (by_key_desc key) x l).
Proof.
  induction 1 as [|y l Hl IH Hy]; simpl.
  - repeat constructor.
  - unfold by_key_desc at 1. destruct (Z.leb_spec (key y - key x) 0).
    + constructor; [by constructor|].
      constructor; [unfold not_below; lia|].
      eapply Forall_impl; [exact Hy|]. unfold not_below. intros; lia.
    + constructor; [exact IH|].
      apply insert_Forall; [unfold not_below; lia | exact Hy].
Qed.

Lemma sort_sorted l : StronglySorted (not_below key) (Js.sort (by_key_desc key) l).
Proof.
  induction l as [|x l IH]; simpl; [constructor | by apply insert_sorted].
Qed.

(** Stability: the elements of any one key keep their order. *)
Lemma insert_stable k x l :
  List.filter (fun a => key a =? k) (Js.insert (by_key_desc key) x l)
  = List.filter (fun a => key a =? k) (x :: l).
Proof.
  induction l as [|y l IH]; [done|].
  cbn [Js.insert]. unfold by_key_desc at 1.
  destruct (Z.leb_spec (key y - key x) 0); [done|].
  cbn [List.filter] in *. rewrite IH.
  destruct (Z.eqb_spec (key x) k), (Z.eqb_spec (key y) k); try done. lia.
Qed.

Lemma sort_stable k l :
  List.filter (fun a => key a =? k) (Js.sort (by_key_desc key) l)
  = List.filter (fun a => key a =? k) l.
Proof.
  induction l as [|x l IH]; [done|].
  cbn [Js.sort]. rewrite insert_stable. cbn [List.filter]. by rewrite IH.
Qed.

(** Sorting an array that is in order leaves it as it is, so an array
    that two results share is rendered, and left, as if each had its
    own. *)
Lemma sort_sorted_id l :
  StronglySorted (not_below key) l -> Js.sort (by_key_desc key) l = l.
Proof.
  induction 1 as [|x l Hl IH Hx]; [done|].
  cbn [Js.sort]. rewrite IH. destruct Hx as [|y l Hy _]; [done|].
  cbn [Js.insert]. unfold by_key_desc, not_below in *.
  destruct (Z.leb_spec (key y - key x) 0); [done | lia].
Qed.

End SortByKey.

(** ** Repository filter *)

Lemma latest_activity_max repo : latest_activity repo = spec_latest_activity repo.
Proof.
  unfold latest_activity, spec_latest_activity, date_or_epoch.
  destruct (Repository.pushed_at repo) as [p|], (Repository.updated_at repo) as [u|];
    cbn [default];
    match goal with |- context [?a <? ?b] => destruct (Z.ltb_spec a b) end;
    unfold id; lia.
Qed.

Lemma filter_sublist {A : Type} (f : A -> bool) (l : list A) :
  sublist (List.filter f l) l.
Proof.
  induction l as [|x l IH]; simpl; [constructor|].
  destruct (f x); by constructor.
Qed.

(** C8. The repository filter returns its input with exactly the
    repositories removed whose latest activity, the later of [pushed_at]
    and [updated_at] with a missing timestamp taken as the epoch, is before
    the cutoff: the kept ones stay in their order, the comparison is
    inclusive, and a repository without both timestamps is kept exactly
    when the cutoff is at or before the epoch. *)
Theorem filterUpdatedRepositories_window (repos : list Repository.t) (cutoff_date : Z) :
  filterUpdatedRepositories repos cutoff_date
  = List.filter (fun repo => bool_decide (cutoff_date <= spec_latest_activity repo)) repos
  /\ sublist (filterUpdatedRepositories repos cutoff_date) repos
  /\ (forall repo,
        In repo (filterUpdatedRepositories repos cutoff_date)
        <-> In repo repos /\ cutoff_date <= spec_latest_activity repo)
  /\ (forall repo,
        Repository.pushed_at repo = None -> Repository.updated_at repo = None ->
        (In repo (filterUpdatedRepositories repos cutoff_date)
         <-> In repo repos /\ cutoff_date <= 0)).
Proof.
  assert (Hchar : forall repo,
             In repo (filterUpdatedRepositories repos cutoff_date)
             <-> In repo repos /\ cutoff_date <= spec_latest_activity repo).
  { intros repo. unfold filterUpdatedRepositories. rewrite filter_In.
    rewrite latest_activity_max, Z.leb_le. tauto. }
  split; [|split; [apply filter_sublist | split; [exact Hchar|]]].
  - unfold filterUpdatedRepositories. apply filter_ext. intros repo.
    rewrite latest_activity_max.
    destruct (Z.leb_spec cutoff_date (spec_latest_activity repo)).
    + by rewrite bool_decide_eq_true_2.
    + rewrite bool_decide_eq_false_2; [done | lia].
  - intros repo Hp Hu. rewrite Hchar.
    unfold spec_latest_activity. rewrite Hp, Hu. simpl. tauto.
Qed.

(** ** Accumulators *)

Lemma set_set {V : Type} k (v v' : V) (o : JsObject.t V) :
  JsObject.set k v (JsObject.set k v' o) = JsObject.set k v o.
Proof.
  induction o as [|[k0 v0] o IH]; simpl.
  - by rewrite String.eqb_refl.
  - destruct (String.eqb k k0) eqn:E; simpl; rewrite E; [done | by rewrite IH].
Qed.

Lemma touch_author_get author uid stats :
  exists acc,
    JsObject.get author (touch_author author uid stats) = Some acc
    /\ same_counters acc (accumulator_of stats author).
Proof.
  unfold touch_author, accumulator_of.
  destruct (JsObject.get author stats) as [acc|] eqn:E.
  - destruct (_ && _).
    + eexists. rewrite get_set_eq. split; [done|]. by repeat split.
    + exists acc. rewrite E. by repeat split.
  - eexists. rewrite get_set_eq. split; [done|]. by repeat split.
Qed.

Lemma touch_author_other author uid stats other :
  author <> other ->
  JsObject.get other (touch_author author uid stats) = JsObject.get other stats.
Proof.
  intros Hne. unfold touch_author.
  destruct (JsObject.get author stats) as [acc|]; [destruct (_ && _)|];
    try done; by apply get_set_ne.
Qed.

Lemma update_author_get author f stats acc :
  JsObject.get author stats = Some acc ->
  JsObject.get author (update_author author f stats) = Some (f acc).
Proof. intros H. unfold update_author. rewrite H. apply get_set_eq. Qed.

Lemma update_author_other author f stats other :
  author <> other ->
  JsObject.get other (update_author author f stats) = JsObject.get other stats.
Proof.
  intros Hne. unfold update_author.
  destruct (JsObject.get author stats); [by apply get_set_ne | done].
Qed.

Lemma update_author_compose author f g stats :
  update_author author f (update_author author g stats)
  = update_author author (fun acc => f (g acc)) stats.
Proof.
  unfold update_author.
  destruct (JsObject.get author stats) as [acc|] eqn:E.
  - by rewrite get_set_eq, set_set.
  - by rewrite E.
Qed.

Lemma update_author_id author stats :
  update_author author (fun acc => acc) stats = stats.
Proof.
  unfold update_author.
  destruct (JsObject.get author stats) as [acc|] eqn:E; [|done].
  induction stats as [|[k v] stats IH]; simpl in *; [done|].
  destruct (String.eqb author k); [congruence | by rewrite IH].
Qed.

Lemma touch_author_invariant author uid stats :
  sum_invariant stats -> sum_invariant (touch_author author uid stats).
Proof.
  intros Hinv. unfold touch_author.
  destruct (JsObject.get author stats) as [acc|] eqn:E.
  - destruct (_ && _); [|done].
    apply Forall_set; [done|]. intros k; simpl.
    destruct (Forall_get _ _ _ _ Hinv E) as [k0 H]. exact H.
  - apply Forall_set; [done|]. intros k; simpl. by repeat split.
Qed.

Lemma update_author_invariant author f stats :
  (forall acc, sums_agree acc -> sums_agree (f acc)) ->
  sum_invariant stats -> sum_invariant (update_author author f stats).
Proof.
  intros Hf Hinv. unfold update_author.
  destruct (JsObject.get author stats) as [acc|] eqn:E; [|done].
  apply Forall_set; [done|]. intros k; simpl. apply Hf.
  destruct (Forall_get _ _ _ _ Hinv E) as [k0 H]. exact H.
Qed.

Lemma count_new_commit_shape repo_name commit stats :
  count_new_commit repo_name commit stats
  = update_author (commit_author_login commit) (commit_update repo_name)
      (touch_author (commit_author_login commit) (commit_user_id commit) stats).
Proof. unfold count_new_commit. cbv zeta. by rewrite update_author_compose. Qed.

Lemma init_commit_count_get repo_name acc :
  exists n,
    JsObject.get repo_name (commits_by_repo (init_commit_count repo_name acc)) = Some n
    /\ n = commits_or_zero acc repo_name.
Proof.
  unfold init_commit_count, commits_or_zero.
  destruct (JsObject.get repo_name (commits_by_repo acc)) as [n|] eqn:E.
  - destruct (Z.eqb_spec n 0) as [->|Hn]; simpl.
    + rewrite get_set_eq. by exists 0.
    + rewrite E. by exists n.
  - simpl. rewrite get_set_eq. by exists 0.
Qed.

Lemma commit_update_sums repo_name acc :
  sums_agree acc -> sums_agree (commit_update repo_name acc).
Proof.
  intros (Hc & Ho & Hcl). unfold commit_update.
  assert (Hinit : sums_agree (init_commit_count repo_name acc)).
  { unfold init_commit_count.
    destruct (JsObject.get repo_name (commits_by_repo acc)) as [n|] eqn:E.
    - destruct (Z.eqb_spec n 0) as [->|Hn]; [|by repeat split].
      repeat split; simpl; try done.
      rewrite (sum_set_present id _ _ _ _ E). unfold id in *. lia.
    - repeat split; simpl; try done.
      rewrite (sum_set_absent id _ _ _ E). unfold id in *. lia. }
  destruct (init_commit_count_get repo_name acc) as (n & Hget & _).
  destruct Hinit as (Hc' & Ho' & Hcl').
  unfold count_commit. rewrite Hget. repeat split; simpl; try done.
  rewrite (sum_set_present id _ _ _ _ Hget). unfold id in *. lia.
Qed.

Lemma commit_update_commits repo_name acc repo :
  commits_or_zero (commit_update repo_name acc) repo
  = commits_or_zero acc repo + (if decide (repo = repo_name) then 1 else 0).
Proof.
  unfold commit_update.
  destruct (init_commit_count_get repo_name acc) as (n & Hget & Hn).
  unfold count_commit, commits_or_zero at 1. simpl. rewrite Hget.
  destruct (decide (repo = repo_name)) as [->|Hne].
  - rewrite get_set_eq. lia.
  - rewrite get_set_ne by congruence.
    unfold init_commit_count, commits_or_zero.
    destruct (match JsObject.get repo_name (commits_by_repo acc) with
              | Some n0 => n0 =? 0 | None => true end); simpl.
    + rewrite get_set_ne by congruence. lia.
    + lia.
Qed.

Lemma commit_update_total repo_name acc :
  total_commits (commit_update repo_name acc) = total_commits acc + 1.
Proof.
  unfold commit_update, count_commit, init_commit_count. simpl.
  by destruct (match JsObject.get repo_name (commits_by_repo acc) with
               | Some n0 => n0 =? 0 | None => true end).
Qed.

Lemma processPullRequest_shape pr repo_name cutoff_date stats :
  processPullRequest pr repo_name cutoff_date stats
  = update_author (pr_author_login pr) (pr_update pr repo_name cutoff_date)
      (touch_author (pr_author_login pr) (pr_user_id pr) stats).
Proof.
  unfold processPullRequest, pr_update. cbv zeta.
  destruct (cutoff_date <=? PullRequest.created_at pr);
    destruct (PullRequest.closed_at pr) as [t|];
    try destruct (cutoff_date <=? t);
    by rewrite ?update_author_compose.
Qed.

Lemma processListedPullRequest_same pr repo cutoff_date stats :
  processListedPullRequest pr repo cutoff_date stats
  = processPullRequest pr (Repository.name repo) cutoff_date stats.
Proof. reflexivity. Qed.

Lemma init_pr_counts_state repo_name acc :
  pr_state repo_name 0 0 acc (init_pr_counts repo_name acc).
Proof.
  unfold init_pr_counts, pr_field_or_zero.
  destruct (JsObject.get repo_name (pull_requests_by_repo acc)) as [[o c]|] eqn:E.
  - split; try done; try lia.
    rewrite E. unfold pr_field_or_zero. rewrite E. simpl. do 2 f_equal; lia.
  - split; simpl; try done; try lia.
    + rewrite get_set_eq. unfold pr_field_or_zero. by rewrite E.
    + intros repo Hne. by rewrite get_set_ne.
    + intros (Hc & Ho & Hcl). repeat split; simpl; try done.
      * rewrite (sum_set_absent opened _ _ _ E). simpl. lia.
      * rewrite (sum_set_absent closed _ _ _ E). simpl. lia.
Qed.

Lemma count_opened_state repo_name o c base acc :
  pr_state repo_name o c base acc ->
  pr_state repo_name (o + 1) c base (count_opened repo_name acc).
Proof.
  intros [He Hother Ho Hc Hcm Htc Hs]. unfold count_opened.
  split; simpl; rewrite ?He; try done; try lia.
  - rewrite get_set_eq. simpl. do 2 f_equal; lia.
  - intros repo Hne. rewrite get_set_ne by congruence. by apply Hother.
  - intros Hb. destruct (Hs Hb) as (H1 & H2 & H3). repeat split; simpl; try done.
    + rewrite (sum_set_present opened _ _ _ _ He). simpl. lia.
    + rewrite (sum_set_present closed _ _ _ _ He). simpl. lia.
Qed.

Lemma count_closed_state repo_name o c base acc :
  pr_state repo_name o c base acc ->
  pr_state repo_name o (c + 1) base (count_closed repo_name acc).
Proof.
  intros [He Hother Ho Hc Hcm Htc Hs]. unfold count_closed.
  split; simpl; rewrite ?He; try done; try lia.
  - rewrite get_set_eq. simpl. do 2 f_equal; lia.
  - intros repo Hne. rewrite get_set_ne by congruence. by apply Hother.
  - intros Hb. destruct (Hs Hb) as (H1 & H2 & H3). repeat split; simpl; try done.
    + rewrite (sum_set_present opened _ _ _ _ He). simpl. lia.
    + rewrite (sum_set_present closed _ _ _ _ He). simpl. lia.
Qed.

Lemma pr_update_state pr repo_name cutoff_date acc :
  pr_state repo_name (opened_increment pr cutoff_date)
           (closed_increment pr cutoff_date) acc
           (pr_update pr repo_name cutoff_date acc).
Proof.
  unfold pr_update, opened_increment, closed_increment. cbv zeta.
  pose proof (init_pr_counts_state repo_name acc) as H0.
  destruct (Z.leb_spec cutoff_date (PullRequest.created_at pr));
    [rewrite decide_True by lia; apply count_opened_state in H0
    |rewrite decide_False by lia];
    (destruct (PullRequest.closed_at pr) as [t|]; [|exact H0]);
    (destruct (Z.leb_spec cutoff_date t);
     [rewrite decide_True by lia; by apply count_closed_state in H0
     |rewrite decide_False by lia; exact H0]).
Qed.

Lemma pr_update_sums pr repo_name cutoff_date acc :
  sums_agree acc -> sums_agree (pr_update pr repo_name cutoff_date acc).
Proof. apply (pr_update_state pr repo_name cutoff_date acc). Qed.

Lemma processPullRequest_invariant pr repo_name cutoff_date stats :
  sum_invariant stats ->
  sum_invariant (processPullRequest pr repo_name cutoff_date stats).
Proof.
  intros H. rewrite processPullRequest_shape.
  apply update_author_invariant; [apply pr_update_sums|].
  by apply touch_author_invariant.
Qed.

Lemma count_new_commit_invariant repo_name commit stats :
  sum_invariant stats -> sum_invariant (count_new_commit repo_name commit stats).
Proof.
  intros H. rewrite count_new_commit_shape.
  apply update_author_invariant; [apply commit_update_sums|].
  by apply touch_author_invariant.
Qed.

(** ** Pull request counting *)

Lemma processPullRequest_accumulator pr repo_name cutoff_date stats :
  exists base,
    same_counters base (accumulator_of stats (pr_author_login pr))
    /\ accumulator_of (processPullRequest pr repo_name cutoff_date stats)
                      (pr_author_login pr)
       = pr_update pr repo_name cutoff_date base.
Proof.
  destruct (touch_author_get (pr_author_login pr) (pr_user_id pr) stats)
    as (base & Hget & Hsame).
  exists base. split; [exact Hsame|].
  rewrite processPullRequest_shape. unfold accumulator_of at 1.
  by rewrite (update_author_get _ _ _ _ Hget).
Qed.

Lemma processPullRequest_other_author pr repo_name cutoff_date stats author :
  author <> pr_author_login pr ->
  accumulator_of (processPullRequest pr repo_name cutoff_date stats) author
  = accumulator_of stats author.
Proof.
  intros Hne. rewrite processPullRequest_shape. unfold accumulator_of.
  rewrite update_author_other by congruence.
  by rewrite touch_author_other by congruence.
Qed.

Lemma processPullRequest_counts pr repo_name cutoff_date stats :
  let author := pr_author_login pr in
  let stats' := processPullRequest pr repo_name cutoff_date stats in
  repo_prs_opened stats' author repo_name
  = repo_prs_opened stats author repo_name + opened_increment pr cutoff_date
  /\ author_prs_opened stats' author
     = author_prs_opened stats author + opened_increment pr cutoff_date
  /\ repo_prs_closed stats' author repo_name
     = repo_prs_closed stats author repo_name + closed_increment pr cutoff_date
  /\ author_prs_closed stats' author
     = author_prs_closed stats author + closed_increment pr cutoff_date
  /\ (forall author' repo',
        author' <> author \/ repo' <> repo_name ->
        repo_prs_opened stats' author' repo' = repo_prs_opened stats author' repo'
        /\ repo_prs_closed stats' author' repo' = repo_prs_closed stats author' repo').
Proof.
  cbv zeta.
  destruct (processPullRequest_accumulator pr repo_name cutoff_date stats)
    as (base & (_ & Hprs & _ & Ho & Hc) & Hacc).
  pose proof (pr_update_state pr repo_name cutoff_date base)
    as [He Hother Hto Htc _ _ _].
  unfold repo_prs_opened, repo_prs_closed, author_prs_opened, author_prs_closed.
  rewrite Hacc.
  assert (Hfield : forall f repo,
             pr_field_or_zero f base repo
             = pr_field_or_zero f (accumulator_of stats (pr_author_login pr)) repo).
  { intros f repo. unfold pr_field_or_zero. by rewrite Hprs. }
  repeat split.
  - unfold pr_field_or_zero at 1. rewrite He. simpl. by rewrite Hfield.
  - lia.
  - unfold pr_field_or_zero at 1. rewrite He. simpl. by rewrite Hfield.
  - lia.
  - destruct (decide (author' = pr_author_login pr)) as [->|Hne].
    + rewrite Hacc. rewrite <- Hfield. unfold pr_field_or_zero.
      rewrite Hother; [done | tauto].
    + by rewrite processPullRequest_other_author.
  - destruct (decide (author' = pr_author_login pr)) as [->|Hne].
    + rewrite Hacc. rewrite <- Hfield. unfold pr_field_or_zero.
      rewrite Hother; [done | tauto].
    + by rewrite processPullRequest_other_author.
Qed.


(** ** The sum invariant through the collectors *)

Create HintDb keeps.

Lemma keeps_ret {A : Type} (a : A) : keeps_invariant (ret a).
Proof. by intros h. Qed.

Lemma keeps_throw {A : Type} (e : JsError) : keeps_invariant (@throw A e).
Proof. by intros h. Qed.

Lemma keeps_pending {A : Type} : keeps_invariant (@pending A).
Proof. by intros h. Qed.

Lemma keeps_bind {A B : Type} (m : M A) (k : A -> M B) :
  keeps_invariant m -> (forall a, keeps_invariant (k a)) ->
  keeps_invariant (bind m k).
Proof.
  intros Hm Hk h Hh. unfold bind. specialize (Hm h Hh).
  destruct (m h) as [[a|e|] h']; simpl in *; [by apply Hk | done | done].
Qed.

Lemma keeps_try_catch {A : Type} (m : M A) (handler : JsError -> M A) :
  keeps_invariant m -> (forall e, keeps_invariant (handler e)) ->
  keeps_invariant (try_catch m handler).
Proof.
  intros Hm Hk h Hh. unfold try_catch. specialize (Hm h Hh).
  destruct (m h) as [[a|e|] h']; simpl in *; [done | by apply Hk | done].
Qed.

Lemma keeps_for_each {X : Type} (body : X -> M unit) (l : list X) :
  (forall x, keeps_invariant (body x)) -> keeps_invariant (for_each body l).
Proof.
  intros Hbody. induction l as [|x l IH]; simpl.
  - apply keeps_ret.
  - apply keeps_bind; [apply Hbody | intros _; exact IH].
Qed.

Lemma keeps_log_event (ev : Event) : keeps_invariant (log_event ev).
Proof. by intros h. Qed.

Lemma keeps_sleep (ms : Z) : keeps_invariant (sleep ms).
Proof. apply keeps_log_event. Qed.

Lemma keeps_request {A : Type} (answer : list Event -> Response A)
  (record : Response A -> Event) : keeps_invariant (request answer record).
Proof. intros h Hh. unfold request. by destruct (answer (events h)). Qed.

Lemma keeps_modify_user_stats f :
  (forall stats, sum_invariant stats -> sum_invariant (f stats)) ->
  keeps_invariant (modify_user_stats f).
Proof. intros Hf h Hh. by apply Hf. Qed.

Lemma keeps_new_processed_commits : keeps_invariant new_processed_commits.
Proof. by intros h. Qed.

#[local] Hint Resolve keeps_ret keeps_throw keeps_pending keeps_bind
  keeps_try_catch keeps_for_each keeps_log_event keeps_sleep keeps_request
  keeps_modify_user_stats keeps_new_processed_commits
  processPullRequest_invariant count_new_commit_invariant : keeps.

Lemma keeps_processCommit repo_name commit :
  keeps_invariant (processCommit repo_name commit).
Proof.
  intros h Hh. unfold processCommit.
  destruct (bool_decide _); simpl; auto with keeps.
Qed.

#[local] Hint Resolve keeps_processCommit : keeps.

Lemma keeps_processBranchCommits octokit owner_login repo_name branch since :
  keeps_invariant (processBranchCommits octokit owner_login repo_name branch since).
Proof. unfold processBranchCommits. auto with keeps. Qed.

#[local] Hint Resolve keeps_processBranchCommits : keeps.

Lemma keeps_processRepositoryBranches octokit repo since :
  keeps_invariant (processRepositoryBranches octokit repo since).
Proof. unfold processRepositoryBranches, getBranches. auto with keeps. Qed.

Lemma keeps_processPullRequestsFromSearch search_prs repo cutoff_date :
  keeps_invariant (processPullRequestsFromSearch search_prs repo cutoff_date).
Proof.
  unfold processPullRequestsFromSearch. cbv zeta.
  apply keeps_for_each. intros pr. apply keeps_try_catch; [|auto with keeps].
  destruct (PullRequest.pull_request_url pr) as [url|]; [|auto with keeps].
  destruct (PrRepoRegex.exec url) as [[owner name]|]; [|auto with keeps].
  destruct (_ && _); auto with keeps.
Qed.

Lemma keeps_fetch_page octokit repo cutoff_date v :
  keeps_invariant (fetch_page octokit repo cutoff_date v).
Proof.
  unfold fetch_page. apply keeps_bind; [destruct (1 <? page v); auto with keeps|].
  intros _. apply keeps_bind; [auto with keeps|]. intros pull_requests. cbv zeta.
  apply keeps_bind; [|auto with keeps].
  apply keeps_for_each. intros pr. apply keeps_try_catch; [|auto with keeps].
  apply keeps_modify_user_stats. intros stats.
  rewrite processListedPullRequest_same. apply processPullRequest_invariant.
Qed.

Lemma keeps_pagination_iteration octokit repo cutoff_date v :
  keeps_invariant (pagination_iteration octokit repo cutoff_date v).
Proof.
  unfold pagination_iteration. apply keeps_try_catch; [apply keeps_fetch_page|].
  intros e. destruct (is_rate_limit e); auto with keeps.
Qed.

Lemma keeps_pagination_loop fuel octokit repo cutoff_date v :
  keeps_invariant (pagination_loop fuel octokit repo cutoff_date v).
Proof.
  revert v. induction fuel as [|fuel IH]; intros v; simpl;
    destruct (has_more_pages v); auto with keeps.
  apply keeps_bind; [apply keeps_pagination_iteration | exact IH].
Qed.

Lemma keeps_fetchPRsWithPagination fuel octokit repo cutoff_date :
  keeps_invariant (fetchPRsWithPagination fuel octokit repo cutoff_date).
Proof. apply keeps_pagination_loop. Qed.

#[local] Hint Resolve keeps_processRepositoryBranches
  keeps_processPullRequestsFromSearch keeps_fetchPRsWithPagination : keeps.

Lemma keeps_processRepositoryPullRequests fuel octokit repo cutoff_date :
  keeps_invariant (processRepositoryPullRequests fuel octokit repo cutoff_date).
Proof.
  unfold processRepositoryPullRequests. cbv zeta.
  apply keeps_try_catch; [|auto with keeps].
  apply keeps_bind; [auto with keeps|]. intros data.
  apply keeps_bind; [auto with keeps|]. intros _.
  destruct (total_count data =? 0); auto with keeps.
Qed.

#[local] Hint Resolve keeps_processRepositoryPullRequests : keeps.

Lemma collectUserStats_invariant fuel octokit updated_repos cutoff_date h :
  sum_invariant (user_stats (snd (collectUserStats fuel octokit updated_repos
                                                   cutoff_date h))).
Proof.
  unfold collectUserStats.
  set (body := for_each _ updated_repos).
  assert (Hbody : keeps_invariant body).
  { apply keeps_for_each. intros repo. auto 6 with keeps. }
  unfold bind at 1. simpl.
  set (h0 := {| events := events h; user_stats := JsObject.empty;
                processed_commits := processed_commits h |}).
  assert (H0 : sum_invariant (user_stats h0)) by constructor.
  specialize (Hbody h0 H0). unfold bind.
  destruct (body h0) as [[[]|e|] h']; simpl in *; exact Hbody.
Qed.



(** ** Commit deduplication *)

Lemma filter_filter_comm {A : Type} (f g : A -> bool) (l : list A) :
  List.filter f (List.filter g l) = List.filter g (List.filter f l).
Proof.
  induction l as [|x l IH]; simpl; [done|].
  destruct (f x) eqn:Ef, (g x) eqn:Eg; simpl; rewrite ?Ef, ?Eg, IH; done.
Qed.

Lemma filter_filter_absorb {A : Type} (f g : A -> bool) (l : list A) :
  (forall x, f x = true -> g x = true) ->
  List.filter f (List.filter g l) = List.filter f l.
Proof.
  intros Hfg. induction l as [|x l IH]; simpl; [done|].
  destruct (f x) eqn:Ef.
  - rewrite (Hfg x Ef). simpl. by rewrite Ef, IH.
  - destruct (g x); simpl; by rewrite ?Ef, IH.
Qed.

Lemma filter_andb {A : Type} (f g : A -> bool) (l : list A) :
  List.filter (fun x => f x && g x) l = List.filter g (List.filter f l).
Proof.
  induction l as [|x l IH]; simpl; [done|].
  destruct (f x); simpl; [destruct (g x)|]; by rewrite IH.
Qed.

(** Dropping commits by a test on the id commutes with [first_by_oid]. *)
Lemma first_by_oid_filter (p : string -> bool) commits :
  first_by_oid (List.filter (fun c => p (Commit.oid c)) commits)
  = List.filter (fun c => p (Commit.oid c)) (first_by_oid commits).
Proof.
  induction commits as [|c commits IH]; simpl; [done|].
  destruct (p (Commit.oid c)) eqn:E; simpl.
  - rewrite IH. f_equal. apply filter_filter_comm.
  - rewrite IH. symmetry. apply filter_filter_absorb. intros c' Hp.
    destruct (String.eqb_spec (Commit.oid c') (Commit.oid c)) as [Heq|]; [|done].
    congruence.
Qed.

Lemma unseen_first_by_oid seen commits :
  unseen seen commits
  = first_by_oid
      (List.filter (fun c => negb (bool_decide (Commit.oid c ∈ seen))) commits).
Proof.
  revert seen. induction commits as [|c commits IH]; intros seen; simpl; [done|].
  destruct (bool_decide (Commit.oid c ∈ seen)) eqn:E; simpl; [apply IH|].
  f_equal. rewrite IH.
  rewrite <- (first_by_oid_filter
                (fun o => negb (String.eqb o (Commit.oid c)))).
  f_equal. rewrite <- filter_andb. apply filter_ext. intros c0.
  destruct (String.eqb_spec (Commit.oid c0) (Commit.oid c)) as [->|Hne].
  - rewrite bool_decide_eq_true_2 by set_solver.
    by rewrite andb_false_r.
  - rewrite andb_true_r. f_equal. apply bool_decide_ext. set_solver.
Qed.

Lemma unseen_empty commits : unseen ∅ commits = first_by_oid commits.
Proof.
  rewrite unseen_first_by_oid. f_equal.
  rewrite (filter_ext _ (fun _ => true)).
  - induction commits as [|c l IH]; simpl; by rewrite ?IH.
  - intros c. by rewrite bool_decide_eq_false_2 by set_solver.
Qed.

Lemma unseen_app seen commits commits' :
  unseen seen (commits ++ commits')
  = unseen seen commits ++ unseen (seen ∪ oid_set commits) commits'.
Proof.
  revert seen. induction commits as [|c commits IH]; intros seen; simpl.
  - f_equal. unfold oid_set. simpl. by rewrite (right_id_L ∅ (∪)).
  - unfold oid_set in *. simpl.
    destruct (bool_decide (Commit.oid c ∈ seen)) eqn:E.
    + rewrite IH. do 2 f_equal. apply bool_decide_eq_true_1 in E. set_solver.
    + simpl. rewrite IH. do 3 f_equal. set_solver.
Qed.

Lemma first_by_oid_In oid commits :
  In oid (map Commit.oid (first_by_oid commits)) <-> In oid (map Commit.oid commits).
Proof.
  induction commits as [|c commits IH]; simpl; [done|].
  rewrite <- IH. rewrite !in_map_iff. split.
  - intros [H|(c' & Hc' & Hin)]; [by left|].
    apply filter_In in Hin as [Hin _]. right. eauto.
  - intros [H|(c' & Hc' & Hin)]; [by left|].
    destruct (String.eqb_spec (Commit.oid c') (Commit.oid c)) as [Heq|Hne].
    + left. congruence.
    + right. exists c'. split; [done|]. apply filter_In. split; [done|].
      by apply negb_true_iff, String.eqb_neq.
Qed.

Lemma first_by_oid_NoDup commits :
  List.NoDup (map Commit.oid (first_by_oid commits)).
Proof.
  induction commits as [|c commits IH]; simpl; constructor.
  - rewrite in_map_iff. intros (c' & Heq & Hin).
    apply filter_In in Hin as [_ Hne].
    apply negb_true_iff, String.eqb_neq in Hne. congruence.
  - clear -IH. induction (first_by_oid commits) as [|x l IHl]; simpl; [constructor|].
    inversion IH as [|? ? Hx Hl]; subst.
    destruct (negb _); simpl; [|by apply IHl].
    constructor; [|by apply IHl].
    rewrite in_map_iff. intros (c' & Heq & Hin).
    apply filter_In in Hin as [Hin _]. apply Hx, in_map_iff. eauto.
Qed.

Lemma oid_set_size commits :
  size (oid_set commits) = length (first_by_oid commits).
Proof.
  assert (oid_set commits = oid_set (first_by_oid commits)) as ->.
  { unfold oid_set. apply set_eq. intros o.
    rewrite !elem_of_list_to_set, !list_elem_of_In. by rewrite first_by_oid_In. }
  unfold oid_set. rewrite size_list_to_set.
  - by rewrite length_map.
  - apply NoDup_ListNoDup, first_by_oid_NoDup.
Qed.

Lemma for_each_processCommit repo_name commits h :
  for_each (processCommit repo_name) commits h
  = (Returned tt,
     {| events := events h;
        user_stats :=
          fold_left (fun stats c => count_new_commit repo_name c stats)
                    (unseen (processed_commits h) commits) (user_stats h);
        processed_commits := processed_commits h ∪ oid_set commits |}).
Proof.
  revert h. induction commits as [|c commits IH]; intros [evs stats seen]; simpl.
  - unfold ret, oid_set. simpl. by rewrite (right_id_L ∅ (∪)).
  - unfold bind, processCommit. simpl.
    destruct (bool_decide (Commit.oid c ∈ seen)) eqn:E; rewrite IH; simpl.
    + do 2 f_equal. apply bool_decide_eq_true_1 in E.
      unfold oid_set. simpl. set_solver.
    + do 2 f_equal. unfold oid_set. simpl. set_solver.
Qed.

Lemma count_new_commit_counts repo_name commit stats author repo :
  repo_commits (count_new_commit repo_name commit stats) author repo
  = repo_commits stats author repo
    + (if decide (author = commit_author_login commit /\ repo = repo_name)
       then 1 else 0)
  /\ author_commits (count_new_commit repo_name commit stats) author
     = author_commits stats author
       + (if decide (author = commit_author_login commit) then 1 else 0).
Proof.
  rewrite count_new_commit_shape. unfold repo_commits, author_commits.
  destruct (decide (author = commit_author_login commit)) as [->|Hne].
  - destruct (touch_author_get (commit_author_login commit)
                (commit_user_id commit) stats) as (base & Hget & Hsame).
    destruct Hsame as (Hc & _ & Ht & _).
    unfold accumulator_of at 1 3.
    rewrite (update_author_get _ _ _ _ Hget).
    rewrite commit_update_commits, commit_update_total.
    unfold commits_or_zero. rewrite Hc, Ht. split; [|done].
    f_equal. destruct (decide (repo = repo_name)).
    + by rewrite decide_True.
    + rewrite decide_False; [done | tauto].
  - unfold accumulator_of.
    rewrite update_author_other, touch_author_other by congruence.
    rewrite decide_False by tauto. split; lia.
Qed.

Lemma fold_count_new_commit repo_name commits stats author :
  let stats' := fold_left (fun stats c => count_new_commit repo_name c stats)
                          commits stats in
  repo_commits stats' author repo_name
  = repo_commits stats author repo_name + authored_by author commits
  /\ author_commits stats' author
     = author_commits stats author + authored_by author commits.
Proof.
  cbv zeta. revert stats.
  induction commits as [|c commits IH]; intros stats; simpl.
  - unfold authored_by. simpl. lia.
  - destruct (IH (count_new_commit repo_name c stats)) as [-> ->].
    destruct (count_new_commit_counts repo_name c stats author repo_name)
      as [-> ->].
    unfold authored_by. simpl.
    destruct (String.eqb_spec (commit_author_login c) author) as [<-|Hne].
    + rewrite !decide_True by done. simpl length. lia.
    + rewrite !decide_False by (intros H; apply Hne; symmetry; tauto). lia.
Qed.

Lemma history_commits_app evs evs' :
  history_commits (evs ++ evs') = history_commits evs ++ history_commits evs'.
Proof. unfold history_commits. by rewrite flat_map_app. Qed.

Lemma processBranchCommits_run octokit owner_login repo_name branch since h :
  let branchName := "refs/heads/" +++ Branch.name branch in
  let answer := history_of octokit (events h) owner_login repo_name branchName
                           since in
  let evs := events h ++ [EvHistory owner_login repo_name branchName since answer] in
  processBranchCommits octokit owner_login repo_name branch since h
  = match answer with
    | Resolved commits =>
        (Returned tt,
         {| events := evs;
            user_stats :=
              fold_left (fun stats c => count_new_commit repo_name c stats)
                        (unseen (processed_commits h) commits) (user_stats h);
            processed_commits := processed_commits h ∪ oid_set commits |})
    | Rejected e =>
        (Thrown e,
         {| events := evs;
            user_stats := user_stats h;
            processed_commits := processed_commits h |})
    end.
Proof.
  cbv zeta. unfold processBranchCommits, bind, request.
  destruct (history_of _ _ _ _ _ _) as [commits|e]; [|done].
  by rewrite for_each_processCommit.
Qed.

(** The walk over the branches of a repository, from any heap. *)
Lemma branch_walk octokit owner_login repo_name since branches h :
  let h' := snd (for_each
                   (fun branch => processBranchCommits octokit owner_login
                                    repo_name branch since)
                   branches h) in
  exists new,
    events h' = events h ++ new
    /\ user_stats h'
       = fold_left (fun stats c => count_new_commit repo_name c stats)
                   (unseen (processed_commits h) (history_commits new))
                   (user_stats h)
    /\ processed_commits h'
       = processed_commits h ∪ oid_set (history_commits new).
Proof.
  cbv zeta. revert h.
  induction branches as [|branch branches IH]; intros h.
  - exists []. simpl. rewrite app_nil_r. unfold oid_set. simpl.
    by rewrite (right_id_L ∅ (∪)).
  - cbn [for_each]. unfold bind. rewrite processBranchCommits_run.
    set (branchName := "refs/heads/" +++ Branch.name branch).
    destruct (history_of octokit (events h) owner_login repo_name branchName since)
      as [commits|e] eqn:E.
    + match goal with |- context [for_each _ branches ?h1] =>
        destruct (IH h1) as (new & Hev & Hstats & Hseen) end.
      cbn [events user_stats processed_commits] in Hev, Hstats, Hseen.
      exists (EvHistory owner_login repo_name branchName since (Resolved commits)
                :: new).
      rewrite Hev, Hstats, Hseen.
      change (history_commits (?ev :: new)) with (commits ++ history_commits new).
      rewrite unseen_app, fold_left_app.
      split; [by rewrite <- app_assoc|]. split; [done|].
      unfold oid_set. rewrite map_app, list_to_set_app_L. set_solver.
    + exists [EvHistory owner_login repo_name branchName since (Rejected e)].
      unfold oid_set. simpl. by rewrite (right_id_L ∅ (∪)).
Qed.



(** ** The pagination loop *)

Lemma bind_run {A B : Type} (m : M A) (k : A -> M B) h :
  bind m k h = match m h with
               | (Returned a, h') => k a h'
               | (Thrown e, h') => (Thrown e, h')
               | (Pending, h') => (Pending, h')
               end.
Proof. reflexivity. Qed.

Lemma try_catch_run {A : Type} (m : M A) (handler : JsError -> M A) h :
  try_catch m handler h = match m h with
                          | (Thrown e, h') => handler e h'
                          | r => r
                          end.
Proof. reflexivity. Qed.

Lemma for_each_listed repo cutoff_date pull_requests h :
  for_each
    (fun pr =>
       try_catch
         (modify_user_stats (processListedPullRequest pr repo cutoff_date))
         (fun pr_error => ret tt))
    pull_requests h
  = (Returned tt,
     {| events := events h;
        user_stats :=
          fold_left (fun stats pr => processListedPullRequest pr repo cutoff_date stats)
                    pull_requests (user_stats h);
        processed_commits := processed_commits h |}).
Proof.
  revert h. induction pull_requests as [|pr prs IH]; intros [evs stats seen].
  - done.
  - cbn [for_each]. unfold bind, try_catch, modify_user_stats.
    cbn [events user_stats processed_commits]. by rewrite IH.
Qed.

(** What one iteration of the pagination loop does, by the answer to its
    request. *)
Lemma pagination_iteration_run octokit repo cutoff_date v h :
  let owner := Repository.owner_login repo in
  let name := Repository.name repo in
  let before := events h ++ page_delay v in
  let answer := pulls_of octokit before owner name (page v) in
  pagination_iteration octokit repo cutoff_date v h
  = match answer with
    | Resolved pull_requests =>
        let filtered_prs :=
          List.filter (fun pr => cutoff_date <=? PullRequest.updated_at pr)
                      pull_requests in
        (Returned
           {| page := page v + 1;
              has_more_pages :=
                if (Z.of_nat (length filtered_prs) =? 0) && (2 <? page v + 1)
                then false
                else Z.of_nat (length pull_requests) =? 100;
              total_prs := total_prs v + Z.of_nat (length filtered_prs) |},
         {| events := before ++ [EvPulls owner name (page v) answer];
            user_stats :=
              fold_left (fun stats pr =>
                           processListedPullRequest pr repo cutoff_date stats)
                        filtered_prs (user_stats h);
            processed_commits := processed_commits h |})
    | Rejected error =>
        if is_rate_limit error
        then (Returned {| page := page v - 1;
                          has_more_pages := has_more_pages v;
                          total_prs := total_prs v |},
              {| events := before ++ [EvPulls owner name (page v) answer;
                                      EvSleep 60000];
                 user_stats := user_stats h;
                 processed_commits := processed_commits h |})
        else (Returned {| page := page v;
                          has_more_pages := false;
                          total_prs := total_prs v |},
              {| events := before ++ [EvPulls owner name (page v) answer];
                 user_stats := user_stats h;
                 processed_commits := processed_commits h |})
    end.
Proof.
  cbv zeta. destruct h as [evs stats seen].
  unfold pagination_iteration, fetch_page, page_delay.
  rewrite try_catch_run, bind_run.
  cbn [events user_stats processed_commits].
  destruct (1 <? page v); unfold sleep, log_event, ret at 1;
    rewrite bind_run; unfold request;
    cbn [events user_stats processed_commits];
    rewrite ?app_nil_r;
    (destruct (pulls_of octokit _ _ _ _) as [prs|e];
     [rewrite bind_run, for_each_listed;
      cbn [events user_stats processed_commits]; done
     |destruct (is_rate_limit e); unfold bind, ret;
      cbn [events user_stats processed_commits]; by rewrite <- ?app_assoc]).
Qed.

(** After a rate-limit rejection the loop goes on with the page counter
    one below the page it asked for: the request of the next iteration is
    for the page before. *)
Lemma rate_limit_steps_back octokit repo cutoff_date v h error :
  pulls_of octokit (events h ++ page_delay v) (Repository.owner_login repo)
           (Repository.name repo) (page v) = Rejected error ->
  is_rate_limit error = true ->
  exists h',
    pagination_iteration octokit repo cutoff_date v h
    = (Returned {| page := page v - 1;
                   has_more_pages := has_more_pages v;
                   total_prs := total_prs v |}, h')
    /\ user_stats h' = user_stats h.
Proof.
  intros Hanswer Hlimit. rewrite pagination_iteration_run. cbv zeta.
  rewrite Hanswer, Hlimit. by eexists.
Qed.

(** C1. The run of the paginated fallback on a repository with 100 pull
    requests on page 1 and one on page 2, when the first request for page
    2 is rejected with a rate-limit error: after the cooldown the
    collector requests page 1, not page 2; it counts the 100 pull requests
    of page 1 a second time, and reports 201 recent pull requests where
    there are 101. *)
Theorem rate_limit_retry_refetches_previous_page :
  let out := fetchPRsWithPagination 10 rate_limited_once repo_r 100 empty_heap in
  fst out = Returned 201
  /\ page_steps (events (snd out))
     = [Fetched 1 100; Waited 1000; Failed 2; Waited 60000;
        Fetched 1 100; Waited 1000; Fetched 2 1]
  /\ author_prs_opened (user_stats (snd out)) "alice" = 200
  /\ author_prs_closed (user_stats (snd out)) "alice" = 1.
Proof. vm_compute. repeat split; reflexivity. Qed.

(** C3, as the specification states it, fails: the second page, a full
    page with no pull request updated in the window, ends the pagination;
    the matches are those of the first page, and the third page, which
    holds 100 more, is never requested. *)
Lemma zero_match_second_page_stops :
  let out := fetchPRsWithPagination 10 stale_second_page repo_r 100 empty_heap in
  fst out = Returned 100
  /\ page_steps (events (snd out)) = [Fetched 1 100; Waited 1000; Fetched 2 100]
  /\ listed_matches 100 (events (snd out)) = repeat fresh_pr 100
  /\ pulls_of stale_second_page (events (snd out)) "o" "r" 3
     = Resolved (repeat fresh_pr 100).
Proof. vm_compute. repeat split; reflexivity. Qed.

(** C3, amended. When the request for a page succeeds, the loop goes on
    to the next page number, and it continues exactly when the page is
    full (100 items) and it is not the case that the page has no pull
    request updated at or after the cutoff while its number is 2 or more:
    a page without a match ends the pagination from page 2 on, and a full
    first page without a match does not. *)
Theorem zero_match_page_stops_from_page_two (octokit : Octokit)
  (repo : Repository.t) (cutoff_date : Z) (v : PageLoop) (h : Heap)
  (pull_requests : list PullRequest.t) :
  pulls_of octokit (events h ++ page_delay v) (Repository.owner_login repo)
           (Repository.name repo) (page v) = Resolved pull_requests ->
  exists v' h',
    pagination_iteration octokit repo cutoff_date v h = (Returned v', h')
    /\ page v' = page v + 1
    /\ (has_more_pages v' = true
        <-> length pull_requests = 100%nat
            /\ ~ (listed_matches cutoff_date
                    [EvPulls (Repository.owner_login repo) (Repository.name repo)
                             (page v) (Resolved pull_requests)] = []
                  /\ 2 <= page v)).
Proof.
  intros Hanswer. rewrite pagination_iteration_run. cbv zeta. rewrite Hanswer.
  do 2 eexists. split; [reflexivity|]. split; [reflexivity|].
  cbn [has_more_pages listed_matches flat_map]. rewrite app_nil_r.
  set (filtered := List.filter _ pull_requests).
  assert (Hnil : filtered = [] <-> Z.of_nat (length filtered) = 0).
  { destruct filtered; simpl; split; intros; try done; lia. }
  rewrite Hnil.
  destruct (Z.eqb_spec (Z.of_nat (length filtered)) 0);
    destruct (Z.ltb_spec 2 (page v + 1));
    destruct (Z.eqb_spec (Z.of_nat (length pull_requests)) 100);
    cbn [andb]; intuition (try lia; try discriminate).
Qed.

(** The second page of [stale_second_page]: full, without a match, and
    the loop stops. *)
Lemma zero_match_page_stops_from_page_two_witness :
  exists v' h',
    pagination_iteration stale_second_page repo_r 100 at_page_two empty_heap
    = (Returned v', h')
    /\ page v' = 3
    /\ (has_more_pages v' = true
        <-> length (repeat old_pr 100) = 100%nat
            /\ ~ (listed_matches 100
                    [EvPulls "o" "r" 2 (Resolved (repeat old_pr 100))] = []
                  /\ 2 <= 2)).
Proof.
  exact (zero_match_page_stops_from_page_two stale_second_page repo_r 100
           at_page_two empty_heap (repeat old_pr 100) eq_refl).
Defined.

(** ** Primary path and fallback *)

Lemma listed_matches_app cutoff_date evs evs' :
  listed_matches cutoff_date (evs ++ evs')
  = listed_matches cutoff_date evs ++ listed_matches cutoff_date evs'.
Proof. unfold listed_matches. by rewrite flat_map_app. Qed.

Lemma page_delay_quiet cutoff_date v :
  listed_matches cutoff_date (page_delay v) = []
  /\ existsb is_pulls_request (page_delay v) = false.
Proof. unfold page_delay. by destruct (1 <? page v). Qed.

(** The pagination loop from any state, for any fuel: the events it adds,
    the accumulators it leaves, and that it does not throw. *)
Lemma pagination_loop_trace fuel octokit repo cutoff_date v h :
  let out := pagination_loop fuel octokit repo cutoff_date v h in
  exists new,
    events (snd out) = events h ++ new
    /\ user_stats (snd out)
       = after_listed (listed_matches cutoff_date new) repo cutoff_date
                      (user_stats h)
    /\ (forall e, fst out <> Thrown e)
    /\ (has_more_pages v = true -> fuel <> 0%nat ->
        existsb is_pulls_request new = true).
Proof.
  cbv zeta. revert v h. induction fuel as [|fuel IH]; intros v h; simpl.
  - exists []. rewrite app_nil_r.
    destruct (has_more_pages v); by repeat split.
  - destruct (has_more_pages v) eqn:Hmore.
    2:{ exists []. rewrite app_nil_r. by repeat split. }
    rewrite bind_run, pagination_iteration_run. cbv zeta.
    destruct (page_delay_quiet cutoff_date v) as [Hquiet Hnone].
    set (answer := pulls_of octokit _ _ _ _).
    set (ev := EvPulls (Repository.owner_login repo) (Repository.name repo)
                       (page v) answer).
    assert (Hsplit : forall tail,
               listed_matches cutoff_date (page_delay v ++ ev :: tail)
               = listed_matches cutoff_date [ev]
                 ++ listed_matches cutoff_date tail).
    { intros tail. rewrite listed_matches_app, Hquiet.
      change (ev :: tail) with ([ev] ++ tail). by rewrite listed_matches_app. }
    assert (Hasked : forall tail,
               existsb is_pulls_request (page_delay v ++ ev :: tail) = true).
    { intros tail. rewrite existsb_app. simpl. by rewrite orb_true_r. }
    destruct answer as [prs|e] eqn:Hanswer; [|destruct (is_rate_limit e)];
      match goal with |- context [pagination_loop fuel _ _ _ ?v1 ?h1] =>
        destruct (IH v1 h1) as (new & Hev & Hstats & Hthrow & _) end;
      cbn [events user_stats] in Hev, Hstats.
    + exists (page_delay v ++ ev :: new).
      rewrite Hev, Hstats, Hsplit. unfold after_listed.
      rewrite fold_left_app. cbn [listed_matches flat_map ev]. rewrite app_nil_r.
      repeat split; try done. by rewrite <- !app_assoc.
    + exists (page_delay v ++ ev :: EvSleep 60000 :: new).
      rewrite Hev, Hstats, Hsplit. unfold after_listed.
      rewrite fold_left_app. cbn [listed_matches flat_map ev app].
      repeat split; try done. by rewrite <- !app_assoc.
    + exists (page_delay v ++ ev :: new).
      rewrite Hev, Hstats, Hsplit. unfold after_listed.
      rewrite fold_left_app. cbn [listed_matches flat_map ev app].
      repeat split; try done. by rewrite <- !app_assoc.
Qed.

(** The primary path over the search results: no request, no throw. *)
Lemma processPullRequestsFromSearch_run search_prs repo cutoff_date h :
  processPullRequestsFromSearch search_prs repo cutoff_date h
  = (Returned tt,
     {| events := events h;
        user_stats := after_search search_prs repo cutoff_date (user_stats h);
        processed_commits := processed_commits h |}).
Proof.
  unfold processPullRequestsFromSearch, after_search. cbv zeta.
  revert h. induction search_prs as [|pr prs IH]; intros [evs stats seen].
  - done.
  - cbn [for_each fold_left]. rewrite bind_run, try_catch_run.
    unfold confirmed_for.
    destruct (PullRequest.pull_request_url pr) as [url|]; [|exact (IH _)].
    destruct (PrRepoRegex.exec url) as [[owner name]|]; [|exact (IH _)].
    destruct (_ && _); exact (IH _).
Qed.

(** The fallback step of [processRepositoryPullRequests], run after the
    search was recorded. *)
Lemma fallback_run fuel octokit repo cutoff_date h :
  let out := (do fetchPRsWithPagination (S fuel) octokit repo cutoff_date
              then ret tt) h in
  exists new,
    events (snd out) = events h ++ new
    /\ user_stats (snd out)
       = after_listed (listed_matches cutoff_date new) repo cutoff_date
                      (user_stats h)
    /\ (forall e, fst out <> Thrown e)
    /\ existsb is_pulls_request new = true.
Proof.
  cbv zeta. rewrite bind_run. unfold fetchPRsWithPagination.
  destruct (pagination_loop_trace (S fuel) octokit repo cutoff_date
              {| page := 1; has_more_pages := true; total_prs := 0 |} h)
    as (new & Hev & Hstats & Hthrow & Hasked).
  exists new.
  destruct (pagination_loop (S fuel) octokit repo cutoff_date _ h)
    as [[total|e|] h'];
    cbn [fst snd ret] in *; repeat split; auto; try done.
  by destruct (Hthrow e).
Qed.



(** ** The report *)

Lemma sort_stable_descending {A : Type} (key : A -> Z) (l : list A) :
  stable_descending key l (Js.sort (by_key_desc key) l).
Proof.
  split; [apply sort_Permutation|]. split; [apply sort_sorted|].
  intros k. apply sort_stable.
Qed.

Lemma report_loop_run results report_lines visited :
  report_loop results report_lines visited
  = (report_lines ++ flat_map (fun r => fst (report_installation r)) results,
     visited ++ map (fun r => snd (report_installation r)) results).
Proof.
  revert report_lines visited.
  induction results as [|r results IH]; intros report_lines visited; simpl.
  - by rewrite !app_nil_r.
  - destruct (report_installation r) as [lines r'] eqn:E.
    rewrite IH. simpl. by rewrite <- !app_assoc.
Qed.

Lemma nonempty_length {A : Type} (l : list A) :
  l <> [] -> (0 <? Z.of_nat (length l)) = true.
Proof. destruct l; [done|]. intros _. apply Z.ltb_lt. simpl. lia. Qed.

Lemma report_user_after user : snd (report_user user) = with_sorted_contributions user.
Proof. reflexivity. Qed.

Lemma report_installation_after installation :
  snd (report_installation installation) = sorted_in_place installation.
Proof.
  destruct installation as [s|e]; [|done].
  unfold report_installation, sorted_in_place.
  destruct s as [i a t d users].
  cbn [InstallationStats.user_stats InstallationStats.id InstallationStats.account
       InstallationStats.account_type InstallationStats.period_days].
  destruct users as [|u users]; [done|].
  rewrite nonempty_length by done. cbn [snd]. by rewrite map_map.
Qed.

Lemma with_sorted_contributions_same user :
  same_user user (with_sorted_contributions user).
Proof.
  repeat split. apply (sort_Permutation repo_total).
Qed.

Lemma sorted_in_place_same installation :
  same_installation installation (sorted_in_place installation).
Proof.
  destruct installation as [s|e]; [|done]. simpl. repeat split.
  exists (Js.sort user_cmp (InstallationStats.user_stats s)).
  split; [apply (sort_Permutation user_total)|].
  induction (Js.sort user_cmp (InstallationStats.user_stats s)) as [|u l IH];
    constructor; [apply with_sorted_contributions_same | exact IH].
Qed.

(** C2, as the specification states it, fails: [generateReport] leaves
    the result it is given with its authors, and the repositories of an
    author, in another order. *)
Lemma generateReport_reorders_its_input :
  snd (generateReport [Stats week_stats]) = [Stats week_stats_after]
  /\ [Stats week_stats_after] <> [Stats week_stats].
Proof. split; [vm_compute; reflexivity | discriminate]. Qed.

(** C2, amended. [generateReport] returns the summary text, in which the
    blocks of the installations stand in the order of the results, and
    it keeps the results and their fields, except that it sorts in place
    the [user_stats] array of every success result and the
    [repo_contributions] array of every user of it: the results after the
    call are the results before it up to the order of these arrays. *)
Theorem generateReport_sorts_in_place (results : list InstallationResult) :
  fst (generateReport results)
  = Js.join nl (flat_map (fun r => fst (report_installation r)) results)
  /\ snd (generateReport results) = map sorted_in_place results
  /\ Forall2 same_installation results (snd (generateReport results)).
Proof.
  unfold generateReport. rewrite report_loop_run. cbn [fst snd app].
  assert (Hafter : map (fun r => snd (report_installation r)) results
                   = map sorted_in_place results).
  { apply map_ext, report_installation_after. }
  rewrite Hafter. repeat split. clear Hafter.
  induction results as [|r results IH]; simpl; constructor;
    [apply sorted_in_place_same | exact IH].
Qed.

Lemma period_label_cases :
  period_label 7 = "week" /\ period_label 30 = "month"
  /\ forall n, n <> 7 -> n <> 30 ->
               period_label n = Js.num_to_string n +++ " days".
Proof.
  split; [done|]. split; [done|]. intros n H7 H30. unfold period_label.
  destruct (Z.eqb_spec n 7); [done|]. by destruct (Z.eqb_spec n 30).
Qed.



(** The report of the result of the examples, line by line. *)
Example report_of_week_stats :
  fst (generateReport [Stats week_stats])
  = Js.join nl
      [chart_mark +++ " Statistics for acme (Organization) - Last week:";
       nl +++ person_mark +++ " dave (ID: 42):";
       "  Total: 10 commits, 1 PRs opened, 1 PRs closed";
       "  Contributions by repository:";
       "    - api: 10 commits, 1 PRs opened, 1 PRs closed";
       nl +++ person_mark +++ " carol:";
       "  Total: 3 commits, 1 PRs opened, 1 PRs closed";
       "  Contributions by repository:";
       "    - api: 2 commits, 1 PRs opened, 1 PRs closed";
       "    - docs: 1 commits, 0 PRs opened, 0 PRs closed";
       ""].
Proof. vm_compute. reflexivity. Qed.

(** The order of [Object.entries]: an author whose name is an array
    index is listed before the others, whenever the author was first
    seen. *)
Example entries_list_index_keys_first :
  JsObject.keys (JsObject.set "42" (new_accumulator None)
                   (JsObject.set "alice" (new_accumulator None) JsObject.empty))
  = ["42"; "alice"].
Proof. reflexivity. Qed.

(** ** Authors without a contribution *)

(** C10. There is an input whose result has an author with no commit, no
    pull request opened and none closed, and for that author a repository
    row of three zeros: a repository for which the search returns one
    pull request that was updated after the cutoff, created before it and
    not closed.  The collection pass returns, the author and the row are
    in the installation's statistics, and the report renders both. *)
Theorem author_of_nothing_is_reported :
  exists (octokit : Octokit) (repo : Repository.t) (cutoff_date : Z)
         (pr : PullRequest.t) (stats : JsObject.t AuthorAccumulator),
    search_of octokit [EvBranches (Repository.owner_login repo)
                                  (Repository.name repo) (Resolved [])]
              (Repository.owner_login repo) (Repository.name repo) cutoff_date
    = Resolved {| total_count := 1; items := [pr] |}
    /\ cutoff_date <= PullRequest.updated_at pr
    /\ PullRequest.created_at pr < cutoff_date
    /\ PullRequest.closed_at pr = None
    /\ fst (collectUserStats 1 octokit
                             (filterUpdatedRepositories [repo] cutoff_date)
                             cutoff_date empty_heap)
       = Returned stats
    /\ let result := formatInstallationStats acme 7 stats in
       let zero_row := {| RepoContribution.repo_name := Repository.name repo;
                          RepoContribution.commits := 0;
                          RepoContribution.prs_opened := 0;
                          RepoContribution.prs_closed := 0 |} in
       let zero_author := {| UserStat.name := pr_author_login pr;
                             UserStat.user_id := pr_user_id pr;
                             UserStat.total_commits := 0;
                             UserStat.total_prs_opened := 0;
                             UserStat.total_prs_closed := 0;
                             UserStat.repo_contributions := [zero_row] |} in
       InstallationStats.user_stats result = [zero_author]
       /\ snd (generateReport [Stats result]) = [Stats result]
       /\ fst (generateReport [Stats result])
          = Js.join nl
              [chart_mark +++ " Statistics for acme (Organization) - Last week:";
               nl +++ person_mark +++ " alice (ID: 7):";
               "  Total: 0 commits, 0 PRs opened, 0 PRs closed";
               "  Contributions by repository:";
               "    - r: 0 commits, 0 PRs opened, 0 PRs closed";
               ""].
Proof.
  exists search_finds_stale, repo_r, 100, stale_pr.
  eexists. split; [reflexivity|]. split; [done|]. split; [done|].
  split; [reflexivity|]. split; [vm_compute; reflexivity|].
  cbv zeta. repeat split; vm_compute; reflexivity.
Qed.

(** Sorting in place a result that is sorted changes nothing: results
    that share an array, or users that share one, are rendered and left
    as results and users with arrays of their own. *)
Lemma sorted_in_place_idempotent installation :
  sorted_in_place (sorted_in_place installation) = sorted_in_place installation.
Proof.
  destruct installation as [s|e]; [|done].
  unfold sorted_in_place.
  cbn [InstallationStats.id InstallationStats.account
       InstallationStats.account_type InstallationStats.period_days
       InstallationStats.user_stats].
  do 2 f_equal.
  pose proof (sort_sorted user_total (InstallationStats.user_stats s)) as Hsorted.
  change (by_key_desc user_total) with user_cmp in Hsorted.
  set (l := Js.sort user_cmp (InstallationStats.user_stats s)) in *.
  assert (Hmap : StronglySorted (not_below user_total)
                   (map with_sorted_contributions l)).
  { clearbody l. induction Hsorted as [|u l Hl IH Hu]; simpl; constructor.
    - exact IH.
    - apply List.Forall_forall. intros u' Hin. apply in_map_iff in Hin.
      destruct Hin as (u0 & <- & Hin).
      rewrite List.Forall_forall in Hu. exact (Hu u0 Hin). }
  change user_cmp with (by_key_desc user_total).
  rewrite (sort_sorted_id user_total _ Hmap), map_map.
  apply map_ext. intros u. unfold with_sorted_contributions.
  cbn [UserStat.name UserStat.user_id UserStat.total_commits
       UserStat.total_prs_opened UserStat.total_prs_closed
       UserStat.repo_contributions].
  f_equal. change repo_cmp with (by_key_desc repo_total).
  apply sort_sorted_id, sort_sorted.
Qed.

(** * Further properties *)

(** ** How a property of the accumulators goes through the collectors *)

Section Keeps.
Context {A : Type} (P : JsObject.t AuthorAccumulator -> Prop).

Lemma keeps_P_ret (a : A) : keeps P (ret a).
Proof. by intros h. Qed.

Lemma keeps_P_throw (e : JsError) : keeps P (@throw A e).
Proof. by intros h. Qed.

Lemma keeps_P_pending : keeps P (@pending A).
Proof. by intros h. Qed.

Lemma keeps_P_bind {B : Type} (m : M B) (k : B -> M A) :
  keeps P m -> (forall b, keeps P (k b)) -> keeps P (bind m k).
Proof.
  intros Hm Hk h Hh. unfold bind. specialize (Hm h Hh).
  destruct (m h) as [[b|e|] h']; simpl in *; [by apply Hk | done | done].
Qed.

Lemma keeps_P_try_catch (m : M A) (handler : JsError -> M A) :
  keeps P m -> (forall e, keeps P (handler e)) -> keeps P (try_catch m handler).
Proof.
  intros Hm Hk h Hh. unfold try_catch. specialize (Hm h Hh).
  destruct (m h) as [[a|e|] h']; simpl in *; [done | by apply Hk | done].
Qed.

Lemma keeps_P_request (answer : list Event -> Response A)
  (record : Response A -> Event) : keeps P (request answer record).
Proof. intros h Hh. unfold request. by destruct (answer (events h)). Qed.

Lemma keeps_P_ask (answer : list Event -> Response A) : keeps P (ask answer).
Proof. intros h Hh. unfold ask. by destruct (answer (events h)). Qed.

End Keeps.

Section KeepsCollectors.
Context (P : JsObject.t AuthorAccumulator -> Prop).

Lemma keeps_P_for_each {X : Type} (body : X -> M unit) (l : list X) :
  (forall x, keeps P (body x)) -> keeps P (for_each body l).
Proof.
  intros Hbody. induction l as [|x l IH]; simpl.
  - apply keeps_P_ret.
  - apply keeps_P_bind; [apply Hbody | intros _; exact IH].
Qed.

Lemma keeps_P_sleep (ms : Z) : keeps P (sleep ms).
Proof. by intros h. Qed.

Lemma keeps_P_modify f :
  (forall stats, P stats -> P (f stats)) -> keeps P (modify_user_stats f).
Proof. intros Hf h Hh. by apply Hf. Qed.

Hypothesis P_pull_request :
  forall pr repo_name cutoff_date stats,
    P stats -> P (processPullRequest pr repo_name cutoff_date stats).

Lemma keeps_P_search search_prs repo cutoff_date :
  keeps P (processPullRequestsFromSearch search_prs repo cutoff_date).
Proof.
  unfold processPullRequestsFromSearch. cbv zeta.
  apply keeps_P_for_each. intros pr.
  apply keeps_P_try_catch; [|intros; apply keeps_P_ret].
  destruct (PullRequest.pull_request_url pr) as [url|]; [|apply keeps_P_throw].
  destruct (PrRepoRegex.exec url) as [[owner name]|]; [|apply keeps_P_ret].
  destruct (_ && _); [|apply keeps_P_ret].
  apply keeps_P_modify. intros stats. apply P_pull_request.
Qed.

Lemma keeps_P_iteration octokit repo cutoff_date v :
  keeps P (pagination_iteration octokit repo cutoff_date v).
Proof.
  unfold pagination_iteration. apply keeps_P_try_catch.
  - unfold fetch_page. apply keeps_P_bind.
    { destruct (1 <? page v); [apply keeps_P_sleep | apply keeps_P_ret]. }
    intros _. apply keeps_P_bind; [apply keeps_P_request|].
    intros pull_requests. cbv zeta.
    apply keeps_P_bind; [|intros; apply keeps_P_ret].
    apply keeps_P_for_each. intros pr.
    apply keeps_P_try_catch; [|intros; apply keeps_P_ret].
    apply keeps_P_modify. intros stats.
    rewrite processListedPullRequest_same. apply P_pull_request.
  - intros e. destruct (is_rate_limit e); [|apply keeps_P_ret].
    apply keeps_P_bind; [apply keeps_P_sleep | intros; apply keeps_P_ret].
Qed.

Lemma keeps_P_fallback fuel octokit repo cutoff_date :
  keeps P (fetchPRsWithPagination fuel octokit repo cutoff_date).
Proof.
  unfold fetchPRsWithPagination.
  generalize {| page := 1; has_more_pages := true; total_prs := 0 |}.
  induction fuel as [|fuel IH]; intros v; simpl;
    destruct (has_more_pages v);
    try apply keeps_P_ret; try apply keeps_P_pending.
  apply keeps_P_bind; [apply keeps_P_iteration | exact IH].
Qed.

Lemma keeps_P_pull_requests fuel octokit repo cutoff_date :
  keeps P (processRepositoryPullRequests fuel octokit repo cutoff_date).
Proof.
  unfold processRepositoryPullRequests. cbv zeta.
  assert (Hfb : keeps P (do fetchPRsWithPagination fuel octokit repo cutoff_date
                         then ret tt)).
  { apply keeps_P_bind; [apply keeps_P_fallback | intros; apply keeps_P_ret]. }
  apply keeps_P_try_catch; [|intros; exact Hfb].
  apply keeps_P_bind; [apply keeps_P_request|]. intros data.
  apply keeps_P_bind; [apply keeps_P_search|]. intros _.
  destruct (total_count data =? 0); [exact Hfb | apply keeps_P_ret].
Qed.

Hypothesis P_commit :
  forall repo_name commit stats,
    P stats -> P (count_new_commit repo_name commit stats).

Lemma keeps_P_branches octokit repo since :
  keeps P (processRepositoryBranches octokit repo since).
Proof.
  unfold processRepositoryBranches, getBranches. cbv zeta.
  apply keeps_P_bind; [apply keeps_P_request|]. intros branches.
  apply keeps_P_for_each. intros branch. unfold processBranchCommits.
  apply keeps_P_bind; [apply keeps_P_request|]. intros commits.
  apply keeps_P_for_each. intros commit h Hh. unfold processCommit.
  destruct (bool_decide _); simpl; [done | by apply P_commit].
Qed.

Lemma keeps_P_collect fuel octokit updated_repos cutoff_date h :
  P JsObject.empty ->
  P (user_stats (snd (collectUserStats fuel octokit updated_repos cutoff_date h))).
Proof.
  intros Hempty. unfold collectUserStats.
  set (body := for_each _ updated_repos).
  assert (Hbody : keeps P body).
  { apply keeps_P_for_each. intros repo.
    apply keeps_P_try_catch; [|intros; apply keeps_P_ret].
    apply keeps_P_bind; [by intros h0|]. intros _.
    apply keeps_P_bind; [apply keeps_P_branches|]. intros _.
    apply keeps_P_pull_requests. }
  unfold bind at 1. simpl.
  set (h0 := {| events := events h; user_stats := JsObject.empty;
                processed_commits := processed_commits h |}).
  specialize (Hbody h0 Hempty). unfold bind.
  destruct (body h0) as [[[]|e|] h']; simpl in *; exact Hbody.
Qed.

End KeepsCollectors.

(** ** Accumulators only grow *)

Lemma acc_grows_refl acc : acc_grows acc acc.
Proof. repeat split; intros; lia || done. Qed.

Lemma acc_grows_trans a b c : acc_grows a b -> acc_grows b c -> acc_grows a c.
Proof.
  intros (Hid & H1 & H2 & H3 & H4 & H5 & H6) (Hid' & H1' & H2' & H3' & H4' & H5' & H6').
  split.
  { intros Ht. rewrite Hid', (Hid Ht); [done|]. by rewrite (Hid Ht). }
  repeat split; try lia; intros repo.
  - specialize (H4 repo). specialize (H4' repo). lia.
  - specialize (H5 repo). specialize (H5' repo). lia.
  - specialize (H6 repo). specialize (H6' repo). lia.
Qed.

Lemma grows_refl stats : grows stats stats.
Proof. intros author acc H. exists acc. split; [done | apply acc_grows_refl]. Qed.

Lemma grows_trans a b c : grows a b -> grows b c -> grows a c.
Proof.
  intros Hab Hbc author acc H.
  destruct (Hab author acc H) as (acc' & H' & Hg).
  destruct (Hbc author acc' H') as (acc'' & H'' & Hg').
  exists acc''. split; [done | by eapply acc_grows_trans].
Qed.

Lemma grows_touch_author author uid stats :
  grows stats (touch_author author uid stats).
Proof.
  intros a acc Hget. unfold touch_author.
  destruct (decide (author = a)) as [->|Hne].
  - rewrite Hget.
    destruct (Js.truthy_opt uid && negb (Js.truthy_opt (user_id acc))) eqn:E.
    + eexists. rewrite get_set_eq. split; [done|].
      apply andb_true_iff in E as [_ E]. apply negb_true_iff in E.
      split; [simpl; congruence|].
      repeat split; intros;
        unfold with_user_id, commits_or_zero, pr_field_or_zero; simpl; lia.
    + exists acc. split; [done | apply acc_grows_refl].
  - exists acc. split; [|apply acc_grows_refl].
    destruct (JsObject.get author stats) as [acc0|];
      [destruct (_ && _)|]; try done; by rewrite get_set_ne.
Qed.

Lemma grows_update_author author f stats :
  (forall acc, acc_grows acc (f acc)) ->
  grows stats (update_author author f stats).
Proof.
  intros Hf a acc Hget.
  destruct (decide (author = a)) as [->|Hne].
  - exists (f acc). split; [by apply update_author_get | apply Hf].
  - exists acc. split; [|apply acc_grows_refl].
    by rewrite update_author_other.
Qed.

Lemma commit_update_user_id repo_name acc :
  user_id (commit_update repo_name acc) = user_id acc
  /\ pull_requests_by_repo (commit_update repo_name acc)
     = pull_requests_by_repo acc
  /\ total_prs_opened (commit_update repo_name acc) = total_prs_opened acc
  /\ total_prs_closed (commit_update repo_name acc) = total_prs_closed acc.
Proof.
  unfold commit_update, count_commit, init_commit_count.
  by destruct (match JsObject.get repo_name (commits_by_repo acc) with
               | Some n => n =? 0 | None => true end).
Qed.

Lemma pr_update_user_id pr repo_name cutoff_date acc :
  user_id (pr_update pr repo_name cutoff_date acc) = user_id acc.
Proof.
  unfold pr_update, count_opened, count_closed, init_pr_counts. cbv zeta.
  destruct (JsObject.get repo_name (pull_requests_by_repo acc));
    destruct (cutoff_date <=? PullRequest.created_at pr);
    destruct (PullRequest.closed_at pr) as [t|];
    try destruct (cutoff_date <=? t); reflexivity.
Qed.

Lemma acc_grows_commit_update repo_name acc :
  acc_grows acc (commit_update repo_name acc).
Proof.
  destruct (commit_update_user_id repo_name acc) as (Hid & Hprs & Ho & Hc).
  split; [by intros _|].
  rewrite commit_update_total, Ho, Hc.
  repeat split; try lia; intros repo.
  - rewrite commit_update_commits. destruct (decide _); lia.
  - unfold pr_field_or_zero. rewrite Hprs. lia.
  - unfold pr_field_or_zero. rewrite Hprs. lia.
Qed.

Lemma increments_nonnegative pr cutoff_date :
  0 <= opened_increment pr cutoff_date <= 1
  /\ 0 <= closed_increment pr cutoff_date <= 1.
Proof.
  unfold opened_increment, closed_increment.
  destruct (decide _); destruct (PullRequest.closed_at pr) as [t|];
    try destruct (decide _); lia.
Qed.

Lemma acc_grows_pr_update pr repo_name cutoff_date acc :
  acc_grows acc (pr_update pr repo_name cutoff_date acc).
Proof.
  pose proof (pr_update_state pr repo_name cutoff_date acc)
    as [He Hother Ho Hc Hcm Htc _].
  destruct (increments_nonnegative pr cutoff_date) as [Hoi Hci].
  split; [intros _; apply pr_update_user_id|].
  repeat split; try lia; intros repo.
  - unfold commits_or_zero. rewrite Hcm. lia.
  - destruct (decide (repo = repo_name)) as [->|Hne].
    + unfold pr_field_or_zero at 2. rewrite He. simpl. lia.
    + unfold pr_field_or_zero. rewrite (Hother repo Hne). lia.
  - destruct (decide (repo = repo_name)) as [->|Hne].
    + unfold pr_field_or_zero at 2. rewrite He. simpl. lia.
    + unfold pr_field_or_zero. rewrite (Hother repo Hne). lia.
Qed.

Lemma grows_count_new_commit repo_name commit stats :
  grows stats (count_new_commit repo_name commit stats).
Proof.
  rewrite count_new_commit_shape.
  eapply grows_trans; [apply grows_touch_author|].
  apply grows_update_author, acc_grows_commit_update.
Qed.

Lemma grows_processPullRequest pr repo_name cutoff_date stats :
  grows stats (processPullRequest pr repo_name cutoff_date stats).
Proof.
  rewrite processPullRequest_shape.
  eapply grows_trans; [apply grows_touch_author|].
  apply grows_update_author, acc_grows_pr_update.
Qed.

(** X1. Nothing is taken back during the collection for a repository:
    after the branch walk, and after the pull request step (wherever its
    pagination loop stands), every author that was in [user_stats] is
    still there, with a user id that was set unchanged and with no
    counter, total or per repository, lower than before. *)
Theorem collectors_never_take_back (fuel : nat) (octokit : Octokit)
  (repo : Repository.t) (cutoff_date : Z) (h : Heap) :
  grows (user_stats h)
        (user_stats (snd (processRepositoryBranches octokit repo cutoff_date h)))
  /\ grows (user_stats h)
           (user_stats (snd (processRepositoryPullRequests fuel octokit repo
                                                           cutoff_date h))).
Proof.
  split.
  - apply (keeps_P_branches (grows (user_stats h))); [|apply grows_refl].
    intros r c stats Hs. eapply grows_trans; [exact Hs|].
    apply grows_count_new_commit.
  - apply (keeps_P_pull_requests (grows (user_stats h))); [|apply grows_refl].
    intros pr r c stats Hs. eapply grows_trans; [exact Hs|].
    apply grows_processPullRequest.
Qed.

(** ** The user id of an author *)

Lemma or_null_shape (x : option Js.Id) :
  Js.or_null x = None \/ Js.truthy_opt (Js.or_null x) = true.
Proof.
  unfold Js.or_null, Js.or_id. destruct x as [i|]; [|by left].
  destruct (Js.truthy_id i) eqn:E; [right; exact E | by left].
Qed.

Lemma commit_user_id_shape commit :
  commit_user_id commit = None \/ Js.truthy_opt (commit_user_id commit) = true.
Proof.
  unfold commit_user_id.
  destruct (Commit.user (Commit.author commit)); [apply or_null_shape | by left].
Qed.

Lemma pr_user_id_shape pr :
  pr_user_id pr = None \/ Js.truthy_opt (pr_user_id pr) = true.
Proof.
  unfold pr_user_id.
  destruct (PullRequest.user pr); [apply or_null_shape | by left].
Qed.

Lemma touch_author_user_id author uid stats :
  uid = None \/ Js.truthy_opt uid = true ->
  exists acc,
    JsObject.get author (touch_author author uid stats) = Some acc
    /\ user_id acc = first_id_wins (user_id (accumulator_of stats author)) uid.
Proof.
  intros Huid. unfold touch_author, accumulator_of, first_id_wins.
  destruct (JsObject.get author stats) as [acc|] eqn:E.
  - destruct (Js.truthy_opt (user_id acc)) eqn:Hold.
    + rewrite andb_false_r. by exists acc.
    + rewrite andb_true_r. destruct (Js.truthy_opt uid) eqn:Hnew.
      * eexists. by rewrite get_set_eq.
      * by exists acc.
  - eexists. rewrite get_set_eq. split; [done|]. simpl.
    destruct Huid as [-> | ->]; done.
Qed.


(** ** Keys occur once *)

Lemma In_keys_set {V : Type} k (v : V) (o : JsObject.t V) x :
  In x (map fst (JsObject.set k v o)) <-> x = k \/ In x (map fst o).
Proof.
  induction o as [|[k' v'] o IH]; simpl.
  - split; [intros [<-|[]]; by left | intros [->|[]]; by left].
  - destruct (String.eqb_spec k k') as [->|Hne]; simpl.
    + split; [tauto | intros [->|H]; tauto].
    + rewrite IH. split; [tauto | intros [->|H]; tauto].
Qed.

Lemma keys_unique_set {V : Type} k (v : V) (o : JsObject.t V) :
  keys_unique o -> keys_unique (JsObject.set k v o).
Proof.
  unfold keys_unique. induction o as [|[k' v'] o IH]; simpl; intros Hu.
  - constructor; [by intros [] | constructor].
  - inversion Hu as [|? ? Hk' Ho]; subst.
    destruct (String.eqb_spec k k') as [->|Hne]; simpl; [by constructor|].
    constructor; [|by apply IH].
    rewrite In_keys_set. intros [->|H]; [done | by apply Hk'].
Qed.

Lemma get_None_not_key {V : Type} k (o : JsObject.t V) :
  JsObject.get k o = None <-> ~ In k (map fst o).
Proof.
  induction o as [|[k' v'] o IH]; simpl; [tauto|].
  destruct (String.eqb_spec k k') as [->|Hne].
  - split; [done | intros H; destruct H; by left].
  - rewrite IH. split; [intros H [Heq|Hin]; [congruence | tauto] | tauto].
Qed.

Lemma commit_update_keys repo_name acc :
  keys_unique (commits_by_repo acc) ->
  keys_unique (commits_by_repo (commit_update repo_name acc)).
Proof.
  intros Hu. unfold commit_update.
  assert (Hinit : keys_unique (commits_by_repo (init_commit_count repo_name acc))).
  { unfold init_commit_count.
    destruct (match JsObject.get repo_name (commits_by_repo acc) with
              | Some n => n =? 0 | None => true end); simpl;
      [by apply keys_unique_set | done]. }
  unfold count_commit. simpl.
  destruct (JsObject.get repo_name _); [by apply keys_unique_set | done].
Qed.

Lemma pr_update_keys pr repo_name cutoff_date acc :
  keys_unique (pull_requests_by_repo acc) ->
  keys_unique (pull_requests_by_repo (pr_update pr repo_name cutoff_date acc)).
Proof.
  intros Hu. unfold pr_update. cbv zeta.
  assert (H0 : keys_unique (pull_requests_by_repo (init_pr_counts repo_name acc))).
  { unfold init_pr_counts.
    destruct (JsObject.get repo_name (pull_requests_by_repo acc)); simpl;
      [done | by apply keys_unique_set]. }
  assert (Hopened : forall a, keys_unique (pull_requests_by_repo a) ->
                              keys_unique (pull_requests_by_repo
                                             (count_opened repo_name a))).
  { intros a Ha. unfold count_opened. simpl.
    destruct (JsObject.get repo_name _); [by apply keys_unique_set | done]. }
  assert (Hclosed : forall a, keys_unique (pull_requests_by_repo a) ->
                              keys_unique (pull_requests_by_repo
                                             (count_closed repo_name a))).
  { intros a Ha. unfold count_closed. simpl.
    destruct (JsObject.get repo_name _); [by apply keys_unique_set | done]. }
  destruct (cutoff_date <=? PullRequest.created_at pr);
    destruct (PullRequest.closed_at pr) as [t|];
    try destruct (cutoff_date <=? t); auto.
Qed.

Lemma well_keyed_touch_author author uid stats :
  well_keyed stats -> well_keyed (touch_author author uid stats).
Proof.
  intros [Hk Hf]. unfold touch_author.
  destruct (JsObject.get author stats) as [acc|] eqn:E.
  - destruct (_ && _); [|done]. split; [by apply keys_unique_set|].
    apply Forall_set; [done|]. intros k; simpl.
    destruct (Forall_get _ _ _ _ Hf E) as [k0 H]. exact H.
  - split; [by apply keys_unique_set|].
    apply Forall_set; [done|]. intros k; simpl. split; constructor.
Qed.

Lemma well_keyed_update_author author f stats :
  (forall acc,
     keys_unique (commits_by_repo acc)
     /\ keys_unique (pull_requests_by_repo acc) ->
     keys_unique (commits_by_repo (f acc))
     /\ keys_unique (pull_requests_by_repo (f acc))) ->
  well_keyed stats -> well_keyed (update_author author f stats).
Proof.
  intros Hf [Hk Hall]. unfold update_author.
  destruct (JsObject.get author stats) as [acc|] eqn:E; [|done].
  split; [by apply keys_unique_set|].
  apply Forall_set; [done|]. intros k; simpl. apply Hf.
  destruct (Forall_get _ _ _ _ Hall E) as [k0 H]. exact H.
Qed.

Lemma well_keyed_count_new_commit repo_name commit stats :
  well_keyed stats -> well_keyed (count_new_commit repo_name commit stats).
Proof.
  intros H. rewrite count_new_commit_shape.
  apply well_keyed_update_author; [|by apply well_keyed_touch_author].
  intros acc [Hc Hp]. split; [by apply commit_update_keys|].
  by destruct (commit_update_user_id repo_name acc) as (_ & -> & _).
Qed.

Lemma well_keyed_processPullRequest pr repo_name cutoff_date stats :
  well_keyed stats -> well_keyed (processPullRequest pr repo_name cutoff_date stats).
Proof.
  intros H. rewrite processPullRequest_shape.
  apply well_keyed_update_author; [|by apply well_keyed_touch_author].
  intros acc [Hc Hp]. split; [|by apply pr_update_keys].
  by rewrite (st_commits _ _ _ _ _ (pr_update_state pr repo_name cutoff_date acc)).
Qed.

(** What a collection pass returns has the sum invariant, and no key
    twice. *)
Lemma collectUserStats_sound fuel octokit updated_repos cutoff_date h :
  let stats := user_stats (snd (collectUserStats fuel octokit updated_repos
                                                 cutoff_date h)) in
  sum_invariant stats /\ well_keyed stats.
Proof.
  cbv zeta.
  apply (keeps_P_collect (fun stats => sum_invariant stats /\ well_keyed stats)).
  - intros pr r c stats [Hs Hw].
    split; [by apply processPullRequest_invariant
           | by apply well_keyed_processPullRequest].
  - intros r c stats [Hs Hw].
    split; [by apply count_new_commit_invariant
           | by apply well_keyed_count_new_commit].
  - split; [constructor | split; constructor].
Qed.

(** ** The statistics of an installation *)

Lemma js_insert_Permutation {A : Type} (cmp : A -> A -> Z) x l :
  Permutation (x :: l) (Js.insert cmp x l).
Proof.
  induction l as [|y l IH]; simpl; [done|].
  destruct (cmp x y <=? 0); [done|].
  rewrite perm_swap. by constructor.
Qed.

Lemma js_sort_Permutation {A : Type} (cmp : A -> A -> Z) l :
  Permutation l (Js.sort cmp l).
Proof.
  induction l as [|x l IH]; simpl; [done|].
  rewrite <- js_insert_Permutation. by constructor.
Qed.

Lemma filter_partition_Permutation {A : Type} (f : A -> bool) (l : list A) :
  Permutation (List.filter f l ++ List.filter (fun x => negb (f x)) l) l.
Proof.
  induction l as [|x l IH]; simpl; [done|].
  destruct (f x); simpl.
  - by constructor.
  - rewrite <- Permutation_middle. by constructor.
Qed.

(** [Object.entries] lists every property once. *)
Lemma entries_Permutation {V : Type} (o : JsObject.t V) :
  Permutation (JsObject.entries o) o.
Proof.
  unfold JsObject.entries.
  rewrite <- (js_sort_Permutation JsObject.index_cmp).
  apply filter_partition_Permutation.
Qed.

Lemma keys_Permutation {V : Type} (o : JsObject.t V) :
  Permutation (JsObject.keys o) (map fst o).
Proof. unfold JsObject.keys. apply Permutation_map, entries_Permutation. Qed.

Lemma existsb_eqb_In k (seen : list string) :
  existsb (String.eqb k) seen = true <-> In k seen.
Proof.
  rewrite existsb_exists. split.
  - intros (x & Hin & Heq). apply String.eqb_eq in Heq. by subst.
  - intros Hin. exists k. split; [done | apply String.eqb_refl].
Qed.

Lemma set_of_keys_In seen keys x :
  In x (set_of_keys seen keys) <-> In x keys /\ ~ In x seen.
Proof.
  revert seen. induction keys as [|k keys IH]; intros seen; simpl; [tauto|].
  destruct (existsb (String.eqb k) seen) eqn:E.
  - apply existsb_eqb_In in E. rewrite IH.
    split; [tauto | intros [[->|H] Hn]; tauto].
  - assert (Hk : ~ In k seen).
    { intros H. apply existsb_eqb_In in H. congruence. }
    simpl. rewrite IH. simpl. split.
    + intros [<-|[H Hn]]; [tauto | tauto].
    + intros [[<-|H] Hn]; [by left|].
      destruct (decide (k = x)) as [->|Hne]; [by left | right; tauto].
Qed.

Lemma set_of_keys_NoDup seen keys : List.NoDup (set_of_keys seen keys).
Proof.
  revert seen. induction keys as [|k keys IH]; intros seen; simpl; [constructor|].
  destruct (existsb (String.eqb k) seen); [apply IH|].
  constructor; [|apply IH].
  rewrite set_of_keys_In. simpl. tauto.
Qed.

Lemma sum_Z_app l l' : sum_Z (l ++ l') = sum_Z l + sum_Z l'.
Proof. induction l as [|x l IH]; simpl; lia. Qed.

(** Summing the values of a dictionary over a list of keys that has
    every key of the dictionary, and none twice, gives the sum of the
    values. *)
Lemma sum_over_keys {V : Type} (f : V -> Z) (o : JsObject.t V)
  (keys : list string) :
  keys_unique o -> List.NoDup keys ->
  (forall k, In k (map fst o) -> In k keys) ->
  sum_Z (map (lookup_or_zero f o) keys) = sum_Z (map f (JsObject.values o)).
Proof.
  unfold keys_unique. revert keys.
  induction o as [|[k0 v0] o IH]; intros keys Hu Hnd Hall; simpl.
  - induction keys as [|k keys IHk]; simpl; [done|].
    inversion Hnd; subst. rewrite IHk; [done | done | by intros k' []].
  - inversion Hu as [|? ? Hk0 Ho]; subst.
    destruct (in_split k0 keys (Hall k0 (or_introl eq_refl))) as (l1 & l2 & ->).
    apply NoDup_remove in Hnd as [Hnd Hnot].
    assert (Hsame : forall l, ~ In k0 l ->
               map (lookup_or_zero f ((k0, v0) :: o)) l
               = map (lookup_or_zero f o) l).
    { intros l Hl. apply map_ext_in. intros k Hin.
      unfold lookup_or_zero. simpl.
      destruct (String.eqb_spec k k0) as [->|]; [done | done]. }
    rewrite map_app, sum_Z_app. simpl.
    rewrite !Hsame by (intros H; apply Hnot, in_or_app; tauto).
    unfold lookup_or_zero at 2. simpl. rewrite String.eqb_refl.
    rewrite <- (IH (l1 ++ l2) Ho Hnd).
    + rewrite map_app, sum_Z_app. lia.
    + intros k Hin. specialize (Hall k (or_intror Hin)).
      apply in_app_or in Hall as [H|[<-|H]]; apply in_or_app; tauto.
Qed.

Lemma format_user_rows entry :
  UserStat.repo_contributions (format_user entry)
  = map (row_of (snd entry))
        (set_of_keys [] (JsObject.keys (commits_by_repo (snd entry))
                           ++ JsObject.keys (pull_requests_by_repo (snd entry)))).
Proof. by destruct entry. Qed.

Lemma repo_set_In acc repo :
  In repo (set_of_keys [] (JsObject.keys (commits_by_repo acc)
                             ++ JsObject.keys (pull_requests_by_repo acc)))
  <-> In repo (map fst (commits_by_repo acc))
      \/ In repo (map fst (pull_requests_by_repo acc)).
Proof.
  rewrite set_of_keys_In, in_app_iff. simpl.
  split.
  - intros [[H|H] _]; [left | right];
      exact (Permutation_in _ (keys_Permutation _) H).
  - intros [H|H]; (split; [|tauto]); [left | right];
      exact (Permutation_in _ (Permutation_sym (keys_Permutation _)) H).
Qed.

Lemma format_user_adds_up entry :
  sums_agree (snd entry) ->
  keys_unique (commits_by_repo (snd entry)) ->
  keys_unique (pull_requests_by_repo (snd entry)) ->
  rows_add_up (format_user entry).
Proof.
  intros (Hc & Ho & Hcl) Hkc Hkp. unfold rows_add_up.
  rewrite format_user_rows. destruct entry as [user_name acc]. simpl in *.
  set (repos := set_of_keys [] _).
  assert (Hnd : List.NoDup repos) by apply set_of_keys_NoDup.
  assert (Hin : forall r, In r repos <-> _) by (intros r; apply repo_set_In).
  rewrite !map_map. simpl.
  change (fun x => commits_or_zero acc x)
    with (lookup_or_zero id (commits_by_repo acc)).
  change (fun x => pr_field_or_zero opened acc x)
    with (lookup_or_zero opened (pull_requests_by_repo acc)).
  change (fun x => pr_field_or_zero closed acc x)
    with (lookup_or_zero closed (pull_requests_by_repo acc)).
  rewrite !sum_over_keys; try done; intros k Hk; apply Hin; tauto.
Qed.

Lemma collectUserStats_returns fuel octokit updated_repos cutoff_date h stats :
  fst (collectUserStats fuel octokit updated_repos cutoff_date h) = Returned stats ->
  stats = user_stats (snd (collectUserStats fuel octokit updated_repos
                                            cutoff_date h)).
Proof.
  unfold collectUserStats. rewrite !bind_run.
  destruct (modify_user_stats _ h) as [[[]|e|] h0]; simpl; try done.
  rewrite bind_run.
  destruct (for_each _ updated_repos h0) as [[[]|e|] h1]; simpl; try done.
  by intros [= <-].
Qed.

Lemma formatted_rows_add_up installation days stats :
  sum_invariant stats -> well_keyed stats ->
  Forall rows_add_up
         (InstallationStats.user_stats
            (formatInstallationStats installation days stats)).
Proof.
  intros Hsum [_ Hkeys]. unfold formatInstallationStats. simpl.
  apply List.Forall_forall. intros user Hin.
  apply in_map_iff in Hin as (entry & <- & Hin).
  apply (Permutation_in _ (entries_Permutation stats)) in Hin.
  unfold sum_invariant in Hsum. rewrite List.Forall_forall in Hsum, Hkeys.
  destruct (Hkeys entry Hin) as [Hc Hp].
  by apply format_user_adds_up; [apply Hsum| |].
Qed.



(** X4. The statistics of an installation have one user per author of
    the dictionary, with the author's id and totals; the rows of a user
    name every repository that is in the author's commit counters or in
    the author's pull request counters, each once, and the row of a
    repository has the author's three counters for it, zero for a counter
    that is missing. *)
Theorem result_lists_every_author_and_repository
  (installation : Installation.t) (days : Z)
  (stats : JsObject.t AuthorAccumulator) :
  let result := formatInstallationStats installation days stats in
  Permutation (map UserStat.name (InstallationStats.user_stats result))
              (map fst stats)
  /\ forall author acc,
       In (author, acc) stats ->
       exists user,
         In user (InstallationStats.user_stats result)
         /\ UserStat.name user = author
         /\ UserStat.user_id user = user_id acc
         /\ UserStat.total_commits user = total_commits acc
         /\ UserStat.total_prs_opened user = total_prs_opened acc
         /\ UserStat.total_prs_closed user = total_prs_closed acc
         /\ List.NoDup (map RepoContribution.repo_name
                            (UserStat.repo_contributions user))
         /\ (forall repo,
               In repo (map RepoContribution.repo_name
                            (UserStat.repo_contributions user))
               <-> In repo (map fst (commits_by_repo acc))
                   \/ In repo (map fst (pull_requests_by_repo acc)))
         /\ (forall row,
               In row (UserStat.repo_contributions user) ->
               row = row_of acc (RepoContribution.repo_name row)).
Proof.
  cbv zeta. unfold formatInstallationStats. simpl. split.
  - rewrite map_map.
    rewrite (map_ext (fun entry => UserStat.name (format_user entry)) fst)
      by (by intros []).
    apply Permutation_map, entries_Permutation.
  - intros author acc Hin. exists (format_user (author, acc)).
    split.
    { apply in_map.
      exact (Permutation_in _ (Permutation_sym (entries_Permutation stats)) Hin). }
    rewrite format_user_rows. simpl.
    repeat split; try done.
    + rewrite map_map. simpl. rewrite map_id. apply set_of_keys_NoDup.
    + rewrite map_map. simpl. rewrite map_id. apply repo_set_In.
    + rewrite map_map. simpl. rewrite map_id. apply repo_set_In.
    + intros row Hrow. apply in_map_iff in Hrow as (repo & <- & _). done.
Qed.

(** ** Commits and pull requests are counted apart *)

Lemma processPullRequest_commit_side pr repo_name cutoff_date stats :
  same_commit_counters stats (processPullRequest pr repo_name cutoff_date stats).
Proof.
  intros author repo. unfold repo_commits, author_commits.
  destruct (decide (author = pr_author_login pr)) as [->|Hne].
  - destruct (processPullRequest_accumulator pr repo_name cutoff_date stats)
      as (base & (Hc & _ & Ht & _) & ->).
    pose proof (pr_update_state pr repo_name cutoff_date base)
      as [_ _ _ _ Hcm Htc _].
    unfold commits_or_zero. by rewrite Hcm, Htc, Hc, Ht.
  - by rewrite processPullRequest_other_author.
Qed.

Lemma count_new_commit_pr_side repo_name commit stats :
  same_pr_counters stats (count_new_commit repo_name commit stats).
Proof.
  intros author repo. rewrite count_new_commit_shape.
  unfold repo_prs_opened, repo_prs_closed, author_prs_opened, author_prs_closed.
  destruct (decide (author = commit_author_login commit)) as [->|Hne].
  - destruct (touch_author_get (commit_author_login commit)
                (commit_user_id commit) stats)
      as (base & Hget & (_ & Hp & _ & Ho & Hc)).
    unfold accumulator_of at 1 3 5 7.
    rewrite (update_author_get _ _ _ _ Hget).
    destruct (commit_update_user_id repo_name base) as (_ & Hp' & Ho' & Hc').
    unfold pr_field_or_zero. by rewrite Hp', Ho', Hc', Hp, Ho, Hc.
  - unfold accumulator_of.
    by rewrite update_author_other, touch_author_other by congruence.
Qed.

(** X5. The two collectors of a repository do not touch each other's
    counters: the pull request step, wherever its pagination loop stands,
    leaves every commit counter and commit total as it was, and the
    branch walk leaves every opened and closed counter and total as it
    was. *)
Theorem commits_and_pull_requests_counted_apart (fuel : nat)
  (octokit : Octokit) (repo : Repository.t) (cutoff_date : Z) (h : Heap) :
  same_commit_counters
    (user_stats h)
    (user_stats (snd (processRepositoryPullRequests fuel octokit repo
                                                    cutoff_date h)))
  /\ same_pr_counters
       (user_stats h)
       (user_stats (snd (processRepositoryBranches octokit repo cutoff_date h))).
Proof.
  split.
  - apply (keeps_P_pull_requests (same_commit_counters (user_stats h)));
      [|by intros a r].
    intros pr r c stats Hs author repo0.
    destruct (processPullRequest_commit_side pr r c stats author repo0)
      as [-> ->].
    apply Hs.
  - apply (keeps_P_branches (same_pr_counters (user_stats h)));
      [|by intros a r].
    intros r c stats Hs author repo0.
    destruct (count_new_commit_pr_side r c stats author repo0)
      as (-> & -> & -> & ->).
    apply Hs.
Qed.

(** ** The counters after a list of pull requests *)

Lemma fold_processPullRequest_counts pull_requests repo_name cutoff_date
  stats author :
  let stats' := fold_left (fun stats pr =>
                             processPullRequest pr repo_name cutoff_date stats)
                          pull_requests stats in
  repo_prs_opened stats' author repo_name
  = repo_prs_opened stats author repo_name
    + opened_in_window author cutoff_date pull_requests
  /\ author_prs_opened stats' author
     = author_prs_opened stats author
       + opened_in_window author cutoff_date pull_requests
  /\ repo_prs_closed stats' author repo_name
     = repo_prs_closed stats author repo_name
       + closed_in_window author cutoff_date pull_requests
  /\ author_prs_closed stats' author
     = author_prs_closed stats author
       + closed_in_window author cutoff_date pull_requests.
Proof.
  cbv zeta. revert stats.
  induction pull_requests as [|pr prs IH]; intros stats.
  - unfold opened_in_window, closed_in_window. simpl. lia.
  - cbn [fold_left].
    destruct (IH (processPullRequest pr repo_name cutoff_date stats))
      as (-> & -> & -> & ->).
    unfold opened_in_window, closed_in_window. cbn [List.filter].
    destruct (String.eqb_spec (pr_author_login pr) author) as [<-|Hne].
    + destruct (processPullRequest_counts pr repo_name cutoff_date stats)
        as (-> & -> & -> & -> & _).
      unfold opened_increment, closed_increment. cbn [andb].
      destruct (Z.leb_spec cutoff_date (PullRequest.created_at pr));
        [rewrite decide_True by lia | rewrite decide_False by lia];
        destruct (PullRequest.closed_at pr) as [t|];
        try (destruct (Z.leb_spec cutoff_date t);
             [rewrite decide_True by lia | rewrite decide_False by lia]);
        cbn [length]; lia.
    + cbn [andb].
      unfold repo_prs_opened, repo_prs_closed, author_prs_opened,
        author_prs_closed.
      rewrite processPullRequest_other_author by congruence. lia.
Qed.

Lemma after_listed_fold pull_requests repo cutoff_date stats :
  after_listed pull_requests repo cutoff_date stats
  = fold_left (fun stats pr =>
                 processPullRequest pr (Repository.name repo) cutoff_date stats)
              pull_requests stats.
Proof. reflexivity. Qed.

Lemma after_search_fold search_prs repo cutoff_date stats :
  after_search search_prs repo cutoff_date stats
  = fold_left (fun stats pr =>
                 processPullRequest pr (Repository.name repo) cutoff_date stats)
              (List.filter (confirmed_for repo) search_prs) stats.
Proof.
  unfold after_search. revert stats.
  induction search_prs as [|pr prs IH]; intros stats; simpl; [done|].
  destruct (confirmed_for repo pr); simpl; apply IH.
Qed.


(** ** How the pagination loop ends, and when it does not *)

Lemma pagination_loop_done fuel octokit repo cutoff_date v h :
  has_more_pages v = false ->
  pagination_loop fuel octokit repo cutoff_date v h = (Returned (total_prs v), h).
Proof. intros H. destruct fuel; simpl; by rewrite H. Qed.

(** X7. The pagination loop ends at the first request that is rejected
    with an error other than a rate-limit error, keeping the accumulators
    and returning the count so far, and at the first page that does not
    have exactly 100 items, returning the count with the matches of that
    page. *)
Theorem pagination_stops (fuel : nat) (octokit : Octokit) (repo : Repository.t)
  (cutoff_date : Z) (v : PageLoop) (h : Heap) :
  has_more_pages v = true ->
  stops_now fuel octokit repo cutoff_date v h.
Proof.
  intros Hmore. unfold stops_now. cbv zeta. cbn [pagination_loop].
  rewrite Hmore, bind_run, pagination_iteration_run. cbv zeta. split.
  - intros error -> ->. by rewrite pagination_loop_done.
  - intros pull_requests -> Hlen.
    rewrite pagination_loop_done.
    + cbn [fst snd events total_prs listed_matches flat_map].
      by rewrite app_nil_r.
    + cbn [has_more_pages]. destruct (_ && _); [done|].
      apply Z.eqb_neq. lia.
Qed.

(** A pulls endpoint that answers with a server error. *)
Lemma pagination_stops_witness :
  stops_now 0 pulls_broken repo_r 100 at_page_one empty_heap.
Proof. apply pagination_stops. reflexivity. Defined.

Lemma requested_pages_app evs evs' :
  requested_pages (evs ++ evs') = requested_pages evs ++ requested_pages evs'.
Proof. unfold requested_pages. by rewrite flat_map_app. Qed.

Lemma page_delay_no_request v : requested_pages (page_delay v) = [].
Proof. unfold page_delay. by destruct (1 <? page v). Qed.

Lemma rate_limited_loop fuel octokit repo cutoff_date v h :
  always_rate_limited octokit repo ->
  has_more_pages v = true ->
  let out := pagination_loop fuel octokit repo cutoff_date v h in
  fst out = Pending
  /\ user_stats (snd out) = user_stats h
  /\ exists new,
       events (snd out) = events h ++ new
       /\ requested_pages new
          = map (fun i => page v - Z.of_nat i) (seq 0 fuel).
Proof.
  intros Hlimited. cbv zeta. revert v h.
  induction fuel as [|fuel IH]; intros v h Hmore; cbn [pagination_loop];
    rewrite Hmore.
  - repeat split. exists []. by rewrite app_nil_r.
  - rewrite bind_run, pagination_iteration_run. cbv zeta.
    destruct (Hlimited (events h ++ page_delay v) (page v))
      as (error & -> & ->).
    match goal with |- context [pagination_loop fuel _ _ _ ?v1 ?h1] =>
      destruct (IH v1 h1 Hmore) as (Hpending & Hstats & new & Hev & Hpages) end.
    cbn [events user_stats page] in Hev, Hstats, Hpages.
    split; [exact Hpending|]. split; [exact Hstats|].
    eexists. split; [rewrite Hev, <- !app_assoc; reflexivity|].
    rewrite !requested_pages_app, page_delay_no_request.
    cbn [requested_pages flat_map app seq map]. rewrite Hpages.
    f_equal; [lia|]. rewrite <- seq_shift, map_map.
    apply map_ext. intros i. lia.
Qed.

(** X8. When every request to the pulls endpoint is rejected with a
    rate-limit error, the paginated fallback never returns: after any
    number of iterations it is still running, it has counted nothing, and
    the pages it has asked for are 1, 0, -1, -2, ... in turn. *)
Theorem rate_limit_retries_without_end (fuel : nat) (octokit : Octokit)
  (repo : Repository.t) (cutoff_date : Z) (h : Heap) :
  always_rate_limited octokit repo ->
  retries_forever fuel octokit repo cutoff_date h.
Proof.
  intros Hlimited. unfold retries_forever, fetchPRsWithPagination.
  by apply (rate_limited_loop fuel octokit repo cutoff_date
              {| page := 1; has_more_pages := true; total_prs := 0 |} h).
Qed.

(** Three iterations against an endpoint that is rate limited for good. *)
Lemma rate_limit_retries_without_end_witness :
  retries_forever 3 always_limited repo_r 100 empty_heap.
Proof.
  apply rate_limit_retries_without_end.
  intros tr page. exists rate_limit_error. split; reflexivity.
Defined.

Lemma pagination_loop_total fuel octokit repo cutoff_date v h :
  let out := pagination_loop fuel octokit repo cutoff_date v h in
  exists new,
    events (snd out) = events h ++ new
    /\ user_stats (snd out)
       = after_listed (listed_matches cutoff_date new) repo cutoff_date
                      (user_stats h)
    /\ forall total,
         fst out = Returned total ->
         total = total_prs v
                 + Z.of_nat (length (listed_matches cutoff_date new)).
Proof.
  cbv zeta. revert v h. induction fuel as [|fuel IH]; intros v h;
    cbn [pagination_loop]; destruct (has_more_pages v) eqn:Hmore;
    try (exists []; rewrite app_nil_r; repeat split; try done;
         intros total [= <-]; simpl; lia).
  rewrite bind_run, pagination_iteration_run. cbv zeta.
  destruct (page_delay_quiet cutoff_date v) as [Hquiet _].
  set (answer := pulls_of octokit _ _ _ _).
  set (ev := EvPulls (Repository.owner_login repo) (Repository.name repo)
                     (page v) answer).
  destruct answer as [prs|e] eqn:Hanswer; [|destruct (is_rate_limit e)];
    match goal with |- context [pagination_loop fuel _ _ _ ?v1 ?h1] =>
      destruct (IH v1 h1) as (new & Hev & Hstats & Htotal) end;
    cbn [events user_stats total_prs] in Hev, Hstats, Htotal.
  - exists (page_delay v ++ ev :: new).
    split; [by rewrite Hev, <- !app_assoc|].
    rewrite listed_matches_app, Hquiet.
    change (ev :: new) with ([ev] ++ new). rewrite listed_matches_app.
    cbn [listed_matches flat_map ev app]. rewrite app_nil_r.
    split.
    + rewrite Hstats. unfold after_listed. by rewrite fold_left_app.
    + intros total Hret. rewrite (Htotal total Hret), length_app. lia.
  - exists (page_delay v ++ ev :: EvSleep 60000 :: new).
    split; [by rewrite Hev, <- !app_assoc|].
    rewrite listed_matches_app, Hquiet.
    change (ev :: EvSleep 60000 :: new) with ([ev; EvSleep 60000] ++ new).
    rewrite listed_matches_app. cbn [listed_matches flat_map ev app].
    split; [exact Hstats | exact Htotal].
  - exists (page_delay v ++ ev :: new).
    split; [by rewrite Hev, <- !app_assoc|].
    rewrite listed_matches_app, Hquiet.
    change (ev :: new) with ([ev] ++ new). rewrite listed_matches_app.
    cbn [listed_matches flat_map ev app].
    split; [exact Hstats | exact Htotal].
Qed.



(** ** What throws and what does not *)

Lemma never_throws_ret {A : Type} (a : A) : never_throws (ret a).
Proof. by intros h e. Qed.

Lemma never_throws_bind {A B : Type} (m : M A) (k : A -> M B) :
  never_throws m -> (forall a, never_throws (k a)) -> never_throws (bind m k).
Proof.
  intros Hm Hk h e. rewrite bind_run. specialize (Hm h).
  destruct (m h) as [[a|e'|] h']; simpl in *; [apply Hk | by destruct (Hm e') | done].
Qed.

Lemma never_throws_try_catch {A : Type} (m : M A) (handler : JsError -> M A) :
  (forall e, never_throws (handler e)) -> never_throws (try_catch m handler).
Proof.
  intros Hk h e. rewrite try_catch_run.
  destruct (m h) as [[a|e'|] h']; simpl; [done | apply Hk | done].
Qed.

Lemma never_throws_for_each {X : Type} (body : X -> M unit) (l : list X) :
  (forall x, never_throws (body x)) -> never_throws (for_each body l).
Proof.
  intros Hbody. induction l as [|x l IH]; simpl.
  - apply never_throws_ret.
  - apply never_throws_bind; [apply Hbody | intros _; exact IH].
Qed.

Lemma never_throws_search search_prs repo cutoff_date :
  never_throws (processPullRequestsFromSearch search_prs repo cutoff_date).
Proof.
  intros h e. by rewrite processPullRequestsFromSearch_run.
Qed.

Lemma never_throws_fallback fuel octokit repo cutoff_date :
  never_throws (fetchPRsWithPagination fuel octokit repo cutoff_date).
Proof.
  intros h e. unfold fetchPRsWithPagination.
  by destruct (pagination_loop_trace fuel octokit repo cutoff_date
                 {| page := 1; has_more_pages := true; total_prs := 0 |} h)
    as (new & _ & _ & Hthrow & _).
Qed.

Lemma never_throws_pull_requests fuel octokit repo cutoff_date :
  never_throws (processRepositoryPullRequests fuel octokit repo cutoff_date).
Proof.
  unfold processRepositoryPullRequests. cbv zeta.
  apply never_throws_try_catch. intros _.
  apply never_throws_bind; [apply never_throws_fallback|].
  intros _. apply never_throws_ret.
Qed.

Lemma collectUserStats_unfold fuel octokit updated_repos cutoff_date :
  collectUserStats fuel octokit updated_repos cutoff_date
  = (do modify_user_stats (fun _ => JsObject.empty) then
     do for_each (collect_repository fuel octokit cutoff_date) updated_repos then
     fun h => (Returned (user_stats h), h)).
Proof. reflexivity. Qed.

Lemma never_throws_collect_repository fuel octokit cutoff_date repo :
  never_throws (collect_repository fuel octokit cutoff_date repo).
Proof. apply never_throws_try_catch. intros _. apply never_throws_ret. Qed.

(** X10. A failure of the network does not get out of a collection pass:
    [collectUserStats] never throws, whatever the requests answer, and
    neither do the pull request step of a repository, the paginated
    fallback and the search path. *)
Theorem collection_never_throws (fuel : nat) (octokit : Octokit)
  (updated_repos : list Repository.t) (cutoff_date : Z)
  (repo : Repository.t) (items : list PullRequest.t) :
  never_throws (collectUserStats fuel octokit updated_repos cutoff_date)
  /\ never_throws (processRepositoryPullRequests fuel octokit repo cutoff_date)
  /\ never_throws (fetchPRsWithPagination fuel octokit repo cutoff_date)
  /\ never_throws (processPullRequestsFromSearch items repo cutoff_date).
Proof.
  split; [|split; [apply never_throws_pull_requests
                  |split; [apply never_throws_fallback
                          |apply never_throws_search]]].
  rewrite collectUserStats_unfold.
  apply never_throws_bind; [by intros h e|]. intros _.
  apply never_throws_bind.
  - apply never_throws_for_each. intros r. apply never_throws_collect_repository.
  - intros _ h e. done.
Qed.

(** ** A repository whose commits cannot be fetched *)

Lemma commit_walk_events octokit owner_login repo_name since branches h :
  exists new,
    events (snd (for_each
                   (fun branch => processBranchCommits octokit owner_login
                                    repo_name branch since)
                   branches h))
    = events h ++ new
    /\ forallb is_commit_request new = true.
Proof.
  revert h. induction branches as [|branch branches IH]; intros h.
  - exists []. by rewrite app_nil_r.
  - cbn [for_each]. rewrite bind_run, processBranchCommits_run. cbv zeta.
    destruct (history_of _ _ _ _ _ _) as [commits|e].
    + match goal with |- context [for_each _ branches ?h1] =>
        destruct (IH h1) as (new & Hev & Hall) end.
      cbn [events] in Hev. eexists. rewrite Hev, <- app_assoc.
      split; [reflexivity|]. simpl. exact Hall.
    + eexists. split; [reflexivity | reflexivity].
Qed.

Lemma branch_walk_events octokit repo since h :
  exists new,
    events (snd (processRepositoryBranches octokit repo since h))
    = events h ++ new
    /\ forallb is_commit_request new = true.
Proof.
  unfold processRepositoryBranches, getBranches. cbv zeta.
  rewrite bind_run. unfold request.
  destruct (branches_of _ _ _ _) as [branches|e].
  - match goal with |- context [for_each ?body branches ?h1] =>
      destruct (commit_walk_events octokit (Repository.owner_login repo)
                  (Repository.name repo) since branches h1)
        as (new & Hev & Hall) end.
    cbn [events] in Hev. eexists. rewrite Hev, <- app_assoc.
    split; [reflexivity|]. simpl. exact Hall.
  - eexists. split; [reflexivity | reflexivity].
Qed.

(** X11. The collection for a repository stands or falls with its branch
    walk.  The walk makes branch and history requests only.  When it
    throws, because a listing of the branches or a history was rejected,
    the collection for the repository ends there without a throw: the
    commits counted up to the failure stay counted, and no request for
    the pull requests of the repository is made.  When the walk returns,
    the collection goes on with the pull request step. *)
Theorem failed_branch_walk_skips_pull_requests (fuel : nat) (octokit : Octokit)
  (cutoff_date : Z) (repo : Repository.t) (h : Heap) :
  let walk := processRepositoryBranches octokit repo cutoff_date
                                        (with_new_seen_set h) in
  (exists new,
     events (snd walk) = events h ++ new
     /\ forallb is_commit_request new = true)
  /\ (forall e,
        fst walk = Thrown e ->
        collect_repository fuel octokit cutoff_date repo h
        = (Returned tt, snd walk))
  /\ (fst walk = Returned tt ->
      collect_repository fuel octokit cutoff_date repo h
      = processRepositoryPullRequests fuel octokit repo cutoff_date (snd walk)).
Proof.
  cbv zeta. split; [apply (branch_walk_events octokit repo cutoff_date
                             (with_new_seen_set h))|].
  unfold collect_repository. rewrite try_catch_run, bind_run.
  change (new_processed_commits h) with (Returned tt, with_new_seen_set h).
  cbv iota beta. rewrite bind_run.
  destruct (processRepositoryBranches octokit repo cutoff_date
              (with_new_seen_set h)) as [[[]|e|] h1]; cbn [fst snd].
  - split; [done|]. intros _.
    pose proof (never_throws_pull_requests fuel octokit repo cutoff_date h1)
      as Hnever.
    destruct (processRepositoryPullRequests fuel octokit repo cutoff_date h1)
      as [[[]|e|] h2]; [done | by destruct (Hnever e) | done].
  - split; [by intros e' [= <-] | done].
  - split; done.
Qed.

(** ** The search path *)

(** X12. The search path skips what it cannot confirm.  Going through
    the search results changes the accumulators as going through the
    results confirmed for the repository alone does: a result without a
    [pull_request] member, or whose URL does not carry the owner and the
    name of the repository, is passed over, and the results after it are
    still processed.  The path makes no request and does not throw. *)
Theorem search_path_skips_unconfirmed (search_prs : list PullRequest.t)
  (repo : Repository.t) (cutoff_date : Z) (h : Heap) :
  processPullRequestsFromSearch search_prs repo cutoff_date h
  = processPullRequestsFromSearch (List.filter (confirmed_for repo) search_prs)
                                  repo cutoff_date h
  /\ fst (processPullRequestsFromSearch search_prs repo cutoff_date h)
     = Returned tt
  /\ events (snd (processPullRequestsFromSearch search_prs repo cutoff_date h))
     = events h
  /\ (forall pr,
        In pr search_prs ->
        PullRequest.pull_request_url pr = None ->
        ~ In pr (List.filter (confirmed_for repo) search_prs)).
Proof.
  rewrite !processPullRequestsFromSearch_run. repeat split.
  - do 2 f_equal. rewrite !after_search_fold. f_equal.
    symmetry. by apply filter_filter_absorb.
  - intros pr _ Hurl Hin. apply filter_In in Hin as [_ Hc].
    unfold confirmed_for in Hc. by rewrite Hurl in Hc.
Qed.

(** ** The pattern of the search path *)

Lemma append_cons c (a b : string) : String c a +++ b = String c (a +++ b).
Proof. reflexivity. Qed.

Lemma append_nil (b : string) : "" +++ b = b.
Proof. reflexivity. Qed.

Ltac push_append := rewrite ?append_cons, ?append_nil.

Lemma literal_Some lit s rest :
  PrRepoRegex.literal lit s = Some rest -> s = lit +++ rest.
Proof.
  revert s. induction lit as [|a lit IH]; intros s; cbn [PrRepoRegex.literal].
  - by intros [= ->].
  - destruct s as [|b s]; [done|].
    destruct (Ascii.eqb_spec a b) as [->|]; [|done].
    intros H. push_append. by rewrite (IH s H).
Qed.

Lemma literal_append lit rest :
  PrRepoRegex.literal lit (lit +++ rest) = Some rest.
Proof.
  induction lit as [|a lit IH]; push_append; cbn [PrRepoRegex.literal];
    [by destruct rest|].
  by rewrite Ascii.eqb_refl.
Qed.

Lemma segment_spec s :
  s = fst (PrRepoRegex.segment s) +++ snd (PrRepoRegex.segment s)
  /\ has_slash (fst (PrRepoRegex.segment s)) = false.
Proof.
  induction s as [|c s [IH1 IH2]]; cbn [PrRepoRegex.segment]; [done|].
  destruct (PrRepoRegex.is_slash c) eqn:E; cbn [fst snd]; [done|].
  destruct (PrRepoRegex.segment s) as [seg rest]; cbn [fst snd has_slash] in *.
  rewrite E. push_append. split; [by rewrite <- IH1 | exact IH2].
Qed.

Lemma segment_append seg rest :
  has_slash seg = false ->
  PrRepoRegex.segment (seg +++ String "/" rest) = (seg, String "/" rest).
Proof.
  induction seg as [|c seg IH]; push_append; cbn [PrRepoRegex.segment has_slash];
    [done|].
  intros H. apply orb_false_iff in H as [Hc Hs].
  by rewrite Hc, (IH Hs).
Qed.

Lemma match_here_sound s owner repo :
  PrRepoRegex.match_here s = Some (owner, repo) ->
  names_repository s owner repo.
Proof.
  unfold PrRepoRegex.match_here.
  destruct (PrRepoRegex.literal "/repos/" s) as [s1|] eqn:E1; [|done].
  pose proof (segment_spec s1) as [Hs1 Ho].
  destruct (PrRepoRegex.segment s1) as [o s2]; simpl in Hs1, Ho.
  destruct (String.eqb_spec o "") as [|Hne]; [done|].
  destruct (PrRepoRegex.literal "/" s2) as [s3|] eqn:E2; [|done].
  pose proof (segment_spec s3) as [Hs3 Hr].
  destruct (PrRepoRegex.segment s3) as [r s4]; simpl in Hs3, Hr.
  destruct (String.eqb_spec r "") as [|Hne']; [done|].
  destruct (PrRepoRegex.literal "/pulls/" s4) as [[|d after]|] eqn:E3; try done.
  destruct (PrRepoRegex.is_digit d) eqn:Ed; [|done].
  intros [= <- <-].
  exists "", (String d after).
  apply literal_Some in E1, E2, E3.
  split; [|by repeat split].
  rewrite E1, Hs1, E2, Hs3, E3. reflexivity.
Qed.

Lemma exec_sound url owner repo :
  PrRepoRegex.exec url = Some (owner, repo) -> names_repository url owner repo.
Proof.
  induction url as [|c url IH].
  - cbn [PrRepoRegex.exec].
    destruct (PrRepoRegex.match_here "") as [g|] eqn:E; [|done].
    intros [= ->]. by apply match_here_sound.
  - cbn [PrRepoRegex.exec].
    destruct (PrRepoRegex.match_here (String c url)) as [g|] eqn:E.
    + intros [= ->]. by apply match_here_sound.
    + intros H. destruct (IH H) as (before & number & -> & Hrest).
      exists (String c before), number. split; [reflexivity | exact Hrest].
Qed.

(** X13. A search result that the search path counts for a repository
    has a URL that names the pull requests of that repository: the URL
    contains [/repos/<owner>/<name>/pulls/] followed by a digit, with the
    owner and the name of the repository. *)
Theorem confirmed_url_names_repository (repo : Repository.t)
  (pr : PullRequest.t) :
  confirmed_for repo pr = true ->
  exists url,
    PullRequest.pull_request_url pr = Some url
    /\ names_repository url (Repository.owner_login repo) (Repository.name repo).
Proof.
  unfold confirmed_for.
  destruct (PullRequest.pull_request_url pr) as [url|]; [|done].
  destruct (PrRepoRegex.exec url) as [[owner name]|] eqn:E; [|done].
  intros H. apply andb_true_iff in H as [Ho Hn].
  apply String.eqb_eq in Ho, Hn. subst.
  exists url. split; [done | by apply exec_sound].
Qed.

(** The pull request the search of the examples returns. *)
Lemma confirmed_url_names_repository_witness :
  exists url,
    PullRequest.pull_request_url stale_pr = Some url
    /\ names_repository url "o" "r".
Proof. apply (confirmed_url_names_repository repo_r stale_pr). reflexivity. Defined.

Lemma match_here_complete owner repo number :
  owner <> "" -> repo <> "" ->
  has_slash owner = false -> has_slash repo = false ->
  starts_with_digit number = true ->
  PrRepoRegex.match_here
    ("/repos/" +++ owner +++ "/" +++ repo +++ "/pulls/" +++ number)
  = Some (owner, repo).
Proof.
  intros Ho Hr Hso Hsr Hd. unfold PrRepoRegex.match_here.
  rewrite literal_append.
  change ("/" +++ repo +++ "/pulls/" +++ number)
    with (String "/" (repo +++ "/pulls/" +++ number)).
  rewrite (segment_append owner _ Hso).
  destruct (String.eqb_spec owner "") as [|_]; [done|].
  change (PrRepoRegex.literal "/" (String "/" ?s)) with (Some s).
  cbv iota beta.
  change ("/pulls/" +++ number) with (String "/" ("pulls/" +++ number)).
  rewrite (segment_append repo _ Hsr).
  destruct (String.eqb_spec repo "") as [|_]; [done|].
  change (String "/" ("pulls/" +++ number)) with ("/pulls/" +++ number).
  rewrite literal_append.
  destruct number as [|d number]; [done|]. simpl in Hd. by rewrite Hd.
Qed.

Lemma exec_skip c s :
  PrRepoRegex.literal "/repos/" (String c s) = None ->
  PrRepoRegex.exec (String c s) = PrRepoRegex.exec s.
Proof.
  intros H. cbn [PrRepoRegex.exec]. unfold PrRepoRegex.match_here at 1.
  by rewrite H.
Qed.

Lemma exec_here s groups :
  PrRepoRegex.match_here s = Some groups -> PrRepoRegex.exec s = Some groups.
Proof. intros H. destruct s; cbn [PrRepoRegex.exec]; by rewrite H. Qed.

Lemma exec_api_pull_url owner repo number :
  owner <> "" -> repo <> "" ->
  has_slash owner = false -> has_slash repo = false ->
  starts_with_digit number = true ->
  PrRepoRegex.exec (api_pull_url owner repo number) = Some (owner, repo).
Proof.
  intros Ho Hr Hso Hsr Hd. unfold api_pull_url.
  change ("https://api.github.com/repos/" +++ ?s)
    with ("https://api.github.com" +++ "/repos/" +++ s).
  push_append.
  do 22 (rewrite exec_skip by reflexivity).
  apply exec_here.
  exact (match_here_complete owner repo number Ho Hr Hso Hsr Hd).
Qed.

(** X14. A search result with the API URL of a pull request, where the
    owner and the name in the URL are not empty and have no [/] and the
    number starts with a digit, is counted for a repository exactly when
    the owner and the name in the URL are the owner and the name of the
    repository, letter for letter. *)
Theorem api_url_confirmed_for_its_repository (owner repo number : string)
  (target : Repository.t) (pr : PullRequest.t) :
  owner <> "" -> repo <> "" ->
  has_slash owner = false -> has_slash repo = false ->
  starts_with_digit number = true ->
  PullRequest.pull_request_url pr = Some (api_pull_url owner repo number) ->
  confirmed_for target pr
  = String.eqb owner (Repository.owner_login target)
    && String.eqb repo (Repository.name target).
Proof.
  intros Ho Hr Hso Hsr Hd Hurl. unfold confirmed_for.
  by rewrite Hurl, exec_api_pull_url.
Qed.

(** The pull request the search of the examples returns, for its
    repository. *)
Lemma api_url_confirmed_for_its_repository_witness :
  confirmed_for repo_r stale_pr
  = String.eqb "o" (Repository.owner_login repo_r)
    && String.eqb "r" (Repository.name repo_r).
Proof.
  apply (api_url_confirmed_for_its_repository "o" "r" "1" repo_r stale_pr);
    done || reflexivity.
Defined.

(** ** The report, once more *)

Lemma sorted_users_stay l :
  Js.sort user_cmp (map with_sorted_contributions (Js.sort user_cmp l))
  = map with_sorted_contributions (Js.sort user_cmp l).
Proof.
  pose proof (sort_sorted user_total l) as Hsorted.
  change (by_key_desc user_total) with user_cmp in Hsorted.
  set (sorted := Js.sort user_cmp l) in *. clearbody sorted.
  change user_cmp with (by_key_desc user_total).
  apply sort_sorted_id.
  induction Hsorted as [|u us Hus IH Hu]; simpl; constructor; [exact IH|].
  apply List.Forall_forall. intros u' Hin. apply in_map_iff in Hin.
  destruct Hin as (u0 & <- & Hin).
  rewrite List.Forall_forall in Hu. exact (Hu u0 Hin).
Qed.

Lemma sorted_rows_stay rows :
  Js.sort repo_cmp (Js.sort repo_cmp rows) = Js.sort repo_cmp rows.
Proof.
  change repo_cmp with (by_key_desc repo_total).
  apply sort_sorted_id, sort_sorted.
Qed.

Lemma report_user_of_sorted user :
  report_user (with_sorted_contributions user)
  = (fst (report_user user), with_sorted_contributions user).
Proof.
  unfold report_user, with_sorted_contributions.
  cbn [UserStat.name UserStat.user_id UserStat.total_commits
       UserStat.total_prs_opened UserStat.total_prs_closed
       UserStat.repo_contributions fst].
  by rewrite sorted_rows_stay.
Qed.

Lemma report_installation_of_sorted installation :
  report_installation (sorted_in_place installation)
  = (fst (report_installation installation), sorted_in_place installation).
Proof.
  destruct installation as [s|e]; [|done].
  destruct s as [i a t d users].
  unfold sorted_in_place, report_installation.
  cbn [InstallationStats.id InstallationStats.account
       InstallationStats.account_type InstallationStats.period_days
       InstallationStats.user_stats].
  destruct users as [|u users]; [done|].
  set (users' := map with_sorted_contributions (Js.sort user_cmp (u :: users))).
  assert (Hlen : length users' = length (u :: users)).
  { unfold users'. rewrite length_map.
    symmetry. apply Permutation_length, (js_sort_Permutation user_cmp). }
  assert (Hne : users' <> []).
  { intros H. rewrite H in Hlen. done. }
  rewrite (nonempty_length users' Hne), (nonempty_length (u :: users)) by done.
  unfold users'. rewrite sorted_users_stay.
  rewrite !map_map. cbn [fst].
  rewrite (map_ext (fun x => fst (report_user (with_sorted_contributions x)))
                   (fun x => fst (report_user x)))
    by (intros x; by rewrite report_user_of_sorted).
  do 2 f_equal. f_equal.
  apply map_ext. intros x. by rewrite report_user_of_sorted.
Qed.

Lemma generateReport_closed results :
  generateReport results
  = (Js.join nl (flat_map (fun r => fst (report_installation r)) results),
     map sorted_in_place results).
Proof.
  unfold generateReport. rewrite report_loop_run. cbn [app]. f_equal.
  apply map_ext, report_installation_after.
Qed.

Lemma generateReport_of_sorted results :
  generateReport (map sorted_in_place results) = generateReport results.
Proof.
  rewrite !generateReport_closed. f_equal.
  - f_equal. rewrite flat_map_concat_map, map_map, <- flat_map_concat_map.
    apply flat_map_ext. intros r. by rewrite report_installation_of_sorted.
  - rewrite map_map. apply map_ext, sorted_in_place_idempotent.
Qed.

(** X15. Rendering is repeatable.  [generateReport] applied to the
    results as a first call left them returns the same text, and leaves
    them as they are. *)
Theorem generateReport_twice (results : list InstallationResult) :
  generateReport (snd (generateReport results)) = generateReport results.
Proof.
  replace (snd (generateReport results)) with (map sorted_in_place results)
    by (by rewrite generateReport_closed).
  apply generateReport_of_sorted.
Qed.

(** ** Orchestrator *)

Lemma sum_Z_Permutation l l' : Permutation l l' -> sum_Z l = sum_Z l'.
Proof.
  induction 1; simpl; try lia.
Qed.

Lemma rows_add_up_sorted user :
  rows_add_up user -> rows_add_up (with_sorted_contributions user).
Proof.
  unfold rows_add_up, with_sorted_contributions.
  cbn [UserStat.total_commits UserStat.total_prs_opened
       UserStat.total_prs_closed UserStat.repo_contributions].
  intros (Hc & Ho & Hcl).
  pose proof (js_sort_Permutation repo_cmp (UserStat.repo_contributions user))
    as Hperm.
  rewrite Hc, Ho, Hcl.
  repeat split; apply sum_Z_Permutation, Permutation_map, Hperm.
Qed.

Lemma result_for_sorted days installation result :
  result_for days installation result ->
  result_for days installation (sorted_in_place result).
Proof.
  destruct result as [s|e]; [|done].
  unfold result_for, sorted_in_place.
  cbn [InstallationStats.id InstallationStats.account
       InstallationStats.account_type InstallationStats.period_days
       InstallationStats.user_stats].
  intros (Hid & Ha & Ht & Hd & Hrows). repeat split; try done.
  apply List.Forall_forall. intros user Hin.
  apply in_map_iff in Hin as (user0 & <- & Hin).
  apply rows_add_up_sorted.
  rewrite List.Forall_forall in Hrows. apply Hrows.
  exact (Permutation_in _ (Permutation_sym (js_sort_Permutation user_cmp _)) Hin).
Qed.

Lemma sorted_in_place_order result : in_report_order (sorted_in_place result).
Proof.
  destruct result as [s|e]; [|done].
  unfold in_report_order, sorted_in_place.
  cbn [InstallationStats.user_stats]. split.
  - pose proof (sort_sorted user_total (InstallationStats.user_stats s))
      as Hsorted.
    change (by_key_desc user_total) with user_cmp in Hsorted.
    induction Hsorted as [|u us Hus IH Hu]; simpl; constructor; [exact IH|].
    apply List.Forall_forall. intros u' Hin.
    apply in_map_iff in Hin as (u0 & <- & Hin).
    rewrite List.Forall_forall in Hu. exact (Hu u0 Hin).
  - apply List.Forall_forall. intros user Hin.
    apply in_map_iff in Hin as (user0 & <- & _).
    unfold with_sorted_contributions. cbn [UserStat.repo_contributions].
    apply (sort_sorted repo_total).
Qed.

Lemma ask_run {A : Type} (answer : list Event -> Response A) h :
  ask answer h
  = match answer (events h) with
    | Resolved a => (Returned a, h)
    | Rejected e => (Thrown e, h)
    end.
Proof. reflexivity. Qed.

(** The result of one installation. *)
Lemma process_installation_result fuel app days installation h :
  match fst (process_installation fuel app days installation h) with
  | Returned result => result_for days installation result
  | Thrown _ => False
  | Pending => True
  end.
Proof.
  unfold process_installation. rewrite try_catch_run, bind_run.
  unfold getInstallationOctokit. rewrite ask_run.
  destruct (access_of app (events h) (Installation.id installation))
    as [access|e]; cbn [fst snd]; [|done].
  rewrite bind_run. unfold getRepositories. rewrite ask_run.
  destruct (repositories_of access (events h)) as [repos|e]; cbn [fst snd];
    [|done].
  rewrite bind_run. unfold current_date. cbn [fst snd].
  rewrite bind_run.
  set (cutoff := calculateCutoffDate (clock app (events h)) days).
  set (updated := filterUpdatedRepositories repos cutoff).
  pose proof (collectUserStats_returns fuel (access_octokit access) updated
                cutoff h) as Hret.
  pose proof (collectUserStats_sound fuel (access_octokit access) updated
                cutoff h) as [Hsum Hkeys].
  destruct (collectUserStats fuel (access_octokit access) updated cutoff h)
    as [[stats|e|] h']; cbn [fst snd] in *; [|done|done].
  rewrite (Hret stats eq_refl).
  unfold result_for. repeat split.
  by apply formatted_rows_add_up.
Qed.

Lemma installations_loop_results fuel app days installations results h :
  match fst (installations_loop fuel app days installations results h) with
  | Returned out =>
      exists pushed, out = results ++ pushed
                     /\ Forall2 (result_for days) installations pushed
  | Thrown _ => False
  | Pending => True
  end.
Proof.
  revert results h.
  induction installations as [|installation installations IH];
    intros results h; simpl.
  - exists []. split; [by rewrite app_nil_r | constructor].
  - rewrite bind_run.
    pose proof (process_installation_result fuel app days installation h)
      as Hone.
    destruct (process_installation fuel app days installation h)
      as [[result|e|] h']; cbn [fst snd] in *; [|done|done].
    specialize (IH (results ++ [result]) h').
    destruct (fst (installations_loop fuel app days installations
                                      (results ++ [result]) h'))
      as [out|e|]; [|done|done].
    destruct IH as (pushed & -> & Hall).
    exists (result :: pushed). split; [by rewrite <- app_assoc|].
    by constructor.
Qed.

Lemma processInstallations_results fuel app installations days h :
  match fst (processInstallations fuel app installations days h) with
  | Returned results => Forall2 (result_for days) installations results
  | Thrown _ => False
  | Pending => True
  end.
Proof.
  unfold processInstallations.
  pose proof (installations_loop_results fuel app days installations [] h)
    as Hloop.
  destruct (fst (installations_loop fuel app days installations [] h))
    as [out|e|]; [|done|done].
  by destruct Hloop as (pushed & -> & Hall).
Qed.


(** X17. An installation that cannot be reached costs its own record
    only.  When the access to an installation is refused, or its
    repository listing fails, the loop body of [processInstallations]
    returns the error record of the installation with the message of the
    failure, and leaves the state as it was: no request of the collectors
    is made for it. *)
Theorem unreachable_installation_is_recorded (fuel : nat) (app : App)
  (days : Z) (installation : Installation.t) (h : Heap) (e : JsError) :
  access_of app (events h) (Installation.id installation) = Rejected e
  \/ (exists access,
        access_of app (events h) (Installation.id installation)
        = Resolved access
        /\ repositories_of access (events h) = Rejected e) ->
  process_installation fuel app days installation h
  = (Returned (failure_of installation e), h).
Proof.
  intros [Hacc | (access & Hacc & Hrepos)];
    unfold process_installation; rewrite try_catch_run, bind_run;
    unfold getInstallationOctokit; rewrite ask_run, Hacc; cbn [fst snd];
    [done|].
  rewrite bind_run. unfold getRepositories. rewrite ask_run, Hrepos.
  done.
Qed.

Lemma unreachable_installation_is_recorded_witness :
  process_installation 1 two_installations 7 globex empty_heap
  = (Returned (failure_of globex server_error), empty_heap).
Proof.
  apply (unreachable_installation_is_recorded 1 two_installations 7 globex
           empty_heap server_error).
  left. reflexivity.
Defined.

Lemma generateGitHubReport_run fuel app config h :
  generateGitHubReport fuel app config h
  = match installations_of app (events h) with
    | Rejected e => (Thrown e, h)
    | Resolved installations =>
        match processInstallations fuel app installations
                (default 7 (days_to_look_back config)) h with
        | (Returned results, h') =>
            (Returned {| summary := fst (generateReport results);
                         detailed_results := snd (generateReport results) |},
             h')
        | (Thrown e, h') => (Thrown e, h')
        | (Pending, h') => (Pending, h')
        end
    end.
Proof.
  unfold generateGitHubReport. cbv zeta.
  rewrite try_catch_run, bind_run. unfold getInstallations. rewrite ask_run.
  replace (match days_to_look_back config with
           | Some days => days
           | None => 7
           end) with (default 7 (days_to_look_back config))
    by (by destruct (days_to_look_back config)).
  destruct (installations_of app (events h)) as [installations|e];
    cbn [fst snd]; [|done].
  rewrite bind_run.
  destruct (processInstallations fuel app installations
              (default 7 (days_to_look_back config)) h)
    as [[results|e|] h']; cbn [fst snd]; [|done|done].
  by destruct (generateReport results) as [report results'].
Qed.



(** ** The window of the repository filter *)

Lemma calculateCutoffDate_antitone now days1 days2 :
  days1 <= days2 ->
  calculateCutoffDate now days2 <= calculateCutoffDate now days1.
Proof. unfold calculateCutoffDate. lia. Qed.

(** X19. A longer window never loses a repository.  For one instant of
    the clock, the repositories kept for a number of days are kept for
    any larger number of days, in the same order: filtering for the
    shorter window what the longer window kept gives what the shorter
    window keeps of the whole list.  Looking back zero days keeps the
    repositories whose latest activity is not before the clock. *)
Theorem longer_window_keeps_more (repos : list Repository.t)
  (now days1 days2 : Z) :
  days1 <= days2 ->
  filterUpdatedRepositories
    (filterUpdatedRepositories repos (calculateCutoffDate now days2))
    (calculateCutoffDate now days1)
  = filterUpdatedRepositories repos (calculateCutoffDate now days1)
  /\ sublist (filterUpdatedRepositories repos (calculateCutoffDate now days1))
             (filterUpdatedRepositories repos (calculateCutoffDate now days2))
  /\ filterUpdatedRepositories repos (calculateCutoffDate now 0)
     = List.filter (fun repo => now <=? latest_activity repo) repos.
Proof.
  intros Hdays.
  pose proof (calculateCutoffDate_antitone now days1 days2 Hdays) as Hcut.
  assert (Hnest :
            filterUpdatedRepositories
              (filterUpdatedRepositories repos (calculateCutoffDate now days2))
              (calculateCutoffDate now days1)
            = filterUpdatedRepositories repos (calculateCutoffDate now days1)).
  { unfold filterUpdatedRepositories. apply filter_filter_absorb.
    intros repo H. apply Z.leb_le. apply Z.leb_le in H. lia. }
  split; [exact Hnest|split].
  - rewrite <- Hnest. apply filter_sublist.
  - unfold calculateCutoffDate. by rewrite Z.mul_0_l, Z.sub_0_r.
Qed.

Lemma longer_window_keeps_more_witness :
  7 <= 30
  /\ sublist (filterUpdatedRepositories [repo_r] (calculateCutoffDate 200 7))
             (filterUpdatedRepositories [repo_r] (calculateCutoffDate 200 30)).
Proof.
  split; [lia|].
  apply (longer_window_keeps_more [repo_r] 200 7 30). lia.
Defined.

(** ** Logger *)

Lemma invoke_config call logger :
  Logger.config (invoke call logger) = Logger.config logger
  /\ Logger.signale_scope (invoke call logger) = Logger.signale_scope logger
  /\ Logger.signale_disabled (invoke call logger)
     = Logger.signale_disabled logger
  /\ Logger.signale_interactive (invoke call logger)
     = Logger.signale_interactive logger.
Proof.
  destruct call; simpl;
    unfold Logger.debug, Logger.info, Logger.warn, Logger.error, Logger.time,
      Logger.timeEnd;
    repeat match goal with
           | |- context [if ?b then _ else _] => destruct b
           end; done.
Qed.

Lemma invoke_calls call logger :
  exists new, Logger.calls (invoke call logger) = Logger.calls logger ++ new
              /\ (length new <= 1)%nat.
Proof.
  destruct call; simpl;
    unfold Logger.debug, Logger.info, Logger.warn, Logger.error, Logger.time,
      Logger.timeEnd;
    repeat match goal with
           | |- context [if ?b then _ else _] => destruct b
           end;
    first [ by eexists [_]; split; [reflexivity | simpl; lia]
          | by exists []; split; [by rewrite app_nil_r | simpl; lia] ].
Qed.

Lemma invoke_all_snoc program call logger :
  invoke_all (program ++ [call]) logger
  = invoke call (invoke_all program logger).
Proof. unfold invoke_all. by rewrite fold_left_app. Qed.

(** X20. The calls of a program on a logger leave its configuration and
    the options of its Signale instance as the constructor set them,
    take back no call already made on that instance, and add at most one
    call each. *)
Theorem logger_keeps_configuration (program : list Invocation)
  (logger : Logger.t) :
  Logger.config (invoke_all program logger) = Logger.config logger
  /\ Logger.signale_scope (invoke_all program logger)
     = Logger.signale_scope logger
  /\ Logger.signale_disabled (invoke_all program logger)
     = Logger.signale_disabled logger
  /\ Logger.signale_interactive (invoke_all program logger)
     = Logger.signale_interactive logger
  /\ exists new,
       Logger.calls (invoke_all program logger) = Logger.calls logger ++ new
       /\ (length new <= length program)%nat.
Proof.
  induction program as [|call program IH] using rev_ind.
  - repeat split; try done. exists []. by rewrite app_nil_r.
  - rewrite invoke_all_snoc.
    destruct IH as (Hc & Hs & Hd & Hi & new & Hcalls & Hlen).
    destruct (invoke_config call (invoke_all program logger))
      as (Hc' & Hs' & Hd' & Hi').
    destruct (invoke_calls call (invoke_all program logger))
      as (new' & Hcalls' & Hlen').
    rewrite Hc', Hs', Hd', Hi', Hcalls', Hcalls.
    repeat split; try done.
    exists (new ++ new'). split; [by rewrite app_assoc|].
    rewrite !length_app. simpl. lia.
Qed.

Lemma invoke_stricter call strict loose :
  stricter_than strict loose ->
  sublist (Logger.calls strict) (Logger.calls loose) ->
  stricter_than (invoke call strict) (invoke call loose)
  /\ sublist (Logger.calls (invoke call strict))
             (Logger.calls (invoke call loose)).
Proof.
  intros [Hlevel Htimers] Hsub. split.
  - unfold stricter_than.
    destruct (invoke_config call strict) as (-> & _).
    by destruct (invoke_config call loose) as (-> & _).
  - destruct call; simpl;
      unfold Logger.debug, Logger.info, Logger.warn, Logger.error,
        Logger.success, Logger.pending, Logger.complete, Logger.start,
        Logger.pause, Logger.note, Logger.time, Logger.timeEnd, Logger.group,
        Logger.groupEnd, Logger.passes;
      rewrite ?Htimers;
      repeat match goal with
             | |- context [if ?a <=? ?b then _ else _] =>
                 destruct (Z.leb_spec a b)
             | |- context [if ?b then _ else _] => destruct b
             end;
      simpl; try lia; try done;
      first [ by apply sublist_app
            | by apply sublist_inserts_r ].
Qed.

(** X21. Raising the level of a logger only drops calls.  Of two loggers
    with the same timers setting, the second at a level at least as high
    as the first, any program makes on the Signale instance of the
    second a sub-list of the calls it makes on the instance of the
    first. *)
Theorem raising_level_only_drops (program : list Invocation)
  (strict loose : Logger.t) :
  stricter_than strict loose ->
  sublist (Logger.calls strict) (Logger.calls loose) ->
  sublist (Logger.calls (invoke_all program strict))
          (Logger.calls (invoke_all program loose)).
Proof.
  revert strict loose.
  induction program as [|call program IH]; intros strict loose Hs Hsub;
    [done|].
  simpl.
  destruct (invoke_stricter call strict loose Hs Hsub) as [Hs' Hsub'].
  by apply IH.
Qed.

Lemma raising_level_only_drops_witness :
  sublist
    (Logger.calls
       (invoke_all [CallDebug "d" []; CallError "e" []] quiet_logger))
    (Logger.calls
       (invoke_all [CallDebug "d" []; CallError "e" []] plain_logger)).
Proof.
  apply (raising_level_only_drops [CallDebug "d" []; CallError "e" []]
           quiet_logger plain_logger).
  - split; [vm_compute; discriminate | reflexivity].
  - vm_compute. constructor.
Defined.

(** X22. What gets through.  [error] is forwarded at every level; a
    logger built without a level drops [debug] and forwards [info],
    [warn] and [error]; and at any level, a logger that forwards one of
    the four forwards each of the more severe ones. *)
Theorem logger_threshold (given : Logger.PartialConfig) (logger : Logger.t)
  (message : string) (args : list string) :
  Logger.calls (Logger.error message args logger)
  = Logger.calls logger
    ++ [{| Logger.method := Logger.MError;
           Logger.arguments := map Some (message :: args) |}]
  /\ (no_level_given given ->
      Logger.debug message args (Logger.new given) = Logger.new given
      /\ Logger.calls (Logger.info message args (Logger.new given))
         = [{| Logger.method := Logger.MInfo;
               Logger.arguments := map Some (message :: args) |}]
      /\ Logger.calls (Logger.warn message args (Logger.new given))
         = [{| Logger.method := Logger.MWarn;
               Logger.arguments := map Some (message :: args) |}])
  /\ (forall l l',
        Logger.passes l logger = true ->
        Logger.logLevels l <= Logger.logLevels l' ->
        Logger.passes l' logger = true).
Proof.
  split; [|split].
  - unfold Logger.error, Logger.passes.
    destruct (Logger.level (Logger.config logger)); reflexivity.
  - unfold no_level_given. intros Hnone.
    unfold Logger.debug, Logger.info, Logger.warn, Logger.passes, Logger.new,
      Logger.spread.
    cbn [Logger.config Logger.level]. rewrite Hnone. done.
  - unfold Logger.passes. intros l l' H Hle.
    apply Z.leb_le. apply Z.leb_le in H. lia.
Qed.

(** X23. The label of a timer does not reach Signale when the timer is
    started: [time] passes on what [console.time] returns, which is
    [undefined], so that [time] does the same for every label, while
    [timeEnd] passes its label on; with the timers off, neither makes a
    call. *)
Theorem timer_label_is_lost_at_start (label label' : string)
  (logger : Logger.t) :
  Logger.time label logger = Logger.time label' logger
  /\ (Logger.timers (Logger.config logger) = true ->
      Logger.calls (Logger.time label logger)
      = Logger.calls logger
        ++ [{| Logger.method := Logger.MTime; Logger.arguments := [None] |}]
      /\ Logger.calls (Logger.timeEnd label logger)
         = Logger.calls logger
           ++ [{| Logger.method := Logger.MTimeEnd;
                  Logger.arguments := [Some label] |}])
  /\ (Logger.timers (Logger.config logger) = false ->
      Logger.time label logger = logger
      /\ Logger.timeEnd label logger = logger).
Proof.
  unfold Logger.time, Logger.timeEnd.
  split; [done|].
  split; intros ->; done.
Qed.
